(** * Single-SKU palletizer (lib/calculation-worker.ts)

    A shallow embedding of the packing engine and the proofs of its
    specification.

    Numbers.  The engine computes on JavaScript numbers.  Here box and
    pallet dimensions are exact rationals ([Q]) and box counts are unbounded
    integers ([Z]): rounding and overflow of binary floating point, [NaN],
    the infinities and the engine's limits on the length of an array and on
    the number of arguments of a call are outside the model.  What the
    pattern search does on a deck that is not finite is modelled apart, at
    the end of the definitions.
    Quantities are integers because the callers pass integers: the
    calculator page floors the quantity it reads and [validateQuantity]
    rejects a quantity that is not an integer.  [EPS] is the rational
    1/1000000.  Operations that the engine performs on counts are written
    with their integer meaning: [Math.floor (a / b)] is [a / b] on [Z],
    [a % b] is [Z.rem a b], [Math.ceil (a / b)] is [- ((- a) / b)].
    Division by a dimension occurs only behind the checks that make the
    dimension positive.

    Arrays are lists, read with [!!] and updated in place with [alter] and
    [<[ i := v ]>]; the insertion-ordered index [Set] of the partial-layer
    selector is a list of indices without duplicates.  Loops are structural
    recursions on the number of iterations left. *)

From Stdlib Require Import ZArith QArith Qround Qminmax Qabs Lia Lqa DecimalString.
From Stdlib Require Import DecimalNat.
From stdpp Require Import base list strings.

Local Open Scope Z_scope.

(** ** Data model *)

Record BoxType := {
  b_id : string;
  b_sku : string;
  b_length : Q;
  b_width : Q;
  b_height : Q;
  b_weight : Q;
  b_quantity : Z;
  b_color : string
}.

Record PalletConfig := {
  p_type : string;
  p_width : Q;
  p_depth : Q;
  p_height : Q;
  p_maxHeight : Q
}.

Record BoxPlacement := {
  bp_x : Q;
  bp_z : Q;
  bp_box : BoxType;
  bp_rotation : Z;
  bp_layer : Z
}.

Record PalletResult := {
  palletNumber : Z;
  placements : list BoxPlacement;
  layers : Z;
  boxesPerLayer : Z;
  pr_totalBoxes : Z;
  pr_totalWeight : Q;
  efficiency : Q;
  totalHeight : Q
}.

Record CalculationResult := {
  pallets : list PalletResult;
  totalPallets : Z;
  totalBoxes : Z;
  totalWeight : Q;
  averageEfficiency : Q;
  boxDistribution : list (string * list (Z * Z));
  error : option string
}.

Definition EPS : Q := 1 # 1000000.

Record Footprint := { len : Q; wid : Q; rot : Z }.
Record LayerBlock := { cols : Z; rows : Z; blk_fp : Footprint }.

Inductive PatternKind := grid | split_x | split_z.

Record LayerPattern := {
  kind : PatternKind;
  blocks : list LayerBlock;
  usedWidth : Q;
  usedDepth : Q;
  perLayer : Z;
  maxCols : Z;
  maxRows : Z
}.

Record Cell := { cell_x : Q; cell_z : Q; cell_fp : Footprint }.

(** ** Arithmetic of the engine *)

(** [Math.floor (x / y)] on rationals. *)
Definition floorQ (x y : Q) : Z := Qfloor (x / y).

(** [Math.ceil (a / b)] on integer counts. *)
Definition ceilDiv (a b : Z) : Z := - ((- a) / b).

Definition sumZ (l : list Z) : Z := foldl Z.add 0 l.
Arguments sumZ : simpl never.

(** [0, 1, ..., n-1], the values of a counter [for (let i = 0; i < n; i++)];
    empty when [n <= 0]. *)
Definition upto (n : Z) : list Z := Z.of_nat <$> seq 0 (Z.to_nat n).

(** ** Target distribution: full layers first *)

(** First loop of [buildTargetsByFullLayers]: [n] iterations are left and
    [i] is the loop counter. *)
Fixpoint spreadExtraLayers (layersMax : Z) (n i : nat)
    (layersPerPallet : list Z) (extraLayers : Z) : list Z :=
  match n with
  | O => layersPerPallet
  | S n' =>
      let '(ls, extra) :=
        if 0 <? extraLayers
        then (alter Z.succ i layersPerPallet, extraLayers - 1)
        else (layersPerPallet, extraLayers) in
      let ls := alter (fun v => Z.min v layersMax) i ls in
      spreadExtraLayers layersMax n' (S i) ls extra
  end.

(** [for (let i = pallets - 1; i >= 0; i--)]: the indices [k-1, ..., 0] are
    still to be visited.  Returns the counts and what is left of [rem].  A
    missing entry compares as not below [layersMax], and the loop goes
    on. *)
Fixpoint remainderOnLast (layersMax rem : Z) (layersPerPallet : list Z)
    (k : nat) (counts : list Z) : list Z * Z :=
  match k with
  | O => (counts, rem)
  | S i =>
      match layersPerPallet !! i with
      | Some l =>
          if l <? layersMax
          then (alter (fun c => c + rem) i counts, 0)
          else remainderOnLast layersMax rem layersPerPallet i counts
      | None => remainderOnLast layersMax rem layersPerPallet i counts
      end
  end.

(** [while (rem > 0 && idx >= 0)] with [idx = k - 1]; [idx] is below the
    length of [counts], so that [counts[idx]] is a number. *)
Fixpoint spreadLeftover (K : Z) (k : nat) (counts : list Z) (rem : Z)
    : list Z * Z :=
  match k with
  | O => (counts, rem)
  | S idx =>
      if 0 <? rem then
        let c := default 0 (counts !! idx) in
        let room := K - (if Z.rem c K =? 0 then K else Z.rem c K) in
        let take := Z.min rem room in
        spreadLeftover K idx (alter (fun v => v + take) idx counts) (rem - take)
      else (counts, rem)
  end.

(** [performCalc] calls it with [K >= 1] and [pallets >= 1]. *)
Definition buildTargetsByFullLayers (total pallets K layersMax : Z) : list Z :=
  let totalFullLayers := total / K in
  let rem := Z.rem total K in
  let baseLayers := totalFullLayers / pallets in
  let extraLayers := Z.rem totalFullLayers pallets in
  let n := Z.to_nat pallets in
  let layersPerPallet :=
    spreadExtraLayers layersMax n 0 (replicate n baseLayers) extraLayers in
  let counts := (fun L => L * K) <$> layersPerPallet in
  let '(counts, rem) :=
    if 0 <? rem
    then remainderOnLast layersMax rem layersPerPallet n counts
    else (counts, rem) in
  let '(counts, rem) := spreadLeftover K n counts rem in
  let diff := total - sumZ counts in
  (* [counts[counts.length - 1] += diff]; on an empty array the index is -1
     and no element changes, as with [alter] on the empty list *)
  if diff =? 0 then counts
  else alter (fun v => v + diff) (length counts - 1)%nat counts.

(** ** Comparisons of the engine on rationals *)

Definition Qltb (x y : Q) : bool := negb (Qle_bool y x).

(** ** Geometry *)

Definition clampCenterInsidePallet (cx cz len wid palletW palletD : Q) : Q * Q :=
  let halfW := (palletW / 2)%Q in
  let halfD := (palletD / 2)%Q in
  let minCx := (- halfW + len / 2 + EPS)%Q in
  let maxCx := (halfW - len / 2 - EPS)%Q in
  let minCz := (- halfD + wid / 2 + EPS)%Q in
  let maxCz := (halfD - wid / 2 - EPS)%Q in
  (Qmax minCx (Qmin maxCx cx), Qmax minCz (Qmin maxCz cz)).

(** ** Pattern search *)

(** [Math.floor] is taken of the exact quotient.  The engine floors the
    rounded quotient, which differs by one where the exact quotient is
    within rounding of an integer. *)
Definition buildGridPattern (width depth : Q) (fp : Footprint) : LayerPattern :=
  let cols := floorQ width (len fp) in
  let rows := floorQ depth (wid fp) in
  {| kind := grid;
     blocks := [ {| cols := cols; rows := rows; blk_fp := fp |} ];
     usedWidth := inject_Z cols * len fp;
     usedDepth := inject_Z rows * wid fp;
     perLayer := Z.max 0 cols * Z.max 0 rows;
     maxCols := cols;
     maxRows := rows |}.

(** Body of [for (let cLeft = 1; cLeft <= maxLeftCols; cLeft++)]; [n]
    iterations are left.  On a finite deck the loop makes no more than
    [floor (width / len)] turns, the measure of this recursion; where that
    bound is infinite the loop does not end, which [splitXSweep] below
    follows. *)
Fixpoint splitXLoop (width depth : Q) (left right : Footprint)
    (n : nat) (cLeft : Z) : list LayerPattern :=
  match n with
  | O => []
  | S n' =>
      let remainingW := (width - inject_Z cLeft * len left)%Q in
      if Qltb remainingW 0 then []
      else
        let cRight := floorQ remainingW (len right) in
        let rowsLeft := floorQ depth (wid left) in
        let rowsRight := floorQ depth (wid right) in
        {| kind := split_x;
           blocks := [ {| cols := cLeft; rows := rowsLeft; blk_fp := left |};
                       {| cols := cRight; rows := rowsRight; blk_fp := right |} ];
           usedWidth := inject_Z cLeft * len left + inject_Z cRight * len right;
           usedDepth := Qmax (inject_Z rowsLeft * wid left)
                             (inject_Z rowsRight * wid right);
           perLayer := cLeft * rowsLeft + cRight * rowsRight;
           maxCols := Z.max cLeft cRight;
           maxRows := Z.max rowsLeft rowsRight |}
        :: splitXLoop width depth left right n' (cLeft + 1)
  end.

Definition buildSplitXPatterns (width depth : Q) (left right : Footprint)
    : list LayerPattern :=
  let maxLeftCols := floorQ width (len left) in
  splitXLoop width depth left right (Z.to_nat maxLeftCols) 1.

(** Body of [for (let rFront = 1; rFront <= maxFrontRows; rFront++)]; see
    [splitXLoop] and, for a bound that is infinite, [splitZSweep] below. *)
Fixpoint splitZLoop (width depth : Q) (front back : Footprint)
    (n : nat) (rFront : Z) : list LayerPattern :=
  match n with
  | O => []
  | S n' =>
      let remainingD := (depth - inject_Z rFront * wid front)%Q in
      if Qltb remainingD 0 then []
      else
        let rBack := floorQ remainingD (wid back) in
        let colsFront := floorQ width (len front) in
        let colsBack := floorQ width (len back) in
        {| kind := split_z;
           blocks := [ {| cols := colsFront; rows := rFront; blk_fp := front |};
                       {| cols := colsBack; rows := rBack; blk_fp := back |} ];
           usedWidth := Qmax (inject_Z colsFront * len front)
                             (inject_Z colsBack * len back);
           usedDepth := inject_Z rFront * wid front + inject_Z rBack * wid back;
           perLayer := rFront * colsFront + rBack * colsBack;
           maxCols := Z.max colsFront colsBack;
           maxRows := Z.max rFront rBack |}
        :: splitZLoop width depth front back n' (rFront + 1)
  end.

Definition buildSplitZPatterns (width depth : Q) (front back : Footprint)
    : list LayerPattern :=
  let maxFrontRows := floorQ depth (wid front) in
  splitZLoop width depth front back (Z.to_nat maxFrontRows) 1.

(** The candidates in the order in which [chooseBestLayerPattern] pushes
    them. *)
Definition candidatePatterns (width depth : Q) (a b : Footprint)
    : list LayerPattern :=
  [buildGridPattern width depth a; buildGridPattern width depth b]
  ++ buildSplitXPatterns width depth a b
  ++ buildSplitXPatterns width depth b a
  ++ buildSplitZPatterns width depth a b
  ++ buildSplitZPatterns width depth b a.

(** The predicate of [candidates.filter]. *)
Definition fitsDeck (width depth : Q) (c : LayerPattern) : bool :=
  (0 <? perLayer c)
  && Qle_bool (usedWidth c - EPS) width
  && Qle_bool (usedDepth c - EPS) depth.

Definition scoreTuple (totalQty : Z) (c : LayerPattern) : list Q :=
  let usedArea := (usedWidth c * usedDepth c)%Q in
  let squareness := (- Qabs (usedWidth c - usedDepth c))%Q in
  let simplicity := (- (inject_Z (Z.of_nat (length (blocks c)) - 1)))%Q in
  let divisible := if Z.rem totalQty (perLayer c) =? 0 then 1 else 0 in
  let remainder := Z.rem totalQty (perLayer c) in
  [ inject_Z (perLayer c); usedArea; squareness; simplicity;
    inject_Z divisible; (- inject_Z remainder)%Q ].

(** The inner loop over [k]: [true] as soon as a component of [key] is
    greater, [false] as soon as one is smaller or when all are equal. *)
Fixpoint lexBetter (key bestKey : list Q) : bool :=
  match key, bestKey with
  | a :: key', b :: bestKey' =>
      if Qltb b a then true
      else if Qltb a b then false
      else lexBetter key' bestKey'
  | _, _ => false
  end.

(** One iteration of the loop over [viable]. *)
Definition keepBetter (totalQty : Z) (st : LayerPattern * list Q)
    (c : LayerPattern) : LayerPattern * list Q :=
  let key := scoreTuple totalQty c in
  if lexBetter key (snd st) then (c, key) else st.

Definition chooseBestLayerPattern (width depth : Q) (a b : Footprint)
    (totalQty : Z) : option LayerPattern :=
  let viable := List.filter (fitsDeck width depth) (candidatePatterns width depth a b) in
  match viable with
  | [] => None
  | v0 :: rest =>
      Some (fst (foldl (keepBetter totalQty) (v0, scoreTuple totalQty v0) rest))
  end.

(** ** Materializing a layer *)

(** The nested loops [for r < b.rows; for c < b.cols] that push the cells of
    one block whose first cell is at [(x0, z0)]. *)
Definition blockCells (b : LayerBlock) (x0 z0 : Q) : list Cell :=
  flat_map (fun r =>
    (fun c => {| cell_x := x0 + inject_Z c * len (blk_fp b);
                 cell_z := z0 + inject_Z r * wid (blk_fp b);
                 cell_fp := blk_fp b |}) <$> upto (cols b))
    (upto (rows b)).

(** Patterns come from the three builders, which give a [grid] one block and
    a split two; the branches on a shorter [blocks] are not reached. *)
Definition materializeLayerCells (pattern : LayerPattern) (palletW palletD : Q)
    : list Cell :=
  let offsetX := ((palletW - usedWidth pattern) / 2)%Q in
  let offsetZ := ((palletD - usedDepth pattern) / 2)%Q in
  match kind pattern, blocks pattern with
  | grid, b :: _ =>
      let blockOffsetX :=
        (offsetX + (usedWidth pattern - inject_Z (cols b) * len (blk_fp b)) / 2)%Q in
      let blockOffsetZ :=
        (offsetZ + (usedDepth pattern - inject_Z (rows b) * wid (blk_fp b)) / 2)%Q in
      blockCells b blockOffsetX blockOffsetZ
  | split_x, leftB :: rightB :: _ =>
      let curX := offsetX in
      let leftOffsetZ :=
        (offsetZ + (usedDepth pattern - inject_Z (rows leftB) * wid (blk_fp leftB)) / 2)%Q in
      let curX' := (curX + inject_Z (cols leftB) * len (blk_fp leftB))%Q in
      let rightOffsetZ :=
        (offsetZ + (usedDepth pattern - inject_Z (rows rightB) * wid (blk_fp rightB)) / 2)%Q in
      blockCells leftB curX leftOffsetZ ++ blockCells rightB curX' rightOffsetZ
  | split_z, front :: back :: _ =>
      let curZ := offsetZ in
      let frontOffsetX :=
        (offsetX + (usedWidth pattern - inject_Z (cols front) * len (blk_fp front)) / 2)%Q in
      let curZ' := (curZ + inject_Z (rows front) * wid (blk_fp front))%Q in
      let backOffsetX :=
        (offsetX + (usedWidth pattern - inject_Z (cols back) * len (blk_fp back)) / 2)%Q in
      blockCells front frontOffsetX curZ ++ blockCells back backOffsetX curZ'
  | _, _ => []
  end.

(** ** Partial selector: corners first, then edges *)

(** [cells.findIndex ((c, i) => p i c)], scanning from index [i]. *)
Fixpoint findIndexFrom {A} (p : nat -> A -> bool) (i : nat) (l : list A)
    : option nat :=
  match l with
  | [] => None
  | a :: l' => if p i a then Some i else findIndexFrom p (S i) l'
  end.

(** [remaining.delete (i)] on the index set. *)
Definition deleteIndex (i : nat) (remaining : list nat) : list nat :=
  filter (fun j => j <> i) remaining.

(** One turn of a scan [for (const i of remaining)] that keeps the index of
    the least score so far and that score.  [None] stands for the initial
    pair [best = -1], [bestD = Infinity], below which every score lies.
    The indices of [remaining] are indices of [cells], so that [cells[i]] is
    a cell; the branch on [None] is not reached. *)
Definition leastStep (score : Cell -> Q) (cells : list Cell)
    (best : option (nat * Q)) (i : nat) : option (nat * Q) :=
  match cells !! i with
  | Some c =>
      let d := score c in
      match best with
      | None => Some (i, d)
      | Some (_, bestD) => if Qltb d bestD then Some (i, d) else best
      end
  | None => best
  end.

(** The whole scan: the first index of least score. *)
Definition leastOver (score : Cell -> Q) (cells : list Cell)
    (remaining : list nat) : option (nat * Q) :=
  foldl (leastStep score cells) None remaining.

Definition dist2 (cell : Cell) (px pz : Q) : Q :=
  let cx := (cell_x cell + len (cell_fp cell) / 2)%Q in
  let cz := (cell_z cell + wid (cell_fp cell) / 2)%Q in
  ((cx - px) * (cx - px) + (cz - pz) * (cz - pz))%Q.

Definition edgeScore (minX maxX minZ maxZ : Q) (cell : Cell) : Q :=
  let cx := (cell_x cell + len (cell_fp cell) / 2)%Q in
  let cz := (cell_z cell + wid (cell_fp cell) / 2)%Q in
  let left := (cx - minX)%Q in
  let right := (maxX - cx)%Q in
  let front := (cz - minZ)%Q in
  let back := (maxZ - cz)%Q in
  Qmin (Qmin (Qmin left right) front) back.

(** State of the selector: the index set [remaining] and the array
    [picked]. *)
Definition pickState : Type := list nat * list nat.

Definition pushPicked (i : nat) (st : pickState) : pickState :=
  (deleteIndex i (fst st), snd st ++ [i]).

(** One corner: the test [c => ...] of [corners[k]] and the point
    [cornerPoints[k]]. *)
Definition corner : Type := (Cell -> bool) * (Q * Q).

(** Body of the loop [for (k = 0; k < 4 && picked.length < r; k++)] for one
    corner. *)
Definition pickCorner (cells : list Cell) (k : corner) (st : pickState)
    : pickState :=
  match findIndexFrom
          (fun i c => bool_decide (i ∈ fst st) && fst k c) 0%nat cells with
  | Some exactIdx => pushPicked exactIdx st
  | None =>
      match leastOver (fun c => dist2 c (fst (snd k)) (snd (snd k)))
                      cells (fst st) with
      | Some (best, _) => pushPicked best st
      | None => st
      end
  end.

Fixpoint cornersLoop (cells : list Cell) (r : Z) (ks : list corner)
    (st : pickState) : pickState :=
  match ks with
  | [] => st
  | k :: ks' =>
      if Z.of_nat (length (snd st)) <? r
      then cornersLoop cells r ks' (pickCorner cells k st)
      else st
  end.

(** [while (picked.length < r && remaining.size)]; every turn that does not
    break deletes an index, so [length remaining] turns of [fuel] suffice. *)
Fixpoint edgesLoop (score : Cell -> Q) (cells : list Cell) (r : Z)
    (fuel : nat) (st : pickState) : pickState :=
  match fuel with
  | O => st
  | S fuel' =>
      if (Z.of_nat (length (snd st)) <? r) && negb (length (fst st) =? 0)%nat
      then
        match leastOver score cells (fst st) with
        | Some (best, _) => edgesLoop score cells r fuel' (pushPicked best st)
        | None => st
        end
      else st
  end.

(** The indices that [pickCornerEdgePartialCells] picks, in the order in
    which it picks them.  The four bounds start at an infinity in the
    source; on a list with first cell [c0] the first turn of the loop
    replaces it by the value of [c0].  [Math.min (...cells.map (..))] and
    [Math.max (...)] are folds here; the engine passes every cell as an
    argument of one call and throws a [RangeError] beyond its limit on
    arguments, which is not modelled. *)
Definition pickedIndices (c0 : Cell) (rest : list Cell) (r : Z) : list nat :=
  let cells := c0 :: rest in
  let minX := foldl (fun m c => Qmin m (cell_x c)) (cell_x c0) rest in
  let minZ := foldl (fun m c => Qmin m (cell_z c)) (cell_z c0) rest in
  let maxX := foldl (fun m c => Qmax m (cell_x c + len (cell_fp c)))
                    (cell_x c0 + len (cell_fp c0))%Q rest in
  let maxZ := foldl (fun m c => Qmax m (cell_z c + wid (cell_fp c)))
                    (cell_z c0 + wid (cell_fp c0))%Q rest in
  let minCol := foldl Qmin (cell_x c0) (cell_x <$> rest) in
  let maxCol := foldl Qmax (cell_x c0) (cell_x <$> rest) in
  let minRow := foldl Qmin (cell_z c0) (cell_z <$> rest) in
  let maxRow := foldl Qmax (cell_z c0) (cell_z <$> rest) in
  let corners : list corner :=
    [ (fun c => Qeq_bool (cell_x c) minCol && Qeq_bool (cell_z c) minRow, (minX, minZ));
      (fun c => Qeq_bool (cell_x c) minCol && Qeq_bool (cell_z c) maxRow, (minX, maxZ));
      (fun c => Qeq_bool (cell_x c) maxCol && Qeq_bool (cell_z c) minRow, (maxX, minZ));
      (fun c => Qeq_bool (cell_x c) maxCol && Qeq_bool (cell_z c) maxRow, (maxX, maxZ)) ] in
  let st0 : pickState := (seq 0 (length cells), []) in
  let st1 := cornersLoop cells r corners st0 in
  let st2 := edgesLoop (edgeScore minX maxX minZ maxZ) cells r (length (fst st1)) st1 in
  snd st2.

(** On an empty [cells] the index set is empty, both loops pick nothing and
    the result is [[]].  The picked indices are indices of [cells], so that
    [picked.map (i => cells[i])] reads cells only. *)
Definition pickCornerEdgePartialCells (cells : list Cell) (r : Z) : list Cell :=
  if r <=? 0 then []
  else
    match cells with
    | [] => []
    | c0 :: rest => (fun i => default c0 (cells !! i)) <$> pickedIndices c0 rest r
    end.

(** ** Placements of one pallet *)

(** [`${base.id}-${idCounter++}`], the [makeId] closure of [performCalc];
    the counter is threaded through explicitly. *)
Definition makeId (base : BoxType) (idCounter : nat) : string :=
  b_id base +:+ "-" +:+ NilEmpty.string_of_uint (Nat.to_uint idCounter).

(** [{ ...base, id }] *)
Definition withId (base : BoxType) (id : string) : BoxType :=
  {| b_id := id; b_sku := b_sku base; b_length := b_length base;
     b_width := b_width base; b_height := b_height base;
     b_weight := b_weight base; b_quantity := b_quantity base;
     b_color := b_color base |}.

(** The placement pushed for one cell. *)
Definition placeCell (base : BoxType) (pallet : PalletConfig) (layerIndex : Z)
    (cell : Cell) (idCounter : nat) : BoxPlacement :=
  let cx := (cell_x cell + len (cell_fp cell) / 2 - p_width pallet / 2)%Q in
  let cz := (cell_z cell + wid (cell_fp cell) / 2 - p_depth pallet / 2)%Q in
  let '(cx, cz) :=
    clampCenterInsidePallet cx cz (len (cell_fp cell)) (wid (cell_fp cell))
                            (p_width pallet) (p_depth pallet) in
  {| bp_x := cx; bp_z := cz; bp_box := withId base (makeId base idCounter);
     bp_rotation := rot (cell_fp cell); bp_layer := layerIndex |}.

(** [for (const cell of cells)]: the placements pushed and the counter
    afterwards. *)
Fixpoint placeCells (base : BoxType) (pallet : PalletConfig) (layerIndex : Z)
    (cells : list Cell) (idCounter : nat) : list BoxPlacement * nat :=
  match cells with
  | [] => ([], idCounter)
  | cell :: cells' =>
      let p := placeCell base pallet layerIndex cell idCounter in
      let '(ps, idCounter') :=
        placeCells base pallet layerIndex cells' (S idCounter) in
      (p :: ps, idCounter')
  end.

(** [for (let i = 0; i < fullLayers; i++)] with [n] iterations left. *)
Fixpoint fillFullLayers (pattern : LayerPattern) (base : BoxType)
    (pallet : PalletConfig) (n : nat) (layerIndex : Z) (idCounter : nat)
    : list BoxPlacement * nat :=
  match n with
  | O => ([], idCounter)
  | S n' =>
      let cells := materializeLayerCells pattern (p_width pallet) (p_depth pallet) in
      let '(ps, idCounter1) := placeCells base pallet layerIndex cells idCounter in
      let '(qs, idCounter2) :=
        fillFullLayers pattern base pallet n' (layerIndex + 1) idCounter1 in
      (ps ++ qs, idCounter2)
  end.

(** Returns [placements], [layersUsed] and the id counter afterwards. *)
Definition buildPlacementsForPallet (targetCount layersMax : Z)
    (pattern : LayerPattern) (base : BoxType) (pallet : PalletConfig)
    (idCounter : nat) (allFull : bool) : list BoxPlacement * Z * nat :=
  let K := Z.max 1 (perLayer pattern) in
  let remaining := targetCount in
  let fullLayers := Z.min (remaining / K) layersMax in
  let n := Z.to_nat fullLayers in
  let '(full, idCounter1) := fillFullLayers pattern base pallet n 0 idCounter in
  let remaining := remaining - Z.of_nat n * K in
  let layerIndex := Z.of_nat n in
  if (0 <? remaining) && (layerIndex <? layersMax) then
    let cells := materializeLayerCells pattern (p_width pallet) (p_depth pallet) in
    let picked := pickCornerEdgePartialCells cells remaining in
    let '(part, idCounter2) := placeCells base pallet layerIndex picked idCounter1 in
    (full ++ part, layerIndex + 1, idCounter2)
  else (full, layerIndex, idCounter1).

(** ** Orchestrator *)

(** What a call gives: a value, or an exception that unwinds to the nearest
    [catch]. *)
Inductive completion (A : Type) :=
  | Normal (a : A)
  | Throw (e : string).
Arguments Normal {A} a.
Arguments Throw {A} e.

(** The [boxes] argument as a caller may pass it: [null] or [undefined], an
    array whose entries may be [null], or a value that is no array, on which
    [.filter] is not a function. *)
Inductive boxesArg :=
  | BNullish
  | BArray (entries : list (option BoxType))
  | BNotArray.

(** [boxes || []] *)
Definition entriesOf (boxes : boxesArg) : list (option BoxType) :=
  match boxes with
  | BArray entries => entries
  | _ => []
  end.

Definition emptyResult (err : string) : CalculationResult :=
  {| pallets := []; totalPallets := 0; totalBoxes := 0; totalWeight := 0;
     averageEfficiency := 0; boxDistribution := []; error := Some err |}.

(** The predicate of [(boxes || []).filter]; a missing quantity reads as 0
    through [b.quantity || 0], and is stored as 0 here. *)
Definition isValidBox (b : option BoxType) : bool :=
  match b with
  | None => false
  | Some b =>
      Qltb 0 (b_length b) && Qltb 0 (b_width b) && Qltb 0 (b_height b)
      && (0 <? b_quantity b)
  end.

Definition validBoxes (entries : list (option BoxType)) : list BoxType :=
  omap id (List.filter isValidBox entries).

Definition withQuantity (b : BoxType) (q : Z) : BoxType :=
  {| b_id := b_id b; b_sku := b_sku b; b_length := b_length b;
     b_width := b_width b; b_height := b_height b;
     b_weight := b_weight b; b_quantity := q; b_color := b_color b |}.

Definition sumQ (l : list Q) : Q := foldl Qplus 0%Q l.

(** Body of [for (let p = 0; p < targets.length; p++)] over the targets that
    are left; gives the pallets pushed, the entries written to
    [dist[base.sku]] and the id counter. *)
Fixpoint palletLoop (K layersMax capacityPerPallet : Z) (pattern : LayerPattern)
    (base : BoxType) (pallet : PalletConfig) (allFull : bool)
    (targets : list Z) (p : Z) (idCounter : nat)
    : list PalletResult * list (Z * Z) * nat :=
  match targets with
  | [] => ([], [], idCounter)
  | target :: targets' =>
      let t := Z.min target capacityPerPallet in
      let '(placements, layersUsed, idCounter1) :=
        buildPlacementsForPallet t layersMax pattern base pallet idCounter allFull in
      let count := Z.of_nat (length placements) in
      let usedVol := (inject_Z count * b_length base * b_width base * b_height base)%Q in
      let capVol :=
        (p_width pallet * p_depth pallet * (p_maxHeight pallet - p_height pallet))%Q in
      let eff := Qmin 100 (usedVol / Qmax capVol EPS * 100)%Q in
      let pr :=
        {| palletNumber := p + 1;
           placements := placements;
           layers := layersUsed;
           boxesPerLayer := K;
           pr_totalBoxes := count;
           pr_totalWeight := (inject_Z count * b_weight base)%Q;
           efficiency := eff;
           totalHeight := (p_height pallet + inject_Z layersUsed * b_height base)%Q |} in
      let '(prs, dist, idCounter2) :=
        palletLoop K layersMax capacityPerPallet pattern base pallet allFull
                   targets' (p + 1) idCounter1 in
      (pr :: prs, (p + 1, count) :: dist, idCounter2)
  end.

(** [performCalc] on a pallet and boxes of finite dimensions: it returns a
    result or throws.  Two things that the engine can do besides are not
    represented.  On a layer of very many cells the partial selector hands
    every cell to one call, [Math.min (...cells.map (..))], and the engine
    throws a [RangeError] beyond its limit on arguments.  On a deck whose
    width or depth is infinite a sweep of the pattern search does not end,
    and [performCalc] does not return. *)
Definition performCalc (boxes : boxesArg) (pallet : option PalletConfig)
    : completion CalculationResult :=
  match pallet with
  | None => Normal (emptyResult "Invalid pallet configuration")
  | Some pallet =>
    if Qle_bool (p_width pallet) 0 || Qle_bool (p_depth pallet) 0
       || Qle_bool (p_maxHeight pallet) (p_height pallet)
    then Normal (emptyResult "Invalid pallet configuration")
    else
      match boxes with
      | BNotArray => Throw "TypeError: (boxes || []).filter is not a function"
      | _ =>
        let valid := validBoxes (entriesOf boxes) in
        match valid with
        | [] => Normal (emptyResult "No valid boxes with dimensions defined")
        | v0 :: _ =>
          let totalQty := foldl (fun s b => s + b_quantity b) 0 valid in
          let base := withQuantity v0 totalQty in
          let fp0 := {| len := b_length base; wid := b_width base; rot := 0 |} in
          let fp90 := {| len := b_width base; wid := b_length base; rot := 90 |} in
          match chooseBestLayerPattern (p_width pallet) (p_depth pallet)
                                       fp0 fp90 totalQty with
          | None => Normal (emptyResult "Box footprint does not fit on pallet area")
          | Some pattern =>
            if perLayer pattern =? 0
            then Normal (emptyResult "Box footprint does not fit on pallet area")
            else
              let K := perLayer pattern in
              let layersMax :=
                floorQ (p_maxHeight pallet - p_height pallet + EPS) (b_height base) in
              if layersMax <=? 0
              then Normal (emptyResult "No vertical clearance for a single layer")
              else
                let capacityPerPallet := K * layersMax in
                let minPallets :=
                  Z.max 1 (ceilDiv totalQty (Z.max 1 capacityPerPallet)) in
                let targets :=
                  buildTargetsByFullLayers totalQty minPallets K layersMax in
                let allFull := forallb (fun t => Z.rem t K =? 0) targets in
                let '(palletsOut, dist, _) :=
                  palletLoop K layersMax capacityPerPallet pattern base pallet
                             allFull targets 0 0%nat in
                let totalPallets := Z.of_nat (length palletsOut) in
                let totalBoxes :=
                  foldl (fun s pr => s + pr_totalBoxes pr) 0 palletsOut in
                let totalWeight :=
                  foldl (fun s pr => (s + pr_totalWeight pr)%Q) 0%Q palletsOut in
                let avgEff :=
                  if totalPallets =? 0 then 0%Q
                  else (foldl (fun s pr => (s + efficiency pr)%Q) 0%Q palletsOut
                        / inject_Z totalPallets)%Q in
                Normal
                  {| pallets := palletsOut;
                     totalPallets := totalPallets;
                     totalBoxes := totalBoxes;
                     totalWeight := totalWeight;
                     averageEfficiency := avgEff;
                     boxDistribution := [(b_sku base, dist)];
                     error := None |}
          end
        end
      end
  end.

(** How a promise settles. *)
Inductive settled (A : Type) :=
  | Resolved (a : A)
  | Rejected (reason : string).
Arguments Resolved {A} a.
Arguments Rejected {A} reason.

(** The promise of [calculateMultiPalletLayout] once the timer has fired
    and [performCalc] has returned or thrown: the executor never calls a
    reject function, and the [try] around [performCalc] turns every
    exception into a resolved result.  Where [performCalc] does not return
    the promise stays pending, an outcome that [settled] does not have. *)
Definition calculateMultiPalletLayout (boxes : boxesArg)
    (pallet : option PalletConfig) (_pattern : string)
    : settled CalculationResult :=
  match performCalc boxes pallet with
  | Normal r => Resolved r
  | Throw _ => Resolved (emptyResult "Calculation failed")
  end.

(** ** The distribution as the specification words it *)

(** Layers of pallet [i] when the [floor (Q / K)] full layers are spread as
    evenly as possible over [P] pallets: [floor (floor (Q / K) / P)] each,
    one more on the first [floor (Q / K) mod P] pallets, clamped to [L]. *)
Definition evenLayers (Q P K L : Z) (i : nat) : Z :=
  Z.min (Q / K / P + (if Z.of_nat i <? (Q / K) mod P then 1 else 0)) L.

(** ** The ranking as the specification words it *)

(** Strict lexicographic order on score tuples: the first component that
    differs decides. *)
Inductive lexLt : list Q -> list Q -> Prop :=
  | lexLt_head (a b : Q) (l k : list Q) :
      (a < b)%Q -> lexLt (a :: l) (b :: k)
  | lexLt_tail (a b : Q) (l k : list Q) :
      (a == b)%Q -> lexLt l k -> lexLt (a :: l) (b :: k).

(** The tuple of the ranking: capacity [K], consumed area, squareness,
    simplicity, divisibility of the quantity by [K], and the negated
    remainder. *)
Definition rankKey (totalQty : Z) (c : LayerPattern) : list Q :=
  let K := perLayer c in
  [ inject_Z K;
    (usedWidth c * usedDepth c)%Q;
    (- Qabs (usedWidth c - usedDepth c))%Q;
    (- inject_Z (Z.of_nat (length (blocks c)) - 1))%Q;
    inject_Z (if totalQty mod K =? 0 then 1 else 0);
    (- inject_Z (totalQty mod K))%Q ].

(** A candidate that may be selected: positive capacity, and fits the deck
    within [EPS]. *)
Definition viable (width depth : Q) (c : LayerPattern) : Prop :=
  0 < perLayer c
  /\ (usedWidth c <= width + EPS)%Q
  /\ (usedDepth c <= depth + EPS)%Q.

(** Inputs with which [performCalc] calls the pattern search: a deck and
    footprints of positive extent. *)
Definition positiveDeck (width depth : Q) (a b : Footprint) : Prop :=
  (0 < width)%Q /\ (0 < depth)%Q
  /\ (0 < len a)%Q /\ (0 < wid a)%Q /\ (0 < len b)%Q /\ (0 < wid b)%Q.

(** ** Named parts of a successful run *)

(** The two footprints of a box. *)
Definition footprint0 (b : BoxType) : Footprint :=
  {| len := b_length b; wid := b_width b; rot := 0 |}.
Definition footprint90 (b : BoxType) : Footprint :=
  {| len := b_width b; wid := b_length b; rot := 90 |}.

(** The aggregate quantity: the sum of the quantities of the valid boxes. *)
Definition totalQuantity (boxes : boxesArg) : Z :=
  sumZ (b_quantity <$> validBoxes (entriesOf boxes)).

(** [layersMax] as [performCalc] computes it. *)
Definition layersMaxOf (pallet : PalletConfig) (boxHeight : Q) : Z :=
  floorQ (p_maxHeight pallet - p_height pallet + EPS) boxHeight.

(** The pallets that [performCalc] builds once a pattern is selected, for
    the first valid box [v0], the aggregate quantity and the pattern. *)
Definition palletsFor (pallet : PalletConfig) (v0 : BoxType) (totalQty : Z)
    (pattern : LayerPattern) : list PalletResult :=
  let base := withQuantity v0 totalQty in
  let K := perLayer pattern in
  let layersMax := layersMaxOf pallet (b_height base) in
  let capacityPerPallet := K * layersMax in
  let minPallets := Z.max 1 (ceilDiv totalQty (Z.max 1 capacityPerPallet)) in
  let targets := buildTargetsByFullLayers totalQty minPallets K layersMax in
  let allFull := forallb (fun t => Z.rem t K =? 0) targets in
  (palletLoop K layersMax capacityPerPallet pattern base pallet allFull
              targets 0 0%nat).1.1.

(** The result that [performCalc] assembles once the pattern is selected
    and a layer is known to fit. *)
Definition runResult (pallet : PalletConfig) (v0 : BoxType) (totalQty : Z)
    (pattern : LayerPattern) : CalculationResult :=
  let base := withQuantity v0 totalQty in
  let K := perLayer pattern in
  let layersMax := layersMaxOf pallet (b_height base) in
  let capacityPerPallet := K * layersMax in
  let minPallets := Z.max 1 (ceilDiv totalQty (Z.max 1 capacityPerPallet)) in
  let targets := buildTargetsByFullLayers totalQty minPallets K layersMax in
  let allFull := forallb (fun t => Z.rem t K =? 0) targets in
  let '(palletsOut, dist, _) :=
    palletLoop K layersMax capacityPerPallet pattern base pallet allFull
               targets 0 0%nat in
  let totalPallets := Z.of_nat (length palletsOut) in
  {| pallets := palletsOut;
     totalPallets := totalPallets;
     totalBoxes := foldl (fun s pr => s + pr_totalBoxes pr) 0 palletsOut;
     totalWeight := foldl (fun s pr => (s + pr_totalWeight pr)%Q) 0%Q palletsOut;
     averageEfficiency :=
       if totalPallets =? 0 then 0%Q
       else (foldl (fun s pr => (s + efficiency pr)%Q) 0%Q palletsOut
             / inject_Z totalPallets)%Q;
     boxDistribution := [(b_sku base, dist)];
     error := None |}.

(** ** Claims as the specification states them *)

(** The capacity bound of the specification for the pallets of a run, with
    the box height [boxHeight]. *)
Definition capacityBoundAsStated (boxes : boxesArg) (pallet : PalletConfig)
    (boxHeight : Q) : Prop :=
  forall r, performCalc boxes (Some pallet) = Normal r -> error r = None ->
    forall p, p ∈ pallets r ->
      pr_totalBoxes p <= boxesPerLayer p * layers p
      /\ boxesPerLayer p * layers p
         <= boxesPerLayer p
            * floorQ (p_maxHeight pallet - p_height pallet) boxHeight.

(** The first placement of the first pallet of a run. *)
Definition firstPlacement (c : completion CalculationResult)
    : option BoxPlacement :=
  match c with
  | Normal r => head (pallets r) ≫= fun p => head (placements p)
  | Throw _ => None
  end.

(** The placements of one layer. *)
Definition onLayer (k : Z) (ps : list BoxPlacement) : list BoxPlacement :=
  List.filter (fun bp => bp_layer bp =? k) ps.

(** A cell at a grid corner of a layer: its origin has the least or the
    greatest [x] of all cells, and the least or the greatest [z]. *)
Definition isGridCorner (cells : list Cell) (c : Cell) : bool :=
  (forallb (fun c' => Qle_bool (cell_x c) (cell_x c')) cells
   || forallb (fun c' => Qle_bool (cell_x c') (cell_x c)) cells)
  && (forallb (fun c' => Qle_bool (cell_z c) (cell_z c')) cells
      || forallb (fun c' => Qle_bool (cell_z c') (cell_z c)) cells).

(** The front-left grid corner: least [x] and least [z]. *)
Definition isFrontLeft (cells : list Cell) (c : Cell) : bool :=
  forallb (fun c' => Qle_bool (cell_x c) (cell_x c')) cells
  && forallb (fun c' => Qle_bool (cell_z c) (cell_z c')) cells.

(** [v] is the least value of [f] over the cells. *)
Definition isLeast (f : Cell -> Q) (cells : list Cell) (v : Q) : Prop :=
  (forall c, c ∈ cells -> (v <= f c)%Q)
  /\ exists c, c ∈ cells /\ (f c == v)%Q.

(** [c] is a cell whose centre is nearest to the front-left corner of the
    bounding box of the layer. *)
Definition nearestFrontLeft (cells : list Cell) (c : Cell) : Prop :=
  forall px pz,
    isLeast cell_x cells px -> isLeast cell_z cells pz ->
    forall c', c' ∈ cells -> (dist2 c px pz <= dist2 c' px pz)%Q.

(** A placement that sits where the placement of a grid-corner cell of the
    layer sits. *)
Definition placedOnGridCorner (base : BoxType) (pallet : PalletConfig)
    (cells : list Cell) (bp : BoxPlacement) : bool :=
  existsb (fun c =>
             isGridCorner cells c
             && Qeq_bool (bp_x bp) (bp_x (placeCell base pallet (bp_layer bp) c 0))
             && Qeq_bool (bp_z bp) (bp_z (placeCell base pallet (bp_layer bp) c 0)))
          cells.

(** Scenario E of the specification for one input whose first valid box is
    [v0]. *)
Definition scenarioEAsStated (boxes : boxesArg) (pallet : PalletConfig)
    (v0 : BoxType) : Prop :=
  forall r pattern,
    performCalc boxes (Some pallet) = Normal r ->
    error r = None ->
    chooseBestLayerPattern (p_width pallet) (p_depth pallet)
      (footprint0 v0) (footprint90 v0) (totalQuantity boxes) = Some pattern ->
    totalQuantity boxes = perLayer pattern + 1 ->
    2 <= floorQ (p_maxHeight pallet - p_height pallet) (b_height v0) ->
    exists p,
      pallets r = [p]
      /\ layers p = 2
      /\ Z.of_nat (length (onLayer 0 (placements p))) = perLayer pattern
      /\ exists top,
           onLayer 1 (placements p) = [top]
           /\ placedOnGridCorner (withQuantity v0 (totalQuantity boxes)) pallet
                (materializeLayerCells pattern (p_width pallet) (p_depth pallet))
                top = true.

(** ** Invariants and measures of the proofs *)

(** What a scan has found after visiting [seen]: nothing if no index of
    [seen] is an index of [cells], else an index of [seen] whose score is
    least. *)
Definition leastOf (score : Cell -> Q) (cells : list Cell) (seen : list nat)
    (best : option (nat * Q)) : Prop :=
  match best with
  | None => forall i, i ∈ seen -> cells !! i = None
  | Some (b, d) =>
      b ∈ seen
      /\ exists c, cells !! b = Some c /\ d = score c
         /\ forall i c', i ∈ seen -> cells !! i = Some c' -> (d <= score c')%Q
  end.

(** Invariant of the selector on [n] cells: [remaining] and [picked] hold
    distinct indices below [n], share none, and together hold [n]. *)
Definition pickInv (n : nat) (st : pickState) : Prop :=
  NoDup (fst st) /\ NoDup (snd st)
  /\ (forall i, i ∈ fst st -> (i < n)%nat)
  /\ (forall i, i ∈ snd st -> (i < n)%nat /\ i ∉ fst st)
  /\ (length (fst st) + length (snd st))%nat = n.

(** A pattern whose capacity is the number of cells that a layer of it
    holds, on every deck. *)
Definition cellsMatch (p : LayerPattern) : Prop :=
  forall palletW palletD,
    Z.of_nat (length (materializeLayerCells p palletW palletD)) = perLayer p.

(** ** Sample inputs *)

Definition sampleCells : list Cell :=
  let fp := {| len := 5; wid := 3; rot := 0 |} in
  [ {| cell_x := 0; cell_z := 0; cell_fp := fp |};
    {| cell_x := 5; cell_z := 0; cell_fp := fp |};
    {| cell_x := 10; cell_z := 0; cell_fp := fp |} ].

Definition sampleBox (l w h : Q) (q : Z) : BoxType :=
  {| b_id := "box"; b_sku := "SKU-1"; b_length := l; b_width := w;
     b_height := h; b_weight := 5; b_quantity := q; b_color := "#888888" |}.

Definition samplePallet (w d h maxH : Q) : PalletConfig :=
  {| p_type := "custom"; p_width := w; p_depth := d; p_height := h;
     p_maxHeight := maxH |}.

(** A unit box under a clearance of 0.9999995: no whole layer fits, but
    with the tolerance [EPS] one does. *)
Definition tightBoxes : boxesArg := BArray [Some (sampleBox 1 1 1 1)].
Definition tightPallet : PalletConfig :=
  samplePallet 1 1 (11 # 2) (12999999 # 2000000).

(** A box as long as the deck is wide. *)
Definition fullWidthBoxes : boxesArg := BArray [Some (sampleBox 48 20 8 1)].
Definition standardPallet : PalletConfig := samplePallet 48 40 (11 # 2) 72.

(** Nine boxes of 5 x 3 on a deck of 13 x 10: the best layer holds eight,
    two columns of three unrotated boxes beside one column of two rotated
    ones, and the two blocks differ in depth. *)
Definition unevenBoxes : boxesArg := BArray [Some (sampleBox 5 3 1 9)].
Definition unevenPallet : PalletConfig := samplePallet 13 10 0 5.

Definition unevenPattern : LayerPattern :=
  {| kind := split_x;
     blocks := [ {| cols := 2; rows := 3; blk_fp := footprint0 (sampleBox 5 3 1 9) |};
                 {| cols := 1; rows := 2; blk_fp := footprint90 (sampleBox 5 3 1 9) |} ];
     usedWidth := inject_Z 2 * 5 + inject_Z 1 * 3;
     usedDepth := Qmax (inject_Z 3 * 3) (inject_Z 2 * 5);
     perLayer := 8;
     maxCols := 2;
     maxRows := 3 |}.

(** ** Tactics *)

(** Linear arithmetic on rationals with halves. *)
Ltac qhalves :=
  unfold Qdiv in *; change (/ 2)%Q with (1 # 2)%Q in *; lra.

(** ** Further named parts of [performCalc] *)

(** The pallet check at the head of [performCalc]. *)
Definition palletRejected (pallet : PalletConfig) : bool :=
  Qle_bool (p_width pallet) 0 || Qle_bool (p_depth pallet) 0
  || Qle_bool (p_maxHeight pallet) (p_height pallet).

(** What [performCalc] returns for a pallet that passed the check and the
    valid boxes [valid]. *)
Definition packValid (pallet : PalletConfig) (valid : list BoxType)
    : CalculationResult :=
  match valid with
  | [] => emptyResult "No valid boxes with dimensions defined"
  | v0 :: _ =>
      let totalQty := sumZ (b_quantity <$> valid) in
      match chooseBestLayerPattern (p_width pallet) (p_depth pallet)
              (footprint0 v0) (footprint90 v0) totalQty with
      | None => emptyResult "Box footprint does not fit on pallet area"
      | Some pattern =>
          if perLayer pattern =? 0
          then emptyResult "Box footprint does not fit on pallet area"
          else if layersMaxOf pallet (b_height v0) <=? 0
          then emptyResult "No vertical clearance for a single layer"
          else runResult pallet v0 totalQty pattern
      end
  end.

(** The targets of a run. *)
Definition targetsFor (pallet : PalletConfig) (v0 : BoxType) (totalQty : Z)
    (pattern : LayerPattern) : list Z :=
  let K := perLayer pattern in
  let layersMax := layersMaxOf pallet (b_height v0) in
  buildTargetsByFullLayers totalQty
    (Z.max 1 (ceilDiv totalQty (Z.max 1 (K * layersMax)))) K layersMax.

(** All placements of a result, pallet after pallet. *)
Definition allPlacements (r : CalculationResult) : list BoxPlacement :=
  concat (placements <$> pallets r).

(** The id of the box of a placement. *)
Definition placementId (bp : BoxPlacement) : string := b_id (bp_box bp).

(** The efficiency of a pallet with [count] boxes, as [performCalc] computes
    it. *)
Definition efficiencyOf (pallet : PalletConfig) (base : BoxType) (count : Z) : Q :=
  let usedVol := (inject_Z count * b_length base * b_width base * b_height base)%Q in
  let capVol :=
    (p_width pallet * p_depth pallet * (p_maxHeight pallet - p_height pallet))%Q in
  Qmin 100 (usedVol / Qmax capVol EPS * 100)%Q.

(** ** Geometry of a layer *)

(** The footprint of a cell lies in the rectangle with the front-left
    corner [(x0, z0)], the width [w] and the depth [d]. *)
Definition cellWithin (x0 z0 w d : Q) (c : Cell) : Prop :=
  (x0 <= cell_x c)%Q /\ (cell_x c + len (cell_fp c) <= x0 + w)%Q
  /\ (z0 <= cell_z c)%Q /\ (cell_z c + wid (cell_fp c) <= z0 + d)%Q.

(** The footprints of two cells share no inner point: one ends where the
    other begins, along [x] or along [z]. *)
Definition cellsApart (c1 c2 : Cell) : Prop :=
  (cell_x c1 + len (cell_fp c1) <= cell_x c2)%Q
  \/ (cell_x c2 + len (cell_fp c2) <= cell_x c1)%Q
  \/ (cell_z c1 + wid (cell_fp c1) <= cell_z c2)%Q
  \/ (cell_z c2 + wid (cell_fp c2) <= cell_z c1)%Q.

(** A layer of the pattern [p] on a deck of [W] by [D] for the footprints
    [a] and [b]: the used rectangle is no larger than the deck, every cell
    lies in the used rectangle centred on the deck, no two cells overlap and
    every cell has one of the two footprints. *)
Definition layerOk (W D : Q) (a b : Footprint) (p : LayerPattern) : Prop :=
  (0 <= usedWidth p <= W)%Q /\ (0 <= usedDepth p <= D)%Q
  /\ Forall (cellWithin ((W - usedWidth p) / 2) ((D - usedDepth p) / 2)
                        (usedWidth p) (usedDepth p))
            (materializeLayerCells p W D)
  /\ ForallOrdPairs cellsApart (materializeLayerCells p W D)
  /\ Forall (fun c => cell_fp c = a \/ cell_fp c = b) (materializeLayerCells p W D).

(** ** Placements as the views read them ([components/ThreeDVisualization.tsx]) *)

(** The extents of a placed box along [x] and [z]:
    [rotation === 90 ? box.width : box.length] and
    [rotation === 90 ? box.length : box.width]. *)
Definition extentX (bp : BoxPlacement) : Q :=
  if bp_rotation bp =? 90 then b_width (bp_box bp) else b_length (bp_box bp).
Definition extentZ (bp : BoxPlacement) : Q :=
  if bp_rotation bp =? 90 then b_length (bp_box bp) else b_width (bp_box bp).

(** Two placed boxes, with the extents that the views read, overlap by no
    more than [tol] along [x] or along [z]. *)
Definition placementsApart (tol : Q) (p1 p2 : BoxPlacement) : Prop :=
  (bp_x p1 + extentX p1 / 2 <= bp_x p2 - extentX p2 / 2 + tol)%Q
  \/ (bp_x p2 + extentX p2 / 2 <= bp_x p1 - extentX p1 / 2 + tol)%Q
  \/ (bp_z p1 + extentZ p1 / 2 <= bp_z p2 - extentZ p2 / 2 + tol)%Q
  \/ (bp_z p2 + extentZ p2 / 2 <= bp_z p1 - extentZ p1 / 2 + tol)%Q.

(** The placements [ps] are those of cells [cs] of the pattern's layer, no
    two of which overlap, in order. *)
Definition layerImage (base : BoxType) (pallet : PalletConfig)
    (pattern : LayerPattern) (li : Z) (ps : list BoxPlacement) : Prop :=
  exists cs,
    ForallOrdPairs cellsApart cs
    /\ (forall c, c ∈ cs ->
          c ∈ materializeLayerCells pattern (p_width pallet) (p_depth pallet))
    /\ Forall2 (fun c bp => exists n, bp = placeCell base pallet li c n) cs ps.

(** The entry of the map [layerH] at the key [i] once [addBoxesToScene] has
    run [layerH.set (p.layer, Math.max (layerH.get (p.layer) ?? 0,
    p.box.height))] over the placements: [None] while the key is absent. *)
Definition layerH (placements : list BoxPlacement) (i : Z) : option Q :=
  foldl (fun m p =>
           if bp_layer p =? i
           then Some (Qmax (default 0%Q m) (b_height (bp_box p)))
           else m)
        None placements.

(** The height [y] at which [addBoxesToScene] sets the mesh of the
    placement [p]: [let y = cfg.height], then
    [for (let i = 0; i < layer; i++) y += layerH.get (i) ?? 0] and
    [y += bh / 2]. *)
Definition meshY (cfg : PalletConfig) (placements : list BoxPlacement)
    (p : BoxPlacement) : Q :=
  let y := p_height cfg in
  let y := foldl (fun y i => (y + default 0 (layerH placements i))%Q) y
                 (upto (bp_layer p)) in
  (y + b_height (bp_box p) / 2)%Q.

(** ** The outcome of [performCalc] in closed form *)

(** The footprint [fp] fits a deck of [W] by [D]. *)
Definition fitsOn (W D : Q) (fp : Footprint) : bool :=
  Qle_bool (len fp) W && Qle_bool (wid fp) D.

(** The error, if any, that a pallet and the valid boxes lead to, by
    comparisons of the dimensions alone. *)
Definition expectedError (pallet : PalletConfig) (valid : list BoxType)
    : option string :=
  if palletRejected pallet then Some "Invalid pallet configuration"
  else
    match valid with
    | [] => Some "No valid boxes with dimensions defined"
    | v0 :: _ =>
        if negb (fitsOn (p_width pallet) (p_depth pallet) (footprint0 v0)
                 || fitsOn (p_width pallet) (p_depth pallet) (footprint90 v0))
        then Some "Box footprint does not fit on pallet area"
        else if Qle_bool (b_height v0) (p_maxHeight pallet - p_height pallet + EPS)
        then None
        else Some "No vertical clearance for a single layer"
    end.

(** ** Validation of the form ([lib/validation.ts]) *)

(** A value that reaches a validator where the types say [number] or
    [number | undefined]: a finite number, or one of the values that
    [isFiniteNum] rejects. *)
Inductive jsnum :=
  | Num (q : Q)
  | NaN
  | PosInf
  | NegInf
  | Undefined.

Definition isFiniteNum (n : jsnum) : bool :=
  match n with Num _ => true | _ => false end.

(** [n || 0] *)
Definition orZero (n : jsnum) : jsnum :=
  match n with
  | Num q => if Qeq_bool q 0 then Num 0 else Num q
  | NaN | Undefined => Num 0
  | PosInf => PosInf
  | NegInf => NegInf
  end.

(** [a <= b]; [undefined] compares as [NaN]. *)
Definition jsLe (a b : jsnum) : bool :=
  match a, b with
  | Num x, Num y => Qle_bool x y
  | (NaN | Undefined), _ | _, (NaN | Undefined) => false
  | NegInf, _ => true
  | _, PosInf => true
  | _, _ => false
  end.

(** [Math.max (a, b)]. *)
Definition jsMax (a b : jsnum) : jsnum :=
  match a, b with
  | (NaN | Undefined), _ | _, (NaN | Undefined) => NaN
  | PosInf, _ | _, PosInf => PosInf
  | NegInf, c | c, NegInf => c
  | Num x, Num y => Num (Qmax x y)
  end.

(** A value used as a condition. *)
Definition truthy (n : jsnum) : bool :=
  match n with
  | Num q => negb (Qeq_bool q 0)
  | NaN | Undefined => false
  | PosInf | NegInf => true
  end.

(** [Number.isInteger] on a finite number. *)
Definition isInteger (q : Q) : bool := Qeq_bool (inject_Z (Qfloor q)) q.

(** [toLowerCase] on the letters A to Z. *)
Definition lowerAscii (c : Ascii.ascii) : Ascii.ascii :=
  let n := Ascii.nat_of_ascii c in
  if ((65 <=? n) && (n <=? 90))%nat then Ascii.ascii_of_nat (n + 32) else c.

Fixpoint toLowerCase (s : string) : string :=
  match s with
  | EmptyString => EmptyString
  | String c s' => String (lowerAscii c) (toLowerCase s')
  end.

Record FieldValidationResult := {
  isValid : bool;
  fv_error : option string;
  fv_suggestion : option string
}.

Definition createFieldResult (isValid : bool) (error suggestion : option string)
    : FieldValidationResult :=
  {| isValid := isValid; fv_error := error; fv_suggestion := suggestion |}.

Definition boxMinDimIn : Q := 1 # 10.
Definition boxMaxDimIn : Q := 120.
Definition boxMaxWeightLbs : Q := 1500.
Definition boxMaxQuantity : Q := 100000.
Definition customPalletMinWidthIn : Q := 32.
Definition customPalletMinDepthIn : Q := 30.
Definition customPalletMinHeightIn : Q := 9 # 2.
Definition customPalletMaxHeightIn : Q := 7.
Definition customPalletMaxWeightLbs : Q := 70.
Definition overallMaxHeightIn : Q := 102.

(** The suggestion of the last branch is the limit as [toLocaleString]
    prints it, here in the en-US locale. *)
Definition validateQuantity (quantity : jsnum) : FieldValidationResult :=
  match quantity with
  | Num q =>
      if negb (isInteger q)
      then createFieldResult false (Some "Must be a whole number")
             (Some "Enter a whole number (no decimals)")
      else if Qle_bool q 0
      then createFieldResult false (Some "Must be greater than 0")
             (Some "Enter a positive number of boxes")
      else if Qltb boxMaxQuantity q
      then createFieldResult false (Some "Exceeds maximum limit")
             (Some "Maximum is 100,000")
      else createFieldResult true None None
  | _ => createFieldResult false (Some "Quantity is required")
           (Some "Enter a number greater than 0")
  end.

Definition validateBoxDimension (value : jsnum) (fieldName : string)
    : FieldValidationResult :=
  match value with
  | Num v =>
      if Qle_bool v boxMinDimIn
      then createFieldResult false (Some "Too small") (Some "Must be at least 0.1 inches")
      else if Qltb boxMaxDimIn v
      then createFieldResult false (Some "Too large") (Some "Cannot exceed 120 inches")
      else createFieldResult true None None
  | _ => createFieldResult false (Some (fieldName +:+ " is required"))
           (Some ("Enter the " +:+ toLowerCase fieldName +:+ " in inches"))
  end.

Definition validateBoxWeight (weight : jsnum) : FieldValidationResult :=
  match weight with
  | Num w =>
      if Qltb w 0
      then createFieldResult false (Some "Cannot be negative") (Some "Enter 0 or greater")
      else if Qltb boxMaxWeightLbs w
      then createFieldResult false (Some "Too heavy") (Some "Maximum is 1500 lbs")
      else createFieldResult true None None
  | _ => createFieldResult false (Some "Weight is required")
           (Some "Enter the weight in pounds")
  end.

Definition validatePalletDimension (value : jsnum) (fieldName : string)
    : FieldValidationResult :=
  match value with
  | Num _ => createFieldResult true None None
  | _ => createFieldResult false (Some (fieldName +:+ " is required"))
           (Some ("Enter the " +:+ toLowerCase fieldName +:+ " in inches"))
  end.

Definition validateMaxHeight (maxHeight boxHeight : jsnum) : FieldValidationResult :=
  match maxHeight with
  | Num m =>
      if Qltb overallMaxHeightIn m
      then createFieldResult false (Some "Exceeds carrier limit")
             (Some "Maximum is 102 inches")
      else if truthy boxHeight && jsLe maxHeight boxHeight
      then createFieldResult false (Some "Too low for box")
             (Some "Must be greater than box height for stacking")
      else createFieldResult true None None
  | _ => createFieldResult false (Some "Max height is required")
           (Some "Enter the total height limit")
  end.

Definition validateCustomPalletWidth (width : jsnum) : FieldValidationResult :=
  match width with
  | Num w =>
      if Qltb w customPalletMinWidthIn
      then createFieldResult false (Some "Too narrow") (Some "Minimum is 32 inches")
      else createFieldResult true None None
  | _ => createFieldResult false (Some "Width is required") (Some "Enter the pallet width")
  end.

Definition validateCustomPalletDepth (depth : jsnum) : FieldValidationResult :=
  match depth with
  | Num d =>
      if Qltb d customPalletMinDepthIn
      then createFieldResult false (Some "Too shallow") (Some "Minimum is 30 inches")
      else createFieldResult true None None
  | _ => createFieldResult false (Some "Depth is required") (Some "Enter the pallet depth")
  end.

Definition validateCustomPalletHeight (height : jsnum) : FieldValidationResult :=
  match height with
  | Num h =>
      if Qltb h customPalletMinHeightIn || Qltb customPalletMaxHeightIn h
      then createFieldResult false (Some "Out of range") (Some "Must be 4.5-7 inches")
      else createFieldResult true None None
  | _ => createFieldResult false (Some "Height is required")
           (Some "Enter the pallet deck height")
  end.

Definition validateCustomPalletWeight (weight : jsnum) : FieldValidationResult :=
  match weight with
  | Num w =>
      if Qle_bool w 0
      then createFieldResult false (Some "Weight is required")
             (Some "Enter the pallet weight")
      else if Qltb customPalletMaxWeightLbs w
      then createFieldResult false (Some "Too heavy") (Some "Maximum is 70 lbs")
      else createFieldResult true None None
  | _ => createFieldResult false (Some "Weight is required")
           (Some "Enter the pallet weight")
  end.

(** [BoxDimensions] and the [PalletConfig] of [lib/validation.ts]. *)
Record BoxDimensions := {
  bd_length : jsnum;
  bd_width : jsnum;
  bd_height : jsnum;
  bd_weight : jsnum;
  bd_quantity : jsnum
}.

Record ValidationPalletConfig := {
  vp_width : jsnum;
  vp_depth : jsnum;
  vp_height : jsnum;
  vp_maxHeight : jsnum
}.

Record Compatibility := {
  canFit : bool;
  hasVerticalSpace : bool;
  c_error : option string
}.

Definition validateBoxPalletCompatibility (box : BoxDimensions)
    (pallet : ValidationPalletConfig) : Compatibility :=
  match bd_height box, vp_height pallet, vp_maxHeight pallet with
  | Num boxHeight, Num palletHeight, Num maxHeight =>
      let usableHeight := (maxHeight - palletHeight)%Q in
      let hasVerticalSpace := Qle_bool boxHeight usableHeight in
      let fitsNormal :=
        jsLe (orZero (bd_length box)) (vp_width pallet)
        && jsLe (orZero (bd_width box)) (vp_depth pallet) in
      let fitsRotated :=
        jsLe (orZero (bd_width box)) (vp_width pallet)
        && jsLe (orZero (bd_length box)) (vp_depth pallet) in
      let canFit := fitsNormal || fitsRotated in
      {| canFit := canFit;
         hasVerticalSpace := hasVerticalSpace;
         c_error :=
           if negb hasVerticalSpace
           then Some "Box too tall for available stacking space"
           else if negb canFit then Some "Box footprint too large for pallet"
           else None |}
  | _, _, _ => {| canFit := true; hasVerticalSpace := true; c_error := None |}
  end.

Inductive Severity := sev_error | sev_warning.

(** A [ValidationError]; [validateForCalculation] sets no [suggestion], and
    reads [message] off the field result with [error!]. *)
Record ValidationError := {
  ve_field : string;
  ve_code : string;
  ve_message : option string;
  ve_severity : Severity
}.

Record ValidationResult := {
  vr_isValid : bool;
  vr_errors : list ValidationError;
  vr_warnings : list ValidationError
}.

(** [if (!result.isValid) errors.push ({ field, ... message: result.error! })] *)
Definition pushInvalid (field : string) (result : FieldValidationResult)
    (errors : list ValidationError) : list ValidationError :=
  if negb (isValid result)
  then errors ++ [ {| ve_field := field; ve_code := "INVALID";
                      ve_message := fv_error result; ve_severity := sev_error |} ]
  else errors.

(** A string used as a condition: the empty string is falsy. *)
Definition truthyString (s : option string) : bool :=
  match s with
  | Some EmptyString | None => false
  | Some _ => true
  end.

Definition validateForCalculation (box : BoxDimensions)
    (pallet : ValidationPalletConfig) (palletWeight : jsnum)
    (isCustomPallet : bool) : ValidationResult :=
  let errors := [] in
  let errors := pushInvalid "quantity" (validateQuantity (bd_quantity box)) errors in
  let errors := pushInvalid "length" (validateBoxDimension (bd_length box) "Length") errors in
  let errors := pushInvalid "width" (validateBoxDimension (bd_width box) "Width") errors in
  let errors := pushInvalid "height" (validateBoxDimension (bd_height box) "Height") errors in
  let errors := pushInvalid "weight" (validateBoxWeight (bd_weight box)) errors in
  let errors :=
    pushInvalid "palletWidth" (validatePalletDimension (vp_width pallet) "Width") errors in
  let errors :=
    pushInvalid "palletDepth" (validatePalletDimension (vp_depth pallet) "Depth") errors in
  let errors :=
    pushInvalid "palletHeight" (validatePalletDimension (vp_height pallet) "Height") errors in
  let largestBoxDim :=
    jsMax (jsMax (orZero (bd_length box)) (orZero (bd_width box)))
          (orZero (bd_height box)) in
  let errors :=
    pushInvalid "maxHeight" (validateMaxHeight (vp_maxHeight pallet) largestBoxDim) errors in
  let errors :=
    if isCustomPallet then
      let errors :=
        pushInvalid "customWidth" (validateCustomPalletWidth (vp_width pallet)) errors in
      let errors :=
        pushInvalid "customDepth" (validateCustomPalletDepth (vp_depth pallet)) errors in
      let errors :=
        pushInvalid "customHeight" (validateCustomPalletHeight (vp_height pallet)) errors in
      pushInvalid "customWeight" (validateCustomPalletWeight palletWeight) errors
    else errors in
  let compatibility := validateBoxPalletCompatibility box pallet in
  let errors :=
    if truthyString (c_error compatibility)
    then errors ++ [ {| ve_field := "compatibility"; ve_code := "INVALID";
                        ve_message := c_error compatibility;
                        ve_severity := sev_error |} ]
    else errors in
  {| vr_isValid := (length errors =? 0)%nat; vr_errors := errors; vr_warnings := [] |}.

(** ** The form check of the calculator page *)

(** The fields of a box and of a pallet of the page as the validators
    receive them.  The box and the pallet are those that the page hands to
    the engine: dimensions are finite numbers and the quantity is an
    integer, as the quantity input stores [Math.floor (n)].  A box with a
    missing field fails the validator of that field. *)
Definition dimsOf (b : BoxType) : BoxDimensions :=
  {| bd_length := Num (b_length b); bd_width := Num (b_width b);
     bd_height := Num (b_height b); bd_weight := Num (b_weight b);
     bd_quantity := Num (inject_Z (b_quantity b)) |}.

Definition palletDimsOf (p : PalletConfig) : ValidationPalletConfig :=
  {| vp_width := Num (p_width p); vp_depth := Num (p_depth p);
     vp_height := Num (p_height p); vp_maxHeight := Num (p_maxHeight p) |}.

(** [isFormValid] of the page for the first box [box = boxes[0]], which is
    [undefined] on an empty list. *)
Definition isFormValid (box : option BoxType) (palletConfig : PalletConfig)
    (palletWeight : jsnum) : bool :=
  match box with
  | None => false
  | Some b =>
      let isCustomPallet := String.eqb (p_type palletConfig) "custom" in
      let quantityValidation := validateQuantity (bd_quantity (dimsOf b)) in
      let lengthValidation := validateBoxDimension (bd_length (dimsOf b)) "Length" in
      let widthValidation := validateBoxDimension (bd_width (dimsOf b)) "Width" in
      let heightValidation := validateBoxDimension (bd_height (dimsOf b)) "Height" in
      let weightValidation := validateBoxWeight (bd_weight (dimsOf b)) in
      let maxHeightValidation :=
        validateMaxHeight (Num (p_maxHeight palletConfig)) (bd_height (dimsOf b)) in
      let customWidthValidation := validateCustomPalletWidth (Num (p_width palletConfig)) in
      let customDepthValidation := validateCustomPalletDepth (Num (p_depth palletConfig)) in
      let customHeightValidation :=
        validateCustomPalletHeight (Num (p_height palletConfig)) in
      let customWeightValidation := validateCustomPalletWeight palletWeight in
      let compatibility :=
        validateBoxPalletCompatibility (dimsOf b) (palletDimsOf palletConfig) in
      let boxValid :=
        isValid quantityValidation && isValid lengthValidation
        && isValid widthValidation && isValid heightValidation
        && isValid weightValidation in
      let palletValid := isValid maxHeightValidation in
      let customValid :=
        negb isCustomPallet
        || (isValid customWidthValidation && isValid customDepthValidation
            && isValid customHeightValidation && isValid customWeightValidation) in
      let compatibilityValid := negb (truthyString (c_error compatibility)) in
      boxValid && palletValid && customValid && compatibilityValid
  end.

(** A field result is coherent: valid without a message, or invalid with a
    message that is not empty. *)
Definition fieldResultOk (r : FieldValidationResult) : Prop :=
  if isValid r then fv_error r = None
  else exists m, fv_error r = Some m /\ m <> EmptyString.

(** ** Further sample inputs *)

(** A hundred boxes of 5 x 3 x 1 on the deck of 13 x 10 under a clearance
    of 5: eight to a layer, five layers to a pallet, three pallets. *)
Definition manyBoxes : boxesArg := BArray [Some (sampleBox 5 3 1 100)].

(** A box and pallet that pass the form. *)
Definition formBox : BoxType := sampleBox 12 10 8 40.
Definition formPallet : PalletConfig :=
  {| p_type := "48x40"; p_width := 48; p_depth := 40; p_height := 11 # 2;
     p_maxHeight := 72 |}.

(** ** Tactics *)

(** Coherence of a field result, case by case. *)
Ltac field_ok :=
  unfold fieldResultOk, createFieldResult; cbn [isValid fv_error];
  repeat match goal with
         | |- context [if ?c then _ else _] =>
             lazymatch c with
             | context [if _ then _ else _] => fail
             | _ => destruct c; cbn [isValid fv_error]
             end
         end;
  try reflexivity;
  try (eexists; split; [reflexivity|];
       first [discriminate
             | match goal with
               | |- ?s +:+ _ <> _ => destruct s; cbn; discriminate
               end]).

(** ** The pattern search on a deck that need not be finite *)

(** The engine reads [pallet.width] and [pallet.depth] as they come: its
    guard compares them with [<=] and the builders divide them.  This
    section repeats the guard, [buildGridPattern] and the two sweeps over
    [jsnum], so that the deck may be [NaN] or an infinity.  A finite result
    is exact, the sign of zero is not kept, and [undefined] converts to
    [NaN]; the footprints come from a valid box and are finite.

    A sweep takes fuel: one unit for each test of the loop condition.
    [None] says that the loop has not exited when the fuel is spent; a
    sweep that gives [None] for every fuel never returns.  The limits of
    the engine on the length of [res] and on the heap are not modelled. *)

Definition jsNeg (a : jsnum) : jsnum :=
  match a with
  | Num x => Num (- x)
  | PosInf => NegInf
  | NegInf => PosInf
  | NaN | Undefined => NaN
  end.

(** An infinity times a finite number. *)
Definition jsInfTimes (inf : jsnum) (x : Q) : jsnum :=
  match (x ?= 0)%Q with
  | Eq => NaN
  | Gt => inf
  | Lt => jsNeg inf
  end.

Definition jsMul (a b : jsnum) : jsnum :=
  match a, b with
  | Num x, Num y => Num (x * y)
  | (NaN | Undefined), _ | _, (NaN | Undefined) => NaN
  | Num x, inf => jsInfTimes inf x
  | inf, Num y => jsInfTimes inf y
  | PosInf, PosInf | NegInf, NegInf => PosInf
  | PosInf, NegInf | NegInf, PosInf => NegInf
  end.

Definition jsAdd (a b : jsnum) : jsnum :=
  match a, b with
  | Num x, Num y => Num (x + y)
  | (NaN | Undefined), _ | _, (NaN | Undefined) => NaN
  | PosInf, NegInf | NegInf, PosInf => NaN
  | PosInf, _ | _, PosInf => PosInf
  | NegInf, _ | _, NegInf => NegInf
  end.

Definition jsSub (a b : jsnum) : jsnum := jsAdd a (jsNeg b).

Definition jsDiv (a b : jsnum) : jsnum :=
  match a, b with
  | Num x, Num y =>
      if Qeq_bool y 0
      then match (x ?= 0)%Q with Eq => NaN | Gt => PosInf | Lt => NegInf end
      else Num (x / y)
  | (NaN | Undefined), _ | _, (NaN | Undefined) => NaN
  | Num _, (PosInf | NegInf) => Num 0
  | inf, Num y => if Qle_bool 0 y then inf else jsNeg inf
  | _, _ => NaN
  end.

(** [Math.floor] *)
Definition jsFloor (a : jsnum) : jsnum :=
  match a with
  | Num x => Num (inject_Z (Qfloor x))
  | Undefined => NaN
  | _ => a
  end.

(** [a < b] *)
Definition jsLt (a b : jsnum) : bool :=
  match a, b with
  | Num x, Num y => Qltb x y
  | (NaN | Undefined), _ | _, (NaN | Undefined) => false
  | NegInf, (Num _ | PosInf) => true
  | Num _, PosInf => true
  | _, _ => false
  end.

(** A pallet whose dimensions need not be finite. *)
Record PalletConfigJs := {
  pj_width : jsnum;
  pj_depth : jsnum;
  pj_height : jsnum;
  pj_maxHeight : jsnum
}.

(** The guard at the head of [performCalc]:
    [!pallet || pallet.width <= 0 || pallet.depth <= 0
     || pallet.maxHeight <= pallet.height]. *)
Definition palletRejectedJs (pallet : option PalletConfigJs) : bool :=
  match pallet with
  | None => true
  | Some p =>
      jsLe (pj_width p) (Num 0) || jsLe (pj_depth p) (Num 0)
      || jsLe (pj_maxHeight p) (pj_height p)
  end.

Record LayerBlockJs := { js_cols : jsnum; js_rows : jsnum; js_fp : Footprint }.

Record LayerPatternJs := {
  js_kind : PatternKind;
  js_blocks : list LayerBlockJs;
  js_usedWidth : jsnum;
  js_usedDepth : jsnum;
  js_perLayer : jsnum;
  js_maxCols : jsnum;
  js_maxRows : jsnum
}.

Definition buildGridPatternJs (width depth : jsnum) (fp : Footprint)
    : LayerPatternJs :=
  let cols := jsFloor (jsDiv width (Num (len fp))) in
  let rows := jsFloor (jsDiv depth (Num (wid fp))) in
  {| js_kind := grid;
     js_blocks := [ {| js_cols := cols; js_rows := rows; js_fp := fp |} ];
     js_usedWidth := jsMul cols (Num (len fp));
     js_usedDepth := jsMul rows (Num (wid fp));
     js_perLayer := jsMul (jsMax (Num 0) cols) (jsMax (Num 0) rows);
     js_maxCols := cols;
     js_maxRows := rows |}.

(** [for (let cLeft = 1; cLeft <= maxLeftCols; cLeft++)] from the counter
    [cLeft] on, with [res] as pushed so far.  The counter is an integer;
    that a counter of the engine stops growing at 2^53 is not modelled. *)
Fixpoint splitXSweep (fuel : nat) (width depth : jsnum) (left right : Footprint)
    (maxLeftCols : jsnum) (cLeft : Z) (res : list LayerPatternJs)
    : option (list LayerPatternJs) :=
  match fuel with
  | O => None
  | S fuel' =>
      if jsLe (Num (inject_Z cLeft)) maxLeftCols then
        let remainingW :=
          jsSub width (jsMul (Num (inject_Z cLeft)) (Num (len left))) in
        if jsLt remainingW (Num 0) then Some res
        else
          let cRight := jsFloor (jsDiv remainingW (Num (len right))) in
          let rowsLeft := jsFloor (jsDiv depth (Num (wid left))) in
          let rowsRight := jsFloor (jsDiv depth (Num (wid right))) in
          let pattern :=
            {| js_kind := split_x;
               js_blocks :=
                 [ {| js_cols := Num (inject_Z cLeft); js_rows := rowsLeft;
                      js_fp := left |};
                   {| js_cols := cRight; js_rows := rowsRight; js_fp := right |} ];
               js_usedWidth :=
                 jsAdd (jsMul (Num (inject_Z cLeft)) (Num (len left)))
                       (jsMul cRight (Num (len right)));
               js_usedDepth :=
                 jsMax (jsMul rowsLeft (Num (wid left)))
                       (jsMul rowsRight (Num (wid right)));
               js_perLayer :=
                 jsAdd (jsMul (Num (inject_Z cLeft)) rowsLeft)
                       (jsMul cRight rowsRight);
               js_maxCols := jsMax (Num (inject_Z cLeft)) cRight;
               js_maxRows := jsMax rowsLeft rowsRight |} in
          splitXSweep fuel' width depth left right maxLeftCols (cLeft + 1)
                      (res ++ [pattern])
      else Some res
  end.

Definition buildSplitXPatternsJs (fuel : nat) (width depth : jsnum)
    (left right : Footprint) : option (list LayerPatternJs) :=
  let maxLeftCols := jsFloor (jsDiv width (Num (len left))) in
  splitXSweep fuel width depth left right maxLeftCols 1 [].

(** [for (let rFront = 1; rFront <= maxFrontRows; rFront++)] *)
Fixpoint splitZSweep (fuel : nat) (width depth : jsnum) (front back : Footprint)
    (maxFrontRows : jsnum) (rFront : Z) (res : list LayerPatternJs)
    : option (list LayerPatternJs) :=
  match fuel with
  | O => None
  | S fuel' =>
      if jsLe (Num (inject_Z rFront)) maxFrontRows then
        let remainingD :=
          jsSub depth (jsMul (Num (inject_Z rFront)) (Num (wid front))) in
        if jsLt remainingD (Num 0) then Some res
        else
          let rBack := jsFloor (jsDiv remainingD (Num (wid back))) in
          let colsFront := jsFloor (jsDiv width (Num (len front))) in
          let colsBack := jsFloor (jsDiv width (Num (len back))) in
          let pattern :=
            {| js_kind := split_z;
               js_blocks :=
                 [ {| js_cols := colsFront; js_rows := Num (inject_Z rFront);
                      js_fp := front |};
                   {| js_cols := colsBack; js_rows := rBack; js_fp := back |} ];
               js_usedWidth :=
                 jsMax (jsMul colsFront (Num (len front)))
                       (jsMul colsBack (Num (len back)));
               js_usedDepth :=
                 jsAdd (jsMul (Num (inject_Z rFront)) (Num (wid front)))
                       (jsMul rBack (Num (wid back)));
               js_perLayer :=
                 jsAdd (jsMul (Num (inject_Z rFront)) colsFront)
                       (jsMul rBack colsBack);
               js_maxCols := jsMax colsFront colsBack;
               js_maxRows := jsMax (Num (inject_Z rFront)) rBack |} in
          splitZSweep fuel' width depth front back maxFrontRows (rFront + 1)
                      (res ++ [pattern])
      else Some res
  end.

Definition buildSplitZPatternsJs (fuel : nat) (width depth : jsnum)
    (front back : Footprint) : option (list LayerPatternJs) :=
  let maxFrontRows := jsFloor (jsDiv depth (Num (wid front))) in
  splitZSweep fuel width depth front back maxFrontRows 1 [].

(** The candidates of [chooseBestLayerPattern], pushed in its order: the
    list is complete only when each of the four sweeps has returned. *)
Definition candidatePatternsJs (fuel : nat) (width depth : jsnum)
    (a b : Footprint) : option (list LayerPatternJs) :=
  let candidates :=
    [buildGridPatternJs width depth a; buildGridPatternJs width depth b] in
  match buildSplitXPatternsJs fuel width depth a b with
  | None => None
  | Some xs1 =>
      let candidates := candidates ++ xs1 in
      match buildSplitXPatternsJs fuel width depth b a with
      | None => None
      | Some xs2 =>
          let candidates := candidates ++ xs2 in
          match buildSplitZPatternsJs fuel width depth a b with
          | None => None
          | Some zs1 =>
              let candidates := candidates ++ zs1 in
              match buildSplitZPatternsJs fuel width depth b a with
              | None => None
              | Some zs2 => Some (candidates ++ zs2)
              end
          end
      end
  end.

(** A pallet of infinite width with the other dimensions of the standard
    pallet. *)
Definition infinitePallet : PalletConfigJs :=
  {| pj_width := PosInf; pj_depth := Num 40; pj_height := Num (11 # 2);
     pj_maxHeight := Num 72 |}.
(** * Proofs *)

(** ** Sample runs *)

Example buildTargets_100 : buildTargetsByFullLayers 100 1 16 8 = [100].
Proof. reflexivity. Qed.

Example buildTargets_two : buildTargetsByFullLayers 37 3 4 4 = [12; 12; 13].
Proof. reflexivity. Qed.

Example unevenPattern_selected :
  chooseBestLayerPattern 13 10 (footprint0 (sampleBox 5 3 1 9))
    (footprint90 (sampleBox 5 3 1 9)) 9 = Some unevenPattern.
Proof. vm_compute. reflexivity. Qed.

(** Scenario A of the specification: 100 boxes of 12 x 10 x 8 on a deck of
    48 x 40 with 66.5 of clearance: one pallet with all 100 boxes. *)
Example scenarioA :
  match performCalc (BArray [Some (sampleBox 12 10 8 100)]) (Some standardPallet) with
  | Normal r => (error r, pr_totalBoxes <$> pallets r)
  | Throw _ => (None, [])
  end = (None, [100]).
Proof. vm_compute. reflexivity. Qed.

(** Scenario B: [maxHeight <= deckHeight]. *)
Example scenarioB :
  performCalc (BArray [Some (sampleBox 12 10 8 100)])
              (Some (samplePallet 48 40 60 60))
  = Normal (emptyResult "Invalid pallet configuration").
Proof. reflexivity. Qed.

(** Scenario C: a box larger than the deck. *)
Example scenarioC :
  performCalc (BArray [Some (sampleBox 200 200 200 1)]) (Some standardPallet)
  = Normal (emptyResult "Box footprint does not fit on pallet area").
Proof. vm_compute. reflexivity. Qed.

(** Scenario D: a quantity of exactly one layer, here 16, gives one pallet
    with one layer. *)
Example scenarioD :
  match performCalc (BArray [Some (sampleBox 12 10 8 16)]) (Some standardPallet) with
  | Normal r =>
      (error r, (fun p => (pr_totalBoxes p, layers p, boxesPerLayer p)) <$> pallets r)
  | Throw _ => (None, [])
  end = (None, [(16, 1, 16)]).
Proof. vm_compute. reflexivity. Qed.

(** A [boxes] argument that is no array makes [performCalc] throw, and the
    entry point resolve with the catch-all error. *)
Example notArray_throws :
  exists e, performCalc BNotArray (Some standardPallet) = Throw e.
Proof. eexists. reflexivity. Qed.

Example notArray_resolves :
  calculateMultiPalletLayout BNotArray (Some standardPallet) "auto"
  = Resolved (emptyResult "Calculation failed").
Proof. reflexivity. Qed.

(** ** Sums and indexed updates *)

Lemma foldl_add_acc (a : Z) (l : list Z) : foldl Z.add a l = a + sumZ l.
Proof.
  unfold sumZ. revert a.
  induction l as [|x l IH]; intros a; simpl; [lia|].
  rewrite (IH (a + x)), (IH (0 + x)). lia.
Qed.

Lemma sumZ_cons (x : Z) (l : list Z) : sumZ (x :: l) = x + sumZ l.
Proof. unfold sumZ at 1. simpl. rewrite foldl_add_acc. lia. Qed.

Lemma sumZ_app (l1 l2 : list Z) : sumZ (l1 ++ l2) = sumZ l1 + sumZ l2.
Proof.
  induction l1 as [|x l1 IH]; simpl; [reflexivity|].
  rewrite !sumZ_cons, IH. lia.
Qed.

Lemma sumZ_alter (f : Z -> Z) (l : list Z) (i : nat) (x : Z) :
  l !! i = Some x -> sumZ (alter f i l) = sumZ l + (f x - x).
Proof.
  revert i. induction l as [|y l IH]; intros [|i] Hi; simplify_eq/=.
  - rewrite !sumZ_cons. lia.
  - rewrite !sumZ_cons, (IH i Hi). lia.
Qed.

Lemma sumZ_scale (K : Z) (l : list Z) :
  sumZ ((fun v => v * K) <$> l) = sumZ l * K.
Proof.
  induction l as [|x l IH]; [reflexivity|].
  rewrite fmap_cons, !sumZ_cons, IH. lia.
Qed.

(** The sum of [base + 1] on the first [extra] of [n] entries and [base] on
    the others. *)
Lemma sumZ_even_spread (base extra : Z) (n : nat) :
  0 <= extra ->
  sumZ ((fun i : nat => base + (if Z.of_nat i <? extra then 1 else 0)) <$> seq 0 n)
  = Z.of_nat n * base + Z.min (Z.of_nat n) extra.
Proof.
  intros Hextra. induction n as [|n IH]; [unfold sumZ; simpl; lia|].
  rewrite seq_S, fmap_app, sumZ_app, IH. simpl.
  rewrite sumZ_cons. change (sumZ []) with 0.
  destruct (Z.ltb_spec (Z.of_nat n) extra); lia.
Qed.

(** ** Target distribution *)

Lemma length_spreadExtraLayers (L : Z) (n : nat) :
  forall i ls extra, length (spreadExtraLayers L n i ls extra) = length ls.
Proof.
  induction n as [|n IH]; intros i ls extra; simpl; [reflexivity|].
  destruct (0 <? extra); rewrite IH, !length_alter; reflexivity.
Qed.

(** Closed form of the first loop: entries below the counter are final, the
    entry [j] at or above it receives one extra layer when fewer than
    [extra] entries precede it from the counter on, and is then clamped. *)
Lemma spreadExtraLayers_lookup (L : Z) (n : nat) :
  forall (i : nat) (ls : list Z) (extra : Z) (j : nat),
    (j < i + n)%nat ->
    spreadExtraLayers L n i ls extra !! j =
      if decide (j < i)%nat then ls !! j
      else (fun v => Z.min (v + (if Z.of_nat (j - i) <? extra then 1 else 0)) L)
             <$> ls !! j.
Proof.
  induction n as [|n IH]; intros i ls extra j Hj; simpl.
  - destruct (decide (j < i)%nat); [reflexivity | lia].
  - destruct (Z.ltb_spec 0 extra) as [Hpos|Hnpos].
    + rewrite IH by lia.
      destruct (decide (j < S i)%nat) as [Hlt|Hge].
      * destruct (decide (j < i)%nat) as [Hlt'|Hge'].
        -- rewrite !list_lookup_alter_ne by lia. reflexivity.
        -- assert (j = i) as -> by lia.
           rewrite !list_lookup_alter_eq.
           replace (i - i)%nat with 0%nat by lia.
           destruct (Z.ltb_spec (Z.of_nat 0) extra); [|lia].
           destruct (ls !! i); simpl; [f_equal; lia | reflexivity].
      * destruct (decide (j < i)%nat); [lia|].
        rewrite !list_lookup_alter_ne by lia.
        destruct (ls !! j); simpl; [|reflexivity]. f_equal.
        destruct (Z.ltb_spec (Z.of_nat (j - S i)) (extra - 1));
          destruct (Z.ltb_spec (Z.of_nat (j - i)) extra); lia.
    + rewrite IH by lia.
      destruct (decide (j < S i)%nat) as [Hlt|Hge].
      * destruct (decide (j < i)%nat) as [Hlt'|Hge'].
        -- rewrite !list_lookup_alter_ne by lia. reflexivity.
        -- assert (j = i) as -> by lia.
           rewrite !list_lookup_alter_eq.
           replace (i - i)%nat with 0%nat by lia.
           destruct (Z.ltb_spec (Z.of_nat 0) extra); [lia|].
           destruct (ls !! i); simpl; [f_equal; lia | reflexivity].
      * destruct (decide (j < i)%nat); [lia|].
        rewrite !list_lookup_alter_ne by lia.
        destruct (ls !! j); simpl; [|reflexivity]. f_equal.
        destruct (Z.ltb_spec (Z.of_nat (j - S i)) extra);
          destruct (Z.ltb_spec (Z.of_nat (j - i)) extra); lia.
Qed.

Lemma remainderOnLast_hit (L rem : Z) (layersPerPallet : list Z) (i : nat)
    (counts : list Z) (l : Z) :
  layersPerPallet !! i = Some l -> l < L ->
  remainderOnLast L rem layersPerPallet (S i) counts
  = (alter (fun c => c + rem) i counts, 0).
Proof.
  intros Hi Hl. simpl. rewrite Hi.
  destruct (Z.ltb_spec l L); [reflexivity | lia].
Qed.

Lemma spreadLeftover_done (K : Z) (k : nat) (counts : list Z) :
  spreadLeftover K k counts 0 = (counts, 0).
Proof. destruct k; reflexivity. Qed.

Lemma spreadLeftover_done_nonpos (K : Z) (k : nat) (counts : list Z) (rem : Z) :
  rem <= 0 -> spreadLeftover K k counts rem = (counts, rem).
Proof.
  intros Hrem. destruct k; simpl; [reflexivity|].
  destruct (Z.ltb_spec 0 rem); [lia | reflexivity].
Qed.

Lemma spreadExtraLayers_even (Q P K L : Z) :
  0 <= Q -> 0 < K -> 0 < P ->
  spreadExtraLayers L (Z.to_nat P) 0 (replicate (Z.to_nat P) (Q / K / P))
                    (Z.rem (Q / K) P)
  = evenLayers Q P K L <$> seq 0 (Z.to_nat P).
Proof.
  intros HQ HK HP.
  assert (0 <= Q / K) as HT by (apply Z.div_pos; lia).
  rewrite Z.rem_mod_nonneg by lia.
  apply list_eq. intros j.
  destruct (decide (j < Z.to_nat P)%nat) as [Hj|Hj].
  - rewrite spreadExtraLayers_lookup by lia.
    destruct (decide (j < 0)%nat); [lia|].
    rewrite lookup_replicate_2 by lia.
    rewrite list_lookup_fmap, lookup_seq_lt by lia. simpl.
    unfold evenLayers. replace (j - 0)%nat with j by lia. reflexivity.
  - rewrite !lookup_ge_None_2; [reflexivity|..];
      rewrite ?length_fmap, ?length_seq, ?length_spreadExtraLayers,
        ?length_replicate; lia.
Qed.

Lemma alter_as_insert {A} (f : A -> A) (l : list A) (i : nat) (x : A) :
  l !! i = Some x -> alter f i l = <[i := f x]> l.
Proof.
  intros Hi. apply list_eq. intros j.
  destruct (decide (i = j)) as [->|Hne].
  - rewrite list_lookup_alter_eq, Hi, list_lookup_insert_eq;
      [reflexivity | eapply lookup_lt_Some; eassumption].
  - rewrite list_lookup_alter_ne, list_lookup_insert_ne by assumption.
    reflexivity.
Qed.

Section TargetFacts.
Variables Q P K L : Z.
Hypothesis HQ : 1 <= Q.
Hypothesis HP : 1 <= P.
Hypothesis HK : 1 <= K.
Hypothesis HL : 1 <= L.
Hypothesis Hcap : Q <= P * K * L.

Let T := Q / K.
Let n := Z.to_nat P.

Lemma fullLayers_fit : 0 <= T /\ T <= P * L /\ Q = K * T + Q mod K.
Proof using All.
  unfold T. pose proof (Z.div_mod Q K ltac:(lia)) as Hdm.
  pose proof (Z.mod_pos_bound Q K ltac:(lia)) as Hm.
  assert (0 <= Q / K) by (apply Z.div_pos; lia).
  repeat split; [lia | nia | lia].
Qed.

(** No clamping takes place: every pallet has its even share. *)
Lemma evenLayers_unclamped (i : nat) :
  evenLayers Q P K L i = T / P + (if Z.of_nat i <? T mod P then 1 else 0).
Proof using All.
  unfold evenLayers. fold T.
  destruct fullLayers_fit as (HT0 & HTL & _).
  pose proof (Z.div_mod T P ltac:(lia)) as Hdm.
  pose proof (Z.mod_pos_bound T P ltac:(lia)) as Hm.
  destruct (Z.ltb_spec (Z.of_nat i) (T mod P)); nia.
Qed.

Lemma evenLayers_le (i : nat) : 0 <= evenLayers Q P K L i <= L.
Proof using All.
  rewrite evenLayers_unclamped.
  destruct fullLayers_fit as (HT0 & HTL & _).
  pose proof (Z.div_mod T P ltac:(lia)) as Hdm.
  pose proof (Z.mod_pos_bound T P ltac:(lia)) as Hm.
  assert (0 <= T / P) by (apply Z.div_pos; lia).
  destruct (Z.ltb_spec (Z.of_nat i) (T mod P)); nia.
Qed.

Lemma sumZ_evenLayers : sumZ (evenLayers Q P K L <$> seq 0 n) = T.
Proof using All.
  destruct fullLayers_fit as (HT0 & HTL & _).
  pose proof (Z.div_mod T P ltac:(lia)) as Hdm.
  pose proof (Z.mod_pos_bound T P ltac:(lia)) as Hm.
  rewrite (list_fmap_ext (evenLayers Q P K L)
             (fun i : nat => T / P + (if Z.of_nat i <? T mod P then 1 else 0)))
    by (intros; apply evenLayers_unclamped).
  rewrite sumZ_even_spread by lia. unfold n. lia.
Qed.

(** With a remainder to place, the last pallet has a spare layer. *)
Lemma last_pallet_spare :
  0 < Q mod K ->
  (evenLayers Q P K L <$> seq 0 n) !! (n - 1)%nat = Some (T / P) /\ T / P < L.
Proof using All.
  intros Hrem.
  destruct fullLayers_fit as (HT0 & HTL & HQeq).
  pose proof (Z.div_mod T P ltac:(lia)) as Hdm.
  pose proof (Z.mod_pos_bound T P ltac:(lia)) as Hm.
  assert (0 <= T / P) by (apply Z.div_pos; lia).
  assert (T < P * L) as HTlt by nia.
  split; [|apply Z.div_lt_upper_bound; lia].
  rewrite list_lookup_fmap, lookup_seq_lt by (unfold n; lia). simpl.
  rewrite evenLayers_unclamped.
  destruct (Z.ltb_spec (Z.of_nat (n - 1)) (T mod P)); [unfold n in *; lia|].
  f_equal. lia.
Qed.
End TargetFacts.

(** What [buildTargetsByFullLayers] returns when the pallets can hold the
    quantity: the even layer shares times [K], with the remainder added at
    the last index. *)
Lemma buildTargetsByFullLayers_eq (Q P K L : Z) :
  1 <= Q -> 1 <= P -> 1 <= K -> 1 <= L -> Q <= P * K * L ->
  buildTargetsByFullLayers Q P K L =
    let counts := (fun l => l * K) <$> (evenLayers Q P K L <$> seq 0 (Z.to_nat P)) in
    if 0 <? Q mod K
    then <[(Z.to_nat P - 1)%nat := Q / K / P * K + Q mod K]> counts
    else counts.
Proof.
  intros HQ HP HK HL Hcap.
  destruct (fullLayers_fit Q P K L HQ HP HK HL Hcap) as (HT0 & HTL & HQeq).
  pose proof (Z.mod_pos_bound Q K ltac:(lia)) as Hm.
  pose proof (sumZ_evenLayers Q P K L HQ HP HK HL Hcap) as Hsum.
  unfold buildTargetsByFullLayers.
  rewrite spreadExtraLayers_even by lia.
  rewrite (Z.rem_mod_nonneg Q K) by lia.
  cbv zeta.
  destruct (Z.ltb_spec 0 (Q mod K)) as [Hrem|Hrem].
  - destruct (last_pallet_spare Q P K L HQ HP HK HL Hcap Hrem) as (Hlast & Hlt).
    destruct (Z.to_nat P) as [|m] eqn:Hn; [lia|].
    replace (S m - 1)%nat with m in * by lia.
    rewrite (remainderOnLast_hit _ _ _ m _ _ Hlast Hlt).
    rewrite spreadLeftover_done.
    assert (((fun l => l * K) <$> (evenLayers Q P K L <$> seq 0 (S m))) !! m
            = Some (Q / K / P * K)) as Hc
      by (rewrite list_lookup_fmap, Hlast; reflexivity).
    rewrite (sumZ_alter _ _ _ _ Hc), sumZ_scale, Hsum.
    destruct (Z.eqb_spec (Q - (Q / K * K + (Q / K / P * K + Q mod K - Q / K / P * K))) 0);
      [|lia].
    rewrite (alter_as_insert _ _ _ _ Hc). reflexivity.
  - rewrite spreadLeftover_done_nonpos by lia.
    rewrite sumZ_scale, Hsum.
    destruct (Z.eqb_spec (Q - Q / K * K) 0); [reflexivity|lia].
Qed.

(** The targets are as many as the pallets, add up to the quantity, and
    each lies between 0 and the capacity of a pallet. *)
Lemma buildTargetsByFullLayers_facts (Q P K L : Z) :
  1 <= Q -> 1 <= P -> 1 <= K -> 1 <= L -> Q <= P * K * L ->
  length (buildTargetsByFullLayers Q P K L) = Z.to_nat P
  /\ sumZ (buildTargetsByFullLayers Q P K L) = Q
  /\ Forall (fun t => 0 <= t <= K * L) (buildTargetsByFullLayers Q P K L).
Proof.
  intros HQ HP HK HL Hcap.
  destruct (fullLayers_fit Q P K L HQ HP HK HL Hcap) as (HT0 & HTL & HQeq).
  pose proof (Z.mod_pos_bound Q K ltac:(lia)) as Hm.
  pose proof (sumZ_evenLayers Q P K L HQ HP HK HL Hcap) as Hsum.
  set (layersOf := evenLayers Q P K L <$> seq 0 (Z.to_nat P)) in *.
  assert (length layersOf = Z.to_nat P) as Hlen
    by (unfold layersOf; rewrite length_fmap, length_seq; reflexivity).
  assert (Forall (fun t => 0 <= t <= K * L) ((fun l => l * K) <$> layersOf)) as Hall.
  { apply Forall_fmap, Forall_fmap, Forall_forall. intros i _. simpl.
    pose proof (evenLayers_le Q P K L HQ HP HK HL Hcap i). nia. }
  rewrite buildTargetsByFullLayers_eq by assumption.
  cbv zeta. fold layersOf.
  destruct (Z.ltb_spec 0 (Q mod K)) as [Hrem|Hrem].
  - destruct (last_pallet_spare Q P K L HQ HP HK HL Hcap Hrem) as (Hlast & Hlt).
    fold layersOf in Hlast.
    assert (((fun l => l * K) <$> layersOf) !! (Z.to_nat P - 1)%nat
            = Some (Q / K / P * K)) as Hc
      by (rewrite list_lookup_fmap, Hlast; reflexivity).
    split; [rewrite length_insert, length_fmap; exact Hlen|].
    split.
    + rewrite <- (alter_as_insert (fun _ => Q / K / P * K + Q mod K) _ _ _ Hc).
      rewrite (sumZ_alter _ _ _ _ Hc), sumZ_scale, Hsum. lia.
    + apply Forall_insert; [exact Hall|].
      assert (0 <= Q / K / P) by (apply Z.div_pos; lia).
      assert (Q / K / P * K <= (L - 1) * K) by nia.
      split; [nia | lia].
  - split; [rewrite length_fmap; exact Hlen|].
    split; [rewrite sumZ_scale, Hsum; lia | exact Hall].
Qed.

(** C3.  For [Q >= 1], [P >= 1], [K >= 1], [L >= 1] and [Q <= P * K * L],
    [buildTargetsByFullLayers] returns exactly [P] targets whose sum is [Q],
    each between 0 and [K * L]; the full layers are spread evenly
    ([evenLayers]: the floor share, one more on the first pallets, clamped
    to [L]) and the remainder [Q mod K] is added, whole, to the last pallet
    whose layer count is below [L]. *)
Theorem buildTargetsByFullLayers_spec (Q P K L : Z) :
  1 <= Q -> 1 <= P -> 1 <= K -> 1 <= L -> Q <= P * K * L ->
  let targets := buildTargetsByFullLayers Q P K L in
  let layersOf := evenLayers Q P K L <$> seq 0 (Z.to_nat P) in
  length targets = Z.to_nat P
  /\ sumZ targets = Q
  /\ Forall (fun t => 0 <= t <= K * L) targets
  /\ ((Q mod K = 0 /\ targets = (fun l => l * K) <$> layersOf)
      \/ (0 < Q mod K
          /\ exists (j : nat) (lj : Z),
               layersOf !! j = Some lj
               /\ lj < L
               /\ (forall (j' : nat) (l' : Z),
                      (j < j')%nat -> layersOf !! j' = Some l' -> L <= l')
               /\ targets = <[j := lj * K + Q mod K]> ((fun l => l * K) <$> layersOf))).
Proof.
  intros HQ HP HK HL Hcap targets layersOf.
  destruct (buildTargetsByFullLayers_facts Q P K L HQ HP HK HL Hcap)
    as (Hlen & Hsum & Hall).
  do 3 (split; [assumption|]).
  pose proof (Z.mod_pos_bound Q K ltac:(lia)) as Hm.
  subst targets. rewrite buildTargetsByFullLayers_eq by assumption.
  cbv zeta. fold layersOf.
  destruct (Z.ltb_spec 0 (Q mod K)) as [Hrem|Hrem].
  - destruct (last_pallet_spare Q P K L HQ HP HK HL Hcap Hrem) as (Hlast & Hlt).
    fold layersOf in Hlast.
    right. split; [exact Hrem|].
    exists (Z.to_nat P - 1)%nat, (Q / K / P).
    repeat split; try assumption.
    intros j' l' Hj' Hl'. apply lookup_lt_Some in Hl'.
    unfold layersOf in Hl'. rewrite length_fmap, length_seq in Hl'. lia.
  - left. split; [lia | reflexivity].
Qed.

Lemma buildTargetsByFullLayers_spec_witness :
  1 <= 37 /\ 1 <= 3 /\ 1 <= 4 /\ 1 <= 4 /\ 37 <= 3 * 4 * 4
  /\ length (buildTargetsByFullLayers 37 3 4 4) = 3%nat
  /\ sumZ (buildTargetsByFullLayers 37 3 4 4) = 37.
Proof.
  assert (1 <= 37) as H1 by lia. assert (1 <= 3) as H2 by lia.
  assert (1 <= 4) as H3 by lia. assert (37 <= 3 * 4 * 4) as H4 by lia.
  destruct (buildTargetsByFullLayers_spec 37 3 4 4 H1 H2 H3 H3 H4)
    as (Hlen & Hsum & _).
  repeat split; try assumption.
Defined.

(** ** Comparisons *)

Lemma Qltb_lt (x y : Q) : Qltb x y = true <-> (x < y)%Q.
Proof.
  unfold Qltb. rewrite negb_true_iff, <- not_true_iff_false, Qle_bool_iff.
  split; [apply Qnot_le_lt | apply Qlt_not_le].
Qed.

Lemma Qltb_ge (x y : Q) : Qltb x y = false <-> (y <= x)%Q.
Proof.
  unfold Qltb. rewrite negb_false_iff, Qle_bool_iff. reflexivity.
Qed.

(** ** The partial selector *)

Lemma length_deleteIndex (i : nat) (l : list nat) :
  NoDup l -> i ∈ l -> S (length (deleteIndex i l)) = length l.
Proof.
  unfold deleteIndex. induction 1 as [|x l Hx Hl IH]; intros Hi.
  - apply elem_of_nil in Hi. contradiction.
  - apply elem_of_cons in Hi. rewrite filter_cons.
    destruct (decide (x <> i)) as [Hne|Heq].
    + simpl. f_equal. apply IH. destruct Hi as [->|Hi]; [contradiction | assumption].
    + assert (x = i) as -> by (destruct (decide (x = i)); [assumption|contradiction]).
      simpl. f_equal.
      clear IH Hi Hl Heq. induction l as [|y l IH]; [reflexivity|].
      rewrite filter_cons. apply not_elem_of_cons in Hx as [Hy Hx].
      destruct (decide (y <> i)) as [?|Hn];
        [|exfalso; apply Hn; intros ->; apply Hy; reflexivity].
      simpl. f_equal. apply IH, Hx.
Qed.

Lemma leastStep_leastOf score cells seen best i :
  leastOf score cells seen best ->
  leastOf score cells (seen ++ [i]) (leastStep score cells best i).
Proof.
  intros Hbest. unfold leastStep.
  destruct (cells !! i) as [c|] eqn:Hi.
  - destruct best as [[b bestD]|].
    + destruct Hbest as (Hb & cb & Hcb & Hd & Hmin).
      destruct (Qltb (score c) bestD) eqn:Hlt.
      * apply Qltb_lt in Hlt.
        split; [apply elem_of_app; right; apply list_elem_of_singleton; reflexivity|].
        exists c. repeat split; [assumption|].
        intros j c' Hj Hc'. apply elem_of_app in Hj as [Hj|Hj].
        -- apply Qlt_le_weak. eapply Qlt_le_trans; [exact Hlt|]. eapply Hmin; eassumption.
        -- apply list_elem_of_singleton in Hj. subst j.
           rewrite Hi in Hc'. injection Hc' as <-. apply Qle_refl.
      * apply Qltb_ge in Hlt.
        split; [apply elem_of_app; left; assumption|].
        exists cb. repeat split; [assumption..|].
        intros j c' Hj Hc'. apply elem_of_app in Hj as [Hj|Hj].
        -- eapply Hmin; eassumption.
        -- apply list_elem_of_singleton in Hj. subst j.
           rewrite Hi in Hc'. injection Hc' as <-. assumption.
    + split; [apply elem_of_app; right; apply list_elem_of_singleton; reflexivity|].
      exists c. repeat split; [assumption|].
      intros j c' Hj Hc'. apply elem_of_app in Hj as [Hj|Hj].
      * rewrite (Hbest j Hj) in Hc'. discriminate.
      * apply list_elem_of_singleton in Hj. subst j.
        rewrite Hi in Hc'. injection Hc' as <-. apply Qle_refl.
  - destruct best as [[b bestD]|].
    + destruct Hbest as (Hb & cb & Hcb & Hd & Hmin).
      split; [apply elem_of_app; left; assumption|].
      exists cb. repeat split; [assumption..|].
      intros j c' Hj Hc'. apply elem_of_app in Hj as [Hj|Hj].
      * eapply Hmin; eassumption.
      * apply list_elem_of_singleton in Hj. subst j. congruence.
    + intros j Hj. apply elem_of_app in Hj as [Hj|Hj]; [auto|].
      apply list_elem_of_singleton in Hj. subst j. assumption.
Qed.

Lemma foldl_leastStep_leastOf score cells l :
  forall seen best,
    leastOf score cells seen best ->
    leastOf score cells (seen ++ l) (foldl (leastStep score cells) best l).
Proof.
  induction l as [|i l IH]; intros seen best Hbest; simpl.
  - rewrite app_nil_r. assumption.
  - replace (seen ++ i :: l) with ((seen ++ [i]) ++ l)
      by (rewrite <- app_assoc; reflexivity).
    apply IH, leastStep_leastOf, Hbest.
Qed.

Lemma leastOver_leastOf score cells remaining :
  leastOf score cells remaining (leastOver score cells remaining).
Proof.
  apply (foldl_leastStep_leastOf score cells remaining [] None).
  intros i Hi. apply elem_of_nil in Hi. contradiction.
Qed.

Lemma pickInv_init (n : nat) : pickInv n (seq 0 n, []).
Proof.
  unfold pickInv; simpl.
  split; [apply NoDup_seq|]. split; [apply NoDup_nil_2|].
  split; [intros i Hi; apply elem_of_seq in Hi; lia|].
  split; [|rewrite length_seq; lia].
  intros i Hi. apply elem_of_nil in Hi. contradiction.
Qed.

Lemma pushPicked_inv (n : nat) (st : pickState) (i : nat) :
  pickInv n st -> i ∈ fst st ->
  pickInv n (pushPicked i st)
  /\ length (snd (pushPicked i st)) = S (length (snd st)).
Proof.
  intros (Hnr & Hnp & Hr & Hp & Hlen) Hi.
  pose proof (length_deleteIndex i (fst st) Hnr Hi) as Hdel.
  unfold pushPicked; simpl. rewrite length_app. simpl.
  split; [|lia].
  unfold pickInv; simpl.
  split; [apply NoDup_filter, Hnr|].
  split.
  { apply NoDup_app. repeat split; [assumption| |apply NoDup_singleton].
    intros x Hx Hxi. apply list_elem_of_singleton in Hxi. subst x.
    destruct (Hp i Hx) as [_ Hni]. contradiction. }
  split; [intros j Hj; apply list_elem_of_filter in Hj as [_ Hj]; auto|].
  split; [|rewrite length_app; simpl; lia].
  intros j Hj. apply elem_of_app in Hj as [Hj|Hj].
  - destruct (Hp j Hj) as [Hjn Hjr]. split; [assumption|].
    intros Hjf. apply list_elem_of_filter in Hjf as [_ Hjf]. contradiction.
  - apply list_elem_of_singleton in Hj. subst j. split; [auto|].
    intros Hjf. apply list_elem_of_filter in Hjf as [Hne _]. contradiction.
Qed.

Lemma findIndexFrom_Some {A} (p : nat -> A -> bool) (l : list A) :
  forall i k,
    findIndexFrom p i l = Some k ->
    (i <= k)%nat
    /\ (exists a, l !! (k - i)%nat = Some a /\ p k a = true)
    /\ (forall j a, (i <= j < k)%nat -> l !! (j - i)%nat = Some a -> p j a = false).
Proof.
  induction l as [|a l IH]; intros i k Hk; simpl in Hk; [discriminate|].
  destruct (p i a) eqn:Hp.
  - injection Hk as <-. split; [lia|]. split.
    + exists a. replace (i - i)%nat with 0%nat by lia. split; [reflexivity|assumption].
    + intros j b Hj. lia.
  - destruct (IH _ _ Hk) as (Hle & (b & Hb & Hpb) & Hbefore).
    split; [lia|]. split.
    + exists b. split; [|assumption].
      replace (k - i)%nat with (S (k - S i)) by lia. exact Hb.
    + intros j c Hj Hc. destruct (decide (j = i)) as [->|Hne].
      * replace (i - i)%nat with 0%nat in Hc by lia. simpl in Hc. congruence.
      * apply Hbefore; [lia|].
        replace (j - i)%nat with (S (j - S i)) in Hc by lia. exact Hc.
Qed.

Lemma findIndexFrom_None {A} (p : nat -> A -> bool) (l : list A) :
  forall i, findIndexFrom p i l = None ->
    forall j a, l !! j = Some a -> p (i + j)%nat a = false.
Proof.
  induction l as [|a l IH]; intros i Hnone j b Hj; [discriminate|].
  simpl in Hnone. destruct (p i a) eqn:Hp; [discriminate|].
  destruct j as [|j]; simpl in Hj.
  - injection Hj as <-. replace (i + 0)%nat with i by lia. assumption.
  - replace (i + S j)%nat with (S i + j)%nat by lia. eapply IH; eassumption.
Qed.

Lemma leastOver_picks score (cells : list Cell) (st : pickState) :
  pickInv (length cells) st -> fst st <> [] ->
  exists b d, leastOver score cells (fst st) = Some (b, d) /\ b ∈ fst st.
Proof.
  intros (_ & _ & Hr & _) Hne.
  pose proof (leastOver_leastOf score cells (fst st)) as Hleast.
  destruct (leastOver score cells (fst st)) as [[b d]|].
  - exists b, d. split; [reflexivity|apply Hleast].
  - destruct (fst st) as [|i rem]; [contradiction|].
    assert (i ∈ i :: rem) as Hi by (apply elem_of_cons; left; reflexivity).
    specialize (Hleast i Hi). apply lookup_ge_None in Hleast.
    specialize (Hr i Hi). lia.
Qed.

(** One corner turn picks exactly one index of [remaining]. *)
Lemma pickCorner_picks (cells : list Cell) (k : corner) (st : pickState) :
  pickInv (length cells) st -> fst st <> [] ->
  exists i, i ∈ fst st /\ pickCorner cells k st = pushPicked i st.
Proof.
  intros Hinv Hne. unfold pickCorner.
  destruct (findIndexFrom _ 0%nat cells) as [idx|] eqn:Hfind.
  - apply findIndexFrom_Some in Hfind as (_ & (a & _ & Hp) & _).
    apply andb_true_iff in Hp as [Hin _]. apply bool_decide_eq_true in Hin.
    exists idx. split; [assumption|reflexivity].
  - destruct (leastOver_picks (fun c => dist2 c (fst (snd k)) (snd (snd k)))
                cells st Hinv Hne) as (b & d & -> & Hb).
    exists b. split; [assumption|reflexivity].
Qed.

Lemma cornersLoop_inv (cells : list Cell) (r : Z) (ks : list corner) :
  forall st,
    pickInv (length cells) st ->
    Z.of_nat (length (snd st)) <= r <= Z.of_nat (length cells) ->
    pickInv (length cells) (cornersLoop cells r ks st)
    /\ Z.of_nat (length (snd (cornersLoop cells r ks st)))
       = Z.min r (Z.of_nat (length (snd st)) + Z.of_nat (length ks)).
Proof.
  induction ks as [|k ks IH]; intros st Hinv Hr; simpl.
  - split; [assumption|lia].
  - destruct (Z.ltb_spec (Z.of_nat (length (snd st))) r) as [Hlt|Hge].
    + assert (fst st <> []) as Hne.
      { destruct Hinv as (_ & _ & _ & _ & Hlen).
        intros Heq. rewrite Heq in Hlen. simpl in Hlen. lia. }
      destruct (pickCorner_picks cells k st Hinv Hne) as (i & Hi & ->).
      destruct (pushPicked_inv _ _ _ Hinv Hi) as (Hinv' & Hlen').
      destruct (IH _ Hinv' ltac:(lia)) as (Hinv'' & Hlen'').
      split; [assumption|]. rewrite Hlen'', Hlen'. lia.
    + split; [assumption|lia].
Qed.

Lemma edgesLoop_inv score (cells : list Cell) (r : Z) (fuel : nat) :
  forall st,
    pickInv (length cells) st ->
    Z.of_nat (length (snd st)) <= r <= Z.of_nat (length cells) ->
    (length (fst st) <= fuel)%nat ->
    pickInv (length cells) (edgesLoop score cells r fuel st)
    /\ Z.of_nat (length (snd (edgesLoop score cells r fuel st))) = r.
Proof.
  induction fuel as [|fuel IH]; intros st Hinv Hr Hfuel; simpl.
  - split; [assumption|]. destruct Hinv as (_ & _ & _ & _ & Hlen). lia.
  - destruct (Z.ltb_spec (Z.of_nat (length (snd st))) r) as [Hlt|Hge]; simpl.
    + destruct (Nat.eqb_spec (length (fst st)) 0) as [Hz|Hnz]; simpl.
      * split; [assumption|]. destruct Hinv as (_ & _ & _ & _ & Hlen). lia.
      * assert (fst st <> []) as Hne by (intros Heq; rewrite Heq in Hnz; auto).
        destruct (leastOver_picks score cells st Hinv Hne) as (b & d & -> & Hb).
        destruct (pushPicked_inv _ _ _ Hinv Hb) as (Hinv' & Hlen').
        apply IH; [assumption|lia|].
        destruct Hinv as (Hnd & _). simpl.
        pose proof (length_deleteIndex b (fst st) Hnd Hb). lia.
    + split; [assumption|lia].
Qed.

(** The fuel of [edgesLoop] is enough: with [length remaining] turns the
    loop stops because its own condition fails. *)
Lemma edgesLoop_exits score (cells : list Cell) (r : Z) (fuel : nat) :
  forall st,
    pickInv (length cells) st ->
    (length (fst st) <= fuel)%nat ->
    (Z.of_nat (length (snd (edgesLoop score cells r fuel st))) <? r)
    && negb (length (fst (edgesLoop score cells r fuel st)) =? 0)%nat = false.
Proof.
  induction fuel as [|fuel IH]; intros st Hinv Hfuel; simpl.
  - assert (length (fst st) = 0%nat) as -> by lia. apply andb_false_r.
  - destruct ((Z.of_nat (length (snd st)) <? r)
              && negb (length (fst st) =? 0)%nat) eqn:Hcond; [|exact Hcond].
    apply andb_true_iff in Hcond as [_ Hne].
    apply negb_true_iff, Nat.eqb_neq in Hne.
    assert (fst st <> []) as Hne' by (intros Heq; rewrite Heq in Hne; auto).
    destruct (leastOver_picks score cells st Hinv Hne') as (b & d & -> & Hb).
    destruct (pushPicked_inv _ _ _ Hinv Hb) as (Hinv' & _).
    apply IH; [assumption|].
    destruct Hinv as (Hnd & _). simpl.
    pose proof (length_deleteIndex b (fst st) Hnd Hb). lia.
Qed.

(** The indices picked on a list of [n] cells for [1 <= r <= n]: exactly
    [r], distinct, each below [n]. *)
Lemma pickedIndices_exact (c0 : Cell) (rest : list Cell) (r : Z) :
  1 <= r <= Z.of_nat (length (c0 :: rest)) ->
  let idxs := pickedIndices c0 rest r in
  NoDup idxs
  /\ Z.of_nat (length idxs) = r
  /\ forall i, i ∈ idxs -> (i < length (c0 :: rest))%nat.
Proof.
  intros Hr idxs. subst idxs. unfold pickedIndices.
  match goal with
  | |- context [cornersLoop ?cells r ?ks ?st0] =>
      destruct (cornersLoop_inv cells r ks st0 (pickInv_init _)) as (Hinv1 & Hlen1);
      [simpl in *; lia|];
      set (st1 := cornersLoop cells r ks st0) in *
  end.
  match goal with
  | |- context [edgesLoop ?sc ?cells r ?fuel st1] =>
      destruct (edgesLoop_inv sc cells r fuel st1 Hinv1) as (Hinv2 & Hlen2);
      [lia | lia |];
      set (st2 := edgesLoop sc cells r fuel st1) in *
  end.
  destruct Hinv2 as (_ & Hnd & _ & Hp & _).
  repeat split; [assumption..|].
  intros i Hi. apply Hp, Hi.
Qed.

Lemma pickCornerEdgePartialCells_indices (cells : list Cell) (r : Z) :
  1 <= r <= Z.of_nat (length cells) ->
  exists idxs : list nat,
    NoDup idxs
    /\ Z.of_nat (length idxs) = r
    /\ Forall2 (fun i c => cells !! i = Some c) idxs
               (pickCornerEdgePartialCells cells r).
Proof.
  intros Hr. unfold pickCornerEdgePartialCells.
  destruct (Z.leb_spec r 0); [lia|].
  destruct cells as [|c0 rest]; [simpl in Hr; lia|].
  destruct (pickedIndices_exact c0 rest r Hr) as (Hnd & Hlen & Hlt).
  exists (pickedIndices c0 rest r). repeat split; [assumption..|].
  apply Forall2_fmap_r, Forall_Forall2_diag, Forall_forall.
  intros i Hi. simpl.
  destruct (lookup_lt_is_Some_2 (c0 :: rest) i (Hlt i Hi)) as [c ->].
  reflexivity.
Qed.

(** C5.  On a non-empty cell list and for [1 <= r < number of cells],
    [pickCornerEdgePartialCells] returns exactly [r] cells, which are the
    cells of the list at [r] pairwise distinct indices. *)
Theorem pickCornerEdgePartialCells_exact (cells : list Cell) (r : Z) :
  cells <> [] ->
  1 <= r < Z.of_nat (length cells) ->
  Z.of_nat (length (pickCornerEdgePartialCells cells r)) = r
  /\ exists idxs : list nat,
       NoDup idxs
       /\ Forall2 (fun i c => cells !! i = Some c) idxs
                  (pickCornerEdgePartialCells cells r).
Proof.
  intros _ Hr.
  destruct (pickCornerEdgePartialCells_indices cells r ltac:(lia))
    as (idxs & Hnd & Hlen & Hall).
  split.
  - rewrite <- (Forall2_length _ _ _ Hall). exact Hlen.
  - exists idxs. split; assumption.
Qed.

Lemma pickCornerEdgePartialCells_exact_witness :
  sampleCells <> []
  /\ 1 <= 2 < Z.of_nat (length sampleCells)
  /\ Z.of_nat (length (pickCornerEdgePartialCells sampleCells 2)) = 2.
Proof.
  assert (sampleCells <> []) as H1 by discriminate.
  assert (1 <= 2 < Z.of_nat (length sampleCells)) as H2 by (simpl; lia).
  split; [exact H1|]. split; [exact H2|].
  exact (proj1 (pickCornerEdgePartialCells_exact sampleCells 2 H1 H2)).
Defined.

(** ** Pattern selection *)

Lemma lexBetter_lexLt (key bestKey : list Q) :
  lexBetter key bestKey = true <-> lexLt bestKey key.
Proof.
  revert bestKey. induction key as [|a key IH]; intros [|b bestKey]; simpl;
    try (split; [discriminate | inversion 1]).
  destruct (Qltb b a) eqn:Hba.
  - apply Qltb_lt in Hba. split; [intros _; apply lexLt_head, Hba | reflexivity].
  - apply Qltb_ge in Hba. destruct (Qltb a b) eqn:Hab.
    + apply Qltb_lt in Hab. split; [discriminate|]. inversion 1; subst; lra.
    + apply Qltb_ge in Hab. rewrite IH. split.
      * intros Hl. apply lexLt_tail; [lra | assumption].
      * inversion 1; subst; [lra | assumption].
Qed.

Lemma lexLt_irrefl (x : list Q) : ~ lexLt x x.
Proof.
  induction x as [|a x IH]; inversion 1; subst; [lra | auto].
Qed.

Lemma lexLt_asym (x y : list Q) : lexLt x y -> lexLt y x -> False.
Proof.
  induction 1 as [a b l k Hab | a b l k Hab Hlk IH]; inversion 1; subst;
    try lra.
  auto.
Qed.

(** On tuples of one length the order is total: what is not above [x] and
    [x] itself lie below whatever is above [x]. *)
Lemma lexLt_neg_trans (x : list Q) :
  forall y z, length x = length y -> ~ lexLt x y -> lexLt x z -> lexLt y z.
Proof.
  induction x as [|a x IH]; intros y z Hlen Hxy Hxz; [inversion Hxz|].
  destruct y as [|b y]; [discriminate|]. injection Hlen as Hlen.
  inversion Hxz as [? c ? z' Hac | ? c ? z' Hac Hxz']; subst.
  - destruct (Qlt_le_dec a b) as [Hab|Hba]; [exfalso; apply Hxy, lexLt_head, Hab|].
    apply lexLt_head. lra.
  - destruct (Qlt_le_dec a b) as [Hab|Hba]; [exfalso; apply Hxy, lexLt_head, Hab|].
    destruct (Qlt_le_dec b a) as [Hlt|Hle]; [apply lexLt_head; lra|].
    apply lexLt_tail; [lra|].
    apply IH; [assumption | | assumption].
    intros Hl. apply Hxy, lexLt_tail; [lra | assumption].
Qed.

Lemma scoreTuple_rankKey (q : Z) (c : LayerPattern) :
  0 <= q -> 0 < perLayer c -> scoreTuple q c = rankKey q c.
Proof.
  intros Hq HK. unfold scoreTuple, rankKey.
  rewrite Z.rem_mod_nonneg by lia.
  destruct (q mod perLayer c =? 0); reflexivity.
Qed.

Lemma length_scoreTuple (q : Z) (c : LayerPattern) : length (scoreTuple q c) = 6%nat.
Proof. reflexivity. Qed.

(** The loop over [viable]: the state holds a pattern of the list scanned so
    far together with its key; nothing scanned ranks above it and everything
    scanned before it ranks strictly below. *)
Lemma foldl_keepBetter_max (q : Z) (rest : list LayerPattern) :
  forall (pre : list LayerPattern) (best : LayerPattern) (i : nat),
    pre !! i = Some best ->
    (forall j c, pre !! j = Some c ->
       ~ lexLt (scoreTuple q best) (scoreTuple q c)
       /\ ((j < i)%nat -> lexLt (scoreTuple q c) (scoreTuple q best))) ->
    exists i',
      (pre ++ rest) !! i'
        = Some (fst (foldl (keepBetter q) (best, scoreTuple q best) rest))
      /\ forall j c, (pre ++ rest) !! j = Some c ->
           ~ lexLt (scoreTuple q (fst (foldl (keepBetter q) (best, scoreTuple q best) rest)))
                   (scoreTuple q c)
           /\ ((j < i')%nat ->
               lexLt (scoreTuple q c)
                     (scoreTuple q (fst (foldl (keepBetter q) (best, scoreTuple q best) rest)))).
Proof.
  induction rest as [|c rest IH]; intros pre best i Hi Hmax; simpl.
  - exists i. rewrite app_nil_r. split; assumption.
  - replace (pre ++ c :: rest) with ((pre ++ [c]) ++ rest)
      by (rewrite <- app_assoc; reflexivity).
    unfold keepBetter at 2 4 6. simpl snd.
    destruct (lexBetter (scoreTuple q c) (scoreTuple q best)) eqn:Hb.
    + apply lexBetter_lexLt in Hb.
      apply (IH (pre ++ [c]) c (length pre)).
      * rewrite lookup_app_r, Nat.sub_diag by lia. reflexivity.
      * intros j c' Hj.
        destruct (decide (j < length pre)%nat) as [Hlt|Hge].
        -- rewrite lookup_app_l in Hj by assumption.
           destruct (Hmax j c' Hj) as [Hnot _].
           assert (lexLt (scoreTuple q c') (scoreTuple q c)) as Hlt'.
           { exact (lexLt_neg_trans (scoreTuple q best) (scoreTuple q c')
                      (scoreTuple q c) eq_refl Hnot Hb). }
           split; [|intros _; exact Hlt'].
           intros Hcc'. exact (lexLt_asym _ _ Hlt' Hcc').
        -- rewrite lookup_app_r in Hj by lia.
           destruct (j - length pre)%nat as [|m] eqn:Hm; [|destruct m; discriminate].
           injection Hj as <-. split; [apply lexLt_irrefl | lia].
    + apply (IH (pre ++ [c]) best i).
      * rewrite lookup_app_l by (eapply lookup_lt_Some; eassumption). assumption.
      * intros j c' Hj.
        destruct (decide (j < length pre)%nat) as [Hlt|Hge].
        -- rewrite lookup_app_l in Hj by assumption. apply Hmax, Hj.
        -- rewrite lookup_app_r in Hj by lia.
           destruct (j - length pre)%nat as [|m] eqn:Hm; [|destruct m; discriminate].
           injection Hj as <-. split.
           ++ intros Hl. apply lexBetter_lexLt in Hl. congruence.
           ++ intros Hji. apply lookup_lt_Some in Hi. lia.
Qed.

(** An element of a filtered list comes from the list, at a position before
    which every kept element is also earlier in the filtered list. *)
Lemma filter_lookup_origin {A} (f : A -> bool) (l : list A) :
  forall i x,
    List.filter f l !! i = Some x ->
    exists i',
      l !! i' = Some x /\ f x = true
      /\ forall j' c, (j' < i')%nat -> l !! j' = Some c -> f c = true ->
           exists j, (j < i)%nat /\ List.filter f l !! j = Some c.
Proof.
  induction l as [|a l IH]; intros i x Hi; simpl in Hi; [discriminate|].
  destruct (f a) eqn:Hfa.
  - destruct i as [|i]; simpl in Hi.
    + injection Hi as <-. exists 0%nat. repeat split; [assumption|].
      intros j' c Hj'. lia.
    + destruct (IH i x Hi) as (i' & Hi' & Hfx & Hbefore).
      exists (S i'). repeat split; [assumption..|].
      intros [|j'] c Hj' Hc Hfc; simpl in Hc.
      * injection Hc as <-. exists 0%nat. simpl. rewrite Hfa. split; [lia|reflexivity].
      * destruct (Hbefore j' c ltac:(lia) Hc Hfc) as (j & Hj & Hjc).
        exists (S j). simpl. rewrite Hfa. split; [lia|exact Hjc].
  - destruct (IH i x Hi) as (i' & Hi' & Hfx & Hbefore).
    exists (S i'). repeat split; [assumption..|].
    intros [|j'] c Hj' Hc Hfc; simpl in Hc.
    + injection Hc as <-. congruence.
    + destruct (Hbefore j' c ltac:(lia) Hc Hfc) as (j & Hj & Hjc).
      exists j. simpl. rewrite Hfa. split; assumption.
Qed.

Lemma fitsDeck_viable (width depth : Q) (c : LayerPattern) :
  fitsDeck width depth c = true <-> viable width depth c.
Proof.
  unfold fitsDeck, viable.
  rewrite !andb_true_iff, Z.ltb_lt, !Qle_bool_iff.
  split; [intros ((HK & Hw) & Hd) | intros (HK & Hw & Hd)];
    repeat split; try assumption; lra.
Qed.

(** What the selection returns: a candidate that fits, above which no
    fitting candidate ranks and before which every fitting candidate ranks
    strictly below. *)
Lemma chooseBestLayerPattern_selected (width depth : Q) (a b : Footprint)
    (q : Z) (best : LayerPattern) :
  chooseBestLayerPattern width depth a b q = Some best ->
  exists i,
    candidatePatterns width depth a b !! i = Some best
    /\ fitsDeck width depth best = true
    /\ forall j c,
         candidatePatterns width depth a b !! j = Some c ->
         fitsDeck width depth c = true ->
         ~ lexLt (scoreTuple q best) (scoreTuple q c)
         /\ ((j < i)%nat -> lexLt (scoreTuple q c) (scoreTuple q best)).
Proof.
  unfold chooseBestLayerPattern.
  set (cands := candidatePatterns width depth a b).
  destruct (List.filter (fitsDeck width depth) cands) as [|v0 rest] eqn:Hv;
    [discriminate|].
  intros Hbest. injection Hbest as Hbest.
  destruct (foldl_keepBetter_max q rest [v0] v0 0%nat eq_refl) as (i & Hi & Hmax).
  { intros [|j] c Hj; simpl in Hj; [|destruct j; discriminate].
    injection Hj as <-. split; [apply lexLt_irrefl | lia]. }
  rewrite Hbest in Hi, Hmax. change ([v0] ++ rest) with (v0 :: rest) in *.
  rewrite <- Hv in Hi, Hmax.
  destruct (filter_lookup_origin _ _ _ _ Hi) as (i' & Hi' & Hfit & Hbefore).
  exists i'. split; [assumption|]. split; [assumption|].
  intros j c Hj Hfc. split.
  - assert (c ∈ List.filter (fitsDeck width depth) cands) as Hc.
    { apply list_elem_of_In, filter_In. split; [|assumption].
      apply list_elem_of_In. eapply list_elem_of_lookup_2; eassumption. }
    apply list_elem_of_lookup_1 in Hc as (k & Hk). apply (Hmax k c Hk).
  - intros Hji.
    destruct (Hbefore j c Hji Hj Hfc) as (k & Hk & Hkc).
    apply (Hmax k c Hkc), Hk.
Qed.

(** C4.  Whenever [chooseBestLayerPattern] returns a pattern, it is one of
    the candidates, it is viable (positive capacity, fits the deck within
    [EPS]), no viable candidate has a lexicographically greater tuple
    (capacity, area, squareness, simplicity, divisibility, negated
    remainder), and every viable candidate generated before it has a
    strictly smaller tuple: it is the earliest maximum. *)
Theorem chooseBestLayerPattern_lex_max (width depth : Q) (a b : Footprint)
    (totalQty : Z) (best : LayerPattern) :
  positiveDeck width depth a b ->
  0 <= totalQty ->
  chooseBestLayerPattern width depth a b totalQty = Some best ->
  exists i : nat,
    candidatePatterns width depth a b !! i = Some best
    /\ viable width depth best
    /\ forall (j : nat) (c : LayerPattern),
         candidatePatterns width depth a b !! j = Some c ->
         viable width depth c ->
         ~ lexLt (rankKey totalQty best) (rankKey totalQty c)
         /\ ((j < i)%nat -> lexLt (rankKey totalQty c) (rankKey totalQty best)).
Proof.
  intros _ Hq Hbest.
  destruct (chooseBestLayerPattern_selected _ _ _ _ _ _ Hbest)
    as (i & Hi & Hfit & Hmax).
  apply fitsDeck_viable in Hfit.
  exists i. split; [assumption|]. split; [assumption|].
  intros j c Hj Hc.
  rewrite <- !scoreTuple_rankKey by (assumption || apply Hfit || apply Hc).
  apply (Hmax j c Hj). apply fitsDeck_viable, Hc.
Qed.

Lemma chooseBestLayerPattern_lex_max_witness :
  positiveDeck 13 10 (footprint0 (sampleBox 5 3 1 9)) (footprint90 (sampleBox 5 3 1 9))
  /\ 0 <= 9
  /\ chooseBestLayerPattern 13 10 (footprint0 (sampleBox 5 3 1 9))
       (footprint90 (sampleBox 5 3 1 9)) 9 = Some unevenPattern
  /\ viable 13 10 unevenPattern.
Proof.
  assert (positiveDeck 13 10 (footprint0 (sampleBox 5 3 1 9))
            (footprint90 (sampleBox 5 3 1 9))) as Hpos
    by (unfold positiveDeck; simpl; repeat split; reflexivity).
  assert (0 <= 9) as Hq by lia.
  assert (chooseBestLayerPattern 13 10 (footprint0 (sampleBox 5 3 1 9))
            (footprint90 (sampleBox 5 3 1 9)) 9 = Some unevenPattern) as Hbest
    by (vm_compute; reflexivity).
  do 3 (split; [assumption|]).
  destruct (chooseBestLayerPattern_lex_max 13 10 _ _ 9 unevenPattern Hpos Hq Hbest)
    as (i & _ & Hviable & _).
  exact Hviable.
Defined.

(** C8.  The selected pattern has positive capacity, and its consumed width
    and depth exceed the deck by at most [EPS]. *)
Theorem chooseBestLayerPattern_feasible (width depth : Q) (a b : Footprint)
    (totalQty : Z) (pattern : LayerPattern) :
  positiveDeck width depth a b ->
  chooseBestLayerPattern width depth a b totalQty = Some pattern ->
  (usedWidth pattern <= width + EPS)%Q
  /\ (usedDepth pattern <= depth + EPS)%Q
  /\ 0 < perLayer pattern.
Proof.
  intros _ Hbest.
  destruct (chooseBestLayerPattern_selected _ _ _ _ _ _ Hbest)
    as (i & _ & Hfit & _).
  apply fitsDeck_viable in Hfit as (HK & Hw & Hd). auto.
Qed.

Lemma chooseBestLayerPattern_feasible_witness :
  positiveDeck 13 10 (footprint0 (sampleBox 5 3 1 9)) (footprint90 (sampleBox 5 3 1 9))
  /\ chooseBestLayerPattern 13 10 (footprint0 (sampleBox 5 3 1 9))
       (footprint90 (sampleBox 5 3 1 9)) 9 = Some unevenPattern
  /\ (usedWidth unevenPattern <= 13 + EPS)%Q
  /\ (usedDepth unevenPattern <= 10 + EPS)%Q
  /\ 0 < perLayer unevenPattern.
Proof.
  assert (positiveDeck 13 10 (footprint0 (sampleBox 5 3 1 9))
            (footprint90 (sampleBox 5 3 1 9))) as Hpos
    by (unfold positiveDeck; simpl; repeat split; reflexivity).
  assert (chooseBestLayerPattern 13 10 (footprint0 (sampleBox 5 3 1 9))
            (footprint90 (sampleBox 5 3 1 9)) 9 = Some unevenPattern) as Hbest
    by (vm_compute; reflexivity).
  do 2 (split; [assumption|]).
  exact (chooseBestLayerPattern_feasible 13 10 _ _ 9 unevenPattern Hpos Hbest).
Defined.

(** ** Cells of a layer *)

Lemma floorQ_nonneg (x y : Q) : (0 <= x)%Q -> (0 < y)%Q -> 0 <= floorQ x y.
Proof.
  intros Hx Hy. unfold floorQ.
  change 0 with (Qfloor 0). apply Qfloor_resp_le.
  apply Qle_shift_div_l; [assumption|]. lra.
Qed.

Lemma length_flat_map_const {A B} (f : A -> list B) (k : nat) (l : list A) :
  (forall x, length (f x) = k) -> length (flat_map f l) = (length l * k)%nat.
Proof.
  intros Hf. induction l as [|x l IH]; simpl; [reflexivity|].
  rewrite length_app, Hf, IH. reflexivity.
Qed.

Lemma length_upto (n : Z) : length (upto n) = Z.to_nat n.
Proof. unfold upto. rewrite length_fmap, length_seq. reflexivity. Qed.

Lemma length_blockCells (b : LayerBlock) (x0 z0 : Q) :
  length (blockCells b x0 z0) = (Z.to_nat (rows b) * Z.to_nat (cols b))%nat.
Proof.
  unfold blockCells.
  rewrite (length_flat_map_const _ (Z.to_nat (cols b))), length_upto; [reflexivity|].
  intros r. rewrite length_fmap, length_upto. reflexivity.
Qed.

Lemma buildGridPattern_cellsMatch (width depth : Q) (fp : Footprint) :
  cellsMatch (buildGridPattern width depth fp).
Proof.
  intros W D. unfold materializeLayerCells, buildGridPattern. simpl.
  rewrite length_blockCells. simpl. nia.
Qed.

Lemma splitXLoop_cellsMatch (width depth : Q) (l r : Footprint) (n : nat) :
  (0 < depth)%Q -> (0 < wid l)%Q -> (0 < wid r)%Q -> (0 < len r)%Q ->
  forall cLeft, 1 <= cLeft ->
    Forall cellsMatch (splitXLoop width depth l r n cLeft).
Proof.
  intros Hd Hwl Hwr Hlr.
  induction n as [|n IH]; intros cLeft Hc; simpl; [constructor|].
  destruct (Qltb _ 0) eqn:Hrem; [constructor|].
  apply Qltb_ge in Hrem.
  constructor; [|apply IH; lia].
  intros W D. unfold materializeLayerCells. simpl.
  rewrite length_app, !length_blockCells. simpl.
  pose proof (floorQ_nonneg _ _ Hrem Hlr).
  pose proof (floorQ_nonneg depth (wid l) ltac:(lra) Hwl).
  pose proof (floorQ_nonneg depth (wid r) ltac:(lra) Hwr).
  nia.
Qed.

Lemma splitZLoop_cellsMatch (width depth : Q) (f b : Footprint) (n : nat) :
  (0 < width)%Q -> (0 < len f)%Q -> (0 < len b)%Q -> (0 < wid b)%Q ->
  forall rFront, 1 <= rFront ->
    Forall cellsMatch (splitZLoop width depth f b n rFront).
Proof.
  intros Hw Hlf Hlb Hwb.
  induction n as [|n IH]; intros rFront Hr; simpl; [constructor|].
  destruct (Qltb _ 0) eqn:Hrem; [constructor|].
  apply Qltb_ge in Hrem.
  constructor; [|apply IH; lia].
  intros W D. unfold materializeLayerCells. simpl.
  rewrite length_app, !length_blockCells. simpl.
  pose proof (floorQ_nonneg _ _ Hrem Hwb).
  pose proof (floorQ_nonneg width (len f) ltac:(lra) Hlf).
  pose proof (floorQ_nonneg width (len b) ltac:(lra) Hlb).
  nia.
Qed.

Lemma candidatePatterns_cellsMatch (width depth : Q) (a b : Footprint) :
  positiveDeck width depth a b ->
  Forall cellsMatch (candidatePatterns width depth a b).
Proof.
  intros (Hw & Hd & Hla & Hwa & Hlb & Hwb). unfold candidatePatterns.
  repeat (apply Forall_cons; split; [apply buildGridPattern_cellsMatch|]).
  repeat (apply Forall_app; split);
    try (apply splitXLoop_cellsMatch; assumption || lia);
    try (apply splitZLoop_cellsMatch; assumption || lia).
Qed.

Lemma chooseBestLayerPattern_cellsMatch (width depth : Q) (a b : Footprint)
    (q : Z) (pattern : LayerPattern) :
  positiveDeck width depth a b ->
  chooseBestLayerPattern width depth a b q = Some pattern ->
  cellsMatch pattern /\ 0 < perLayer pattern.
Proof.
  intros Hpos Hbest.
  destruct (chooseBestLayerPattern_selected _ _ _ _ _ _ Hbest)
    as (i & Hi & Hfit & _).
  split.
  - pose proof (candidatePatterns_cellsMatch _ _ _ _ Hpos) as Hall.
    rewrite Forall_lookup in Hall. exact (Hall i pattern Hi).
  - apply fitsDeck_viable in Hfit. apply Hfit.
Qed.

(** ** Placements of one pallet *)

Lemma placeCells_facts (base : BoxType) (pallet : PalletConfig) (li : Z)
    (cells : list Cell) :
  forall idCounter,
    length (placeCells base pallet li cells idCounter).1 = length cells
    /\ Forall (fun bp => bp_layer bp = li)
              (placeCells base pallet li cells idCounter).1.
Proof.
  induction cells as [|c cells IH]; intros n; simpl.
  - split; [reflexivity | constructor].
  - destruct (IH (S n)) as (Hlen & Hall).
    destruct (placeCells base pallet li cells (S n)) as [ps n']. simpl in *.
    split; [f_equal; assumption|].
    constructor; [|assumption].
    unfold placeCell. destruct (clampCenterInsidePallet _ _ _ _ _ _). reflexivity.
Qed.

Lemma fillFullLayers_facts (pattern : LayerPattern) (base : BoxType)
    (pallet : PalletConfig) (n : nat) :
  forall li idCounter,
    length (fillFullLayers pattern base pallet n li idCounter).1
    = (n * length (materializeLayerCells pattern (p_width pallet) (p_depth pallet)))%nat
    /\ Forall (fun bp => li <= bp_layer bp < li + Z.of_nat n)
              (fillFullLayers pattern base pallet n li idCounter).1.
Proof.
  induction n as [|n IH]; intros li idc; simpl.
  - split; [reflexivity | constructor].
  - destruct (placeCells_facts base pallet li
                (materializeLayerCells pattern (p_width pallet) (p_depth pallet)) idc)
      as (Hlen1 & Hall1).
    destruct (placeCells base pallet li _ idc) as [ps idc1]. simpl in *.
    destruct (IH (li + 1) idc1) as (Hlen2 & Hall2).
    destruct (fillFullLayers pattern base pallet n (li + 1) idc1) as [qs idc2].
    simpl in *. split.
    + rewrite length_app, Hlen1, Hlen2. reflexivity.
    + apply Forall_app. split.
      * eapply Forall_impl; [exact Hall1|]. simpl. intros bp ->. lia.
      * eapply Forall_impl; [exact Hall2|]. simpl. intros bp Hbp. lia.
Qed.

(** A pallet whose target is within its capacity receives the target:
    as many placements as asked for, on at most [layersMax] layers that can
    hold them. *)
Lemma buildPlacementsForPallet_count (t L : Z) (pattern : LayerPattern)
    (base : BoxType) (pallet : PalletConfig) (idCounter : nat) (allFull : bool) :
  cellsMatch pattern ->
  0 < perLayer pattern ->
  0 <= t <= perLayer pattern * L ->
  let res := buildPlacementsForPallet t L pattern base pallet idCounter allFull in
  Z.of_nat (length res.1.1) = t
  /\ 0 <= res.1.2 <= L
  /\ t <= perLayer pattern * res.1.2.
Proof.
  intros Hcells HK Ht res. subst res. unfold buildPlacementsForPallet.
  set (K := perLayer pattern) in *.
  rewrite (Z.max_r 1 K) by lia.
  pose proof (Z.div_mod t K ltac:(lia)) as Hdm.
  pose proof (Z.mod_pos_bound t K ltac:(lia)) as Hm.
  assert (0 <= t / K) as Hq by (apply Z.div_pos; lia).
  assert (t / K <= L) as HqL by (apply Z.div_le_upper_bound; lia).
  rewrite (Z.min_l (t / K) L) by lia.
  rewrite Z2Nat.id by lia.
  specialize (Hcells (p_width pallet) (p_depth pallet)). fold K in Hcells.
  destruct (fillFullLayers_facts pattern base pallet (Z.to_nat (t / K)) 0 idCounter)
    as (Hlen1 & _).
  destruct (fillFullLayers pattern base pallet (Z.to_nat (t / K)) 0 idCounter)
    as [full idc1]. simpl in Hlen1.
  assert (Z.of_nat (length full) = t / K * K) as Hfull by (rewrite Hlen1; nia).
  destruct (Z.ltb_spec 0 (t - t / K * K)) as [Hrem|Hrem]; simpl.
  - destruct (Z.ltb_spec (t / K) L) as [Hlt|Hge]; simpl.
    + destruct (pickCornerEdgePartialCells_indices
                  (materializeLayerCells pattern (p_width pallet) (p_depth pallet))
                  (t - t / K * K) ltac:(lia)) as (idxs & _ & Hlen & Hall).
      apply Forall2_length in Hall.
      destruct (placeCells_facts base pallet (t / K)
                  (pickCornerEdgePartialCells
                     (materializeLayerCells pattern (p_width pallet) (p_depth pallet))
                     (t - t / K * K)) idc1) as (Hlen2 & _).
      destruct (placeCells base pallet (t / K) _ idc1) as [part idc2]. simpl in *.
      rewrite length_app. split; [lia|]. split; [lia|nia].
    + exfalso. nia.
  - split; [lia|]. split; [lia|nia].
Qed.

(** ** The orchestrator *)

Lemma palletLoop_facts (K L : Z) (pattern : LayerPattern) (base : BoxType)
    (pallet : PalletConfig) (allFull : bool) (targets : list Z) :
  K = perLayer pattern ->
  cellsMatch pattern ->
  0 < K ->
  Forall (fun t => 0 <= t <= K * L) targets ->
  forall p idCounter,
    Forall2 (fun t pr =>
               pr_totalBoxes pr = t
               /\ pr_totalBoxes pr = Z.of_nat (length (placements pr))
               /\ boxesPerLayer pr = K
               /\ 0 <= layers pr <= L
               /\ t <= K * layers pr)
            targets
            (palletLoop K L (K * L) pattern base pallet allFull targets p idCounter).1.1.
Proof.
  intros -> Hcells HK Hall.
  induction Hall as [|t targets Ht Hall IH]; intros p idc; simpl; [constructor|].
  rewrite (Z.min_l t) by lia.
  pose proof (buildPlacementsForPallet_count t L pattern base pallet idc allFull
                Hcells HK Ht) as (Hlen & Hused & Hcap).
  destruct (buildPlacementsForPallet t L pattern base pallet idc allFull)
    as [[ps used] idc1]. simpl in Hlen, Hused, Hcap.
  specialize (IH (p + 1) idc1).
  destruct (palletLoop (perLayer pattern) L (perLayer pattern * L) pattern base
              pallet allFull targets (p + 1) idc1) as [[prs dist] idc2].
  simpl in *. constructor; [|exact IH]. simpl. auto.
Qed.

Lemma foldl_quantity (valid : list BoxType) (s : Z) :
  foldl (fun s b => s + b_quantity b) s valid = s + sumZ (b_quantity <$> valid).
Proof.
  revert s. induction valid as [|b valid IH]; intros s.
  - change (s = s + 0). lia.
  - rewrite fmap_cons, sumZ_cons, Z.add_assoc, <- IH. reflexivity.
Qed.

Lemma foldl_totalBoxes (prs : list PalletResult) (s : Z) :
  foldl (fun s pr => s + pr_totalBoxes pr) s prs = s + sumZ (pr_totalBoxes <$> prs).
Proof.
  revert s. induction prs as [|pr prs IH]; intros s.
  - change (s = s + 0). lia.
  - rewrite fmap_cons, sumZ_cons, Z.add_assoc, <- IH. reflexivity.
Qed.

Lemma validBoxes_positive (entries : list (option BoxType)) (b : BoxType) :
  b ∈ validBoxes entries ->
  Some b ∈ entries
  /\ (0 < b_length b)%Q /\ (0 < b_width b)%Q /\ (0 < b_height b)%Q
  /\ 0 < b_quantity b.
Proof.
  unfold validBoxes. intros Hb.
  apply list_elem_of_omap in Hb as (ob & Hob & Hid). simpl in Hid. subst ob.
  apply list_elem_of_In, filter_In in Hob as (Hin & Hvalid).
  apply list_elem_of_In in Hin. simpl in Hvalid.
  rewrite !andb_true_iff, !Qltb_lt, Z.ltb_lt in Hvalid.
  destruct Hvalid as (((Hl & Hw) & Hh) & Hq). auto.
Qed.

Lemma sumZ_positive (l : list Z) : Forall (fun q => 0 < q) l -> 0 <= sumZ l.
Proof.
  induction 1 as [|q l Hq Hl IH]; [unfold sumZ; simpl; lia|].
  rewrite sumZ_cons. lia.
Qed.

Lemma minPallets_enough (Q cap : Z) :
  1 <= cap -> Q <= Z.max 1 (ceilDiv Q (Z.max 1 cap)) * cap.
Proof.
  intros Hcap. unfold ceilDiv. rewrite (Z.max_r 1 cap) by lia.
  pose proof (Z.div_mod (- Q) cap ltac:(lia)) as Hdm.
  pose proof (Z.mod_pos_bound (- Q) cap ltac:(lia)) as Hm.
  nia.
Qed.

(** The aggregate quantity of an input: the sum of the quantities of its
    valid boxes. *)
Lemma totalQuantity_ge_1 (entries : list (option BoxType)) (v0 : BoxType)
    (vs : list BoxType) :
  validBoxes entries = v0 :: vs -> 1 <= sumZ (b_quantity <$> validBoxes entries).
Proof.
  intros Hv.
  assert (Forall (fun q => 0 < q) (b_quantity <$> validBoxes entries)) as Hall.
  { apply Forall_fmap, Forall_forall. intros b Hb. simpl.
    apply validBoxes_positive in Hb. apply Hb. }
  rewrite Hv in *. rewrite fmap_cons in *. rewrite sumZ_cons.
  apply Forall_cons in Hall as (Hq & Hall). apply sumZ_positive in Hall. lia.
Qed.

(** A run that returns without an error had a valid pallet and a first valid
    box, selected a pattern of positive capacity, found room for a layer,
    and returns the pallets built from these. *)
Lemma performCalc_success (boxes : boxesArg) (pallet : option PalletConfig)
    (r : CalculationResult) :
  performCalc boxes pallet = Normal r ->
  error r = None ->
  exists pal v0 vs pattern,
    pallet = Some pal
    /\ validBoxes (entriesOf boxes) = v0 :: vs
    /\ (0 < p_width pal)%Q /\ (0 < p_depth pal)%Q
    /\ chooseBestLayerPattern (p_width pal) (p_depth pal)
         (footprint0 v0) (footprint90 v0) (totalQuantity boxes) = Some pattern
    /\ 0 < layersMaxOf pal (b_height v0)
    /\ pallets r = palletsFor pal v0 (totalQuantity boxes) pattern.
Proof.
  unfold performCalc, totalQuantity. intros Hrun Herr.
  destruct pallet as [pal|]; [|injection Hrun as <-; discriminate].
  destruct (Qle_bool (p_width pal) 0) eqn:Hw;
    [injection Hrun as <-; discriminate|].
  destruct (Qle_bool (p_depth pal) 0) eqn:Hd;
    [injection Hrun as <-; discriminate|].
  destruct (Qle_bool (p_maxHeight pal) (p_height pal)) eqn:Hh;
    [injection Hrun as <-; discriminate|].
  simpl orb in Hrun. cbv iota in Hrun.
  assert (match validBoxes (entriesOf boxes) with
          | [] => Normal (emptyResult "No valid boxes with dimensions defined")
          | v0 :: _ =>
              match chooseBestLayerPattern (p_width pal) (p_depth pal)
                      (footprint0 v0) (footprint90 v0)
                      (sumZ (b_quantity <$> validBoxes (entriesOf boxes))) with
              | None => Normal (emptyResult "Box footprint does not fit on pallet area")
              | Some pattern =>
                  if perLayer pattern =? 0
                  then Normal (emptyResult "Box footprint does not fit on pallet area")
                  else if layersMaxOf pal (b_height v0) <=? 0
                  then Normal (emptyResult "No vertical clearance for a single layer")
                  else Normal (runResult pal v0
                                 (sumZ (b_quantity <$> validBoxes (entriesOf boxes)))
                                 pattern)
              end
          end = Normal r) as Hrun'.
  { rewrite <- Hrun. destruct boxes; [| |discriminate]; clear Hrun;
      (destruct (validBoxes _) as [|v0 vs]; [reflexivity|]);
      cbv zeta; rewrite foldl_quantity, Z.add_0_l;
      unfold footprint0, footprint90, runResult, layersMaxOf;
      cbn [b_length b_width b_height withQuantity];
      (destruct (chooseBestLayerPattern _ _ _ _ _); [|reflexivity]);
      (destruct (perLayer _ =? 0); [reflexivity|]);
      (destruct (floorQ _ _ <=? 0); [reflexivity|]);
      cbv zeta;
      destruct (palletLoop _ _ _ _ _ _ _ _ _ _) as [[prs dist] idc]; reflexivity. }
  clear Hrun.
  destruct (validBoxes (entriesOf boxes)) as [|v0 vs] eqn:Hvalid;
    [injection Hrun' as <-; discriminate|].
  destruct (chooseBestLayerPattern _ _ _ _ _) as [pattern|] eqn:Hpat;
    [|injection Hrun' as <-; discriminate].
  destruct (perLayer pattern =? 0); [injection Hrun' as <-; discriminate|].
  destruct (Z.leb_spec (layersMaxOf pal (b_height v0)) 0) as [HL|HL];
    [injection Hrun' as <-; discriminate|].
  injection Hrun' as <-.
  exists pal, v0, vs, pattern.
  split; [reflexivity|]. split; [reflexivity|].
  split; [apply Qnot_le_lt; intros Hle; apply Qle_bool_iff in Hle; congruence|].
  split; [apply Qnot_le_lt; intros Hle; apply Qle_bool_iff in Hle; congruence|].
  split; [assumption|]. split; [assumption|].
  unfold runResult, palletsFor. cbv zeta.
  destruct (palletLoop _ _ _ _ _ _ _ _ _ _) as [[prs dist] idc]. reflexivity.
Qed.

Lemma valid_positiveDeck (boxes : boxesArg) (pal : PalletConfig)
    (v0 : BoxType) (vs : list BoxType) :
  validBoxes (entriesOf boxes) = v0 :: vs ->
  (0 < p_width pal)%Q -> (0 < p_depth pal)%Q ->
  positiveDeck (p_width pal) (p_depth pal) (footprint0 v0) (footprint90 v0)
  /\ (0 < b_height v0)%Q.
Proof.
  intros Hvalid Hw Hd.
  assert (v0 ∈ validBoxes (entriesOf boxes)) as Hv0
    by (rewrite Hvalid; apply elem_of_cons; left; reflexivity).
  apply validBoxes_positive in Hv0 as (_ & Hl & Hwd & Hh & _).
  unfold positiveDeck. simpl. auto 10.
Qed.

Lemma Forall2_totalBoxes (R : Z -> PalletResult -> Prop) (ts : list Z)
    (prs : list PalletResult) :
  Forall2 (fun t pr => pr_totalBoxes pr = t /\ R t pr) ts prs ->
  pr_totalBoxes <$> prs = ts.
Proof.
  induction 1 as [|t pr ts prs (Ht & _) _ IH]; [reflexivity|].
  rewrite fmap_cons, IH, Ht. reflexivity.
Qed.

(** The pallets of a successful run: each carries its target, within what
    its layers hold, and the targets add up to the quantity. *)
Lemma palletsFor_facts (pal : PalletConfig) (v0 : BoxType) (Q : Z)
    (pattern : LayerPattern) :
  cellsMatch pattern ->
  0 < perLayer pattern ->
  0 < layersMaxOf pal (b_height v0) ->
  1 <= Q ->
  sumZ (pr_totalBoxes <$> palletsFor pal v0 Q pattern) = Q
  /\ Forall (fun pr =>
               pr_totalBoxes pr = Z.of_nat (length (placements pr))
               /\ boxesPerLayer pr = perLayer pattern
               /\ 0 <= layers pr <= layersMaxOf pal (b_height v0)
               /\ pr_totalBoxes pr <= boxesPerLayer pr * layers pr)
            (palletsFor pal v0 Q pattern).
Proof.
  intros Hcells HK HL HQ. unfold palletsFor.
  change (b_height (withQuantity v0 Q)) with (b_height v0).
  set (K := perLayer pattern) in *. set (L := layersMaxOf pal (b_height v0)) in *.
  set (P := Z.max 1 (ceilDiv Q (Z.max 1 (K * L)))).
  assert (1 <= K * L) as Hcap by nia.
  assert (Q <= P * K * L) as Hfit
    by (rewrite <- Z.mul_assoc; apply minPallets_enough, Hcap).
  destruct (buildTargetsByFullLayers_facts Q P K L HQ ltac:(lia) ltac:(lia)
              ltac:(lia) Hfit) as (_ & Hsum & Hall).
  cbv zeta.
  pose proof (palletLoop_facts K L pattern (withQuantity v0 Q) pal
                (forallb (fun t => Z.rem t K =? 0) (buildTargetsByFullLayers Q P K L))
                (buildTargetsByFullLayers Q P K L) eq_refl Hcells HK Hall 0 0%nat)
    as Hloop.
  split.
  - rewrite (Forall2_totalBoxes _ _ _ Hloop). exact Hsum.
  - apply Forall2_Forall_r with (1 := Hloop).
    apply Forall_forall. intros t _ pr (Ht & Hlen & HbK & Hlay & Hcov).
    rewrite HbK, Ht. repeat split; try apply Hlay; try assumption. congruence.
Qed.

(** C1.  Whenever [performCalc] returns a result without an error, the
    [totalBoxes] of the returned pallets add up to the sum of the quantities
    of the valid input boxes. *)
Theorem performCalc_conserves_quantity (boxes : boxesArg)
    (pallet : option PalletConfig) (r : CalculationResult) :
  performCalc boxes pallet = Normal r ->
  error r = None ->
  sumZ (pr_totalBoxes <$> pallets r)
  = sumZ (b_quantity <$> validBoxes (entriesOf boxes)).
Proof.
  intros Hrun Herr.
  destruct (performCalc_success boxes pallet r Hrun Herr)
    as (pal & v0 & vs & pattern & -> & Hvalid & Hw & Hd & Hpat & HL & ->).
  destruct (valid_positiveDeck boxes pal v0 vs Hvalid Hw Hd) as (Hpos & _).
  destruct (chooseBestLayerPattern_cellsMatch _ _ _ _ _ _ Hpos Hpat) as (Hcells & HK).
  apply palletsFor_facts; try assumption.
  eapply totalQuantity_ge_1; eassumption.
Qed.

Lemma performCalc_conserves_quantity_witness :
  exists r,
    performCalc unevenBoxes (Some unevenPallet) = Normal r
    /\ error r = None
    /\ sumZ (pr_totalBoxes <$> pallets r)
       = sumZ (b_quantity <$> validBoxes (entriesOf unevenBoxes)).
Proof.
  pose (c := performCalc unevenBoxes (Some unevenPallet)).
  destruct c as [r|e] eqn:Hrun; [|vm_compute in Hrun; discriminate].
  assert (error r = None) as Herr
    by (vm_compute in Hrun; injection Hrun as <-; reflexivity).
  exists r. split; [exact Hrun|]. split; [exact Herr|].
  exact (performCalc_conserves_quantity unevenBoxes (Some unevenPallet) r Hrun Herr).
Defined.

(** C6, as stated, fails: with a clearance of 0.9999995 under a unit box the
    run stacks one layer, and [floor (0.9999995 / 1)] is 0. *)
Lemma capacity_bound_counterexample :
  ~ capacityBoundAsStated tightBoxes tightPallet 1.
Proof.
  intros Hclaim.
  pose (c := performCalc tightBoxes (Some tightPallet)).
  destruct c as [r|e] eqn:Hrun; [|vm_compute in Hrun; discriminate].
  assert (error r = None) as Herr
    by (vm_compute in Hrun; injection Hrun as <-; reflexivity).
  assert (exists p, p ∈ pallets r /\ boxesPerLayer p = 1 /\ layers p = 1)
    as (p & Hp & HK & Hlay).
  { vm_compute in Hrun. injection Hrun as <-. eexists. split.
    - apply elem_of_cons. left. reflexivity.
    - split; reflexivity. }
  destruct (Hclaim r Hrun Herr p Hp) as (_ & Hbound).
  rewrite HK, Hlay in Hbound. vm_compute in Hbound. apply Hbound. reflexivity.
Qed.

(** C6, amended.  For every pallet of a result without error, [totalBoxes]
    is at most [boxesPerLayer * layers], and [layers] is at most
    [floor ((maxHeight - deckHeight + EPS) / boxHeight)] for the height of
    the first valid box, so that
    [boxesPerLayer * layers <= boxesPerLayer * floor (...)]. *)
Theorem performCalc_capacity_bound (boxes : boxesArg) (pallet : PalletConfig)
    (v0 : BoxType) (r : CalculationResult) (p : PalletResult) :
  performCalc boxes (Some pallet) = Normal r ->
  error r = None ->
  head (validBoxes (entriesOf boxes)) = Some v0 ->
  p ∈ pallets r ->
  pr_totalBoxes p <= boxesPerLayer p * layers p
  /\ boxesPerLayer p * layers p
     <= boxesPerLayer p
        * floorQ (p_maxHeight pallet - p_height pallet + EPS) (b_height v0).
Proof.
  intros Hrun Herr Hhead Hp.
  destruct (performCalc_success boxes (Some pallet) r Hrun Herr)
    as (pal & v0' & vs & pattern & Hpal & Hvalid & Hw & Hd & Hpat & HL & Hprs).
  injection Hpal as <-.
  rewrite Hvalid in Hhead. injection Hhead as ->.
  destruct (valid_positiveDeck boxes pallet v0 vs Hvalid Hw Hd) as (Hpos & _).
  destruct (chooseBestLayerPattern_cellsMatch _ _ _ _ _ _ Hpos Hpat) as (Hcells & HK).
  destruct (palletsFor_facts pallet v0 (totalQuantity boxes) pattern Hcells HK HL
              (totalQuantity_ge_1 _ _ _ Hvalid)) as (_ & Hall).
  rewrite <- Hprs in Hall. rewrite Forall_forall in Hall.
  destruct (Hall p Hp) as (_ & HbK & Hlay & Hcov).
  split; [assumption|]. unfold layersMaxOf in Hlay.
  apply Z.mul_le_mono_nonneg_l; lia.
Qed.

Lemma performCalc_capacity_bound_witness :
  exists r p,
    performCalc tightBoxes (Some tightPallet) = Normal r
    /\ error r = None
    /\ head (validBoxes (entriesOf tightBoxes)) = Some (sampleBox 1 1 1 1)
    /\ p ∈ pallets r
    /\ pr_totalBoxes p <= boxesPerLayer p * layers p.
Proof.
  pose (c := performCalc tightBoxes (Some tightPallet)).
  destruct c as [r|e] eqn:Hrun; [|vm_compute in Hrun; discriminate].
  assert (error r = None) as Herr
    by (vm_compute in Hrun; injection Hrun as <-; reflexivity).
  assert (exists p, p ∈ pallets r) as (p & Hp).
  { vm_compute in Hrun. injection Hrun as <-. eexists.
    apply elem_of_cons. left. reflexivity. }
  exists r, p. repeat split; try assumption; try reflexivity.
  exact (proj1 (performCalc_capacity_bound tightBoxes tightPallet
                  (sampleBox 1 1 1 1) r p Hrun Herr eq_refl Hp)).
Defined.

(** ** Clamping *)

(** One axis of the clamp: where the extent leaves [2 * EPS] of the deck
    free, the clamped centre keeps the extent strictly inside. *)
Lemma clamp_strictly_inside (c ext deck : Q) :
  (ext + 2 * EPS <= deck)%Q ->
  (Qabs (Qmax (- (deck / 2) + ext / 2 + EPS)
              (Qmin (deck / 2 - ext / 2 - EPS) c)) + ext / 2 < deck / 2)%Q.
Proof.
  intros Hext.
  assert (0 < EPS)%Q as Heps by reflexivity.
  set (lo := (- (deck / 2) + ext / 2 + EPS)%Q).
  set (hi := (deck / 2 - ext / 2 - EPS)%Q).
  assert (lo <= hi)%Q as Hlohi by (unfold lo, hi; qhalves).
  assert (lo <= Qmax lo (Qmin hi c) <= hi)%Q as Hin.
  { split; [apply Q.le_max_l|].
    apply Q.max_lub; [assumption | apply Q.le_min_l]. }
  assert (Qabs (Qmax lo (Qmin hi c)) <= hi)%Q as Habs.
  { apply Qabs_Qle_condition. destruct Hin as [Hlo Hhi].
    split; [|assumption].
    apply Qle_trans with (y := lo); [unfold lo, hi; qhalves | assumption]. }
  apply Qle_lt_trans with (y := (hi + ext / 2)%Q).
  - apply Qplus_le_l. exact Habs.
  - unfold hi. qhalves.
Qed.

(** Where a box leaves [2 * EPS] of the deck free along both axes, the
    clamped centre keeps its footprint strictly inside the deck. *)
Lemma clampCenterInsidePallet_inside (cx cz l w palletW palletD : Q) :
  (l + 2 * EPS <= palletW)%Q -> (w + 2 * EPS <= palletD)%Q ->
  (Qabs (clampCenterInsidePallet cx cz l w palletW palletD).1 + l / 2 < palletW / 2)%Q
  /\ (Qabs (clampCenterInsidePallet cx cz l w palletW palletD).2 + w / 2 < palletD / 2)%Q.
Proof.
  intros Hl Hw. unfold clampCenterInsidePallet. simpl.
  assert (0 < EPS)%Q as Heps by reflexivity.
  split; apply clamp_strictly_inside; assumption.
Qed.

(** C7 fails on the code: a box as long as the deck is wide is placed with
    its centre at [x = EPS], so its footprint passes the deck's edge by
    [EPS]: [|x| + len/2 = width/2 + EPS]. *)
Lemma clamp_overhang_at_full_width :
  exists bp,
    firstPlacement (performCalc fullWidthBoxes (Some standardPallet)) = Some bp
    /\ (bp_x bp == EPS)%Q
    /\ (p_width standardPallet / 2 < Qabs (bp_x bp) + 48 / 2)%Q.
Proof.
  eexists. split; [vm_compute; reflexivity|].
  split; reflexivity.
Qed.

(** ** The public entry point *)

(** A result that carries an error is an [emptyResult]. *)
Lemma performCalc_error_empty (boxes : boxesArg) (pallet : option PalletConfig)
    (r : CalculationResult) :
  performCalc boxes pallet = Normal r ->
  error r <> None ->
  exists msg, r = emptyResult msg.
Proof.
  unfold performCalc. intros Hrun Herr.
  repeat match type of Hrun with
  | Normal (emptyResult ?m) = Normal _ =>
      injection Hrun as <-; exists m; reflexivity
  | Throw _ = Normal _ => discriminate
  | Normal _ = Normal _ => injection Hrun as <-; simpl in Herr; congruence
  | (match ?x with _ => _ end) = _ => destruct x
  | _ => progress cbv zeta in Hrun
  end.
Qed.

(** C10.  The pattern string has no effect on the outcome. *)
Theorem calculateMultiPalletLayout_ignores_pattern (boxes : boxesArg)
    (pallet : option PalletConfig) (s1 s2 : string) :
  calculateMultiPalletLayout boxes pallet s1
  = calculateMultiPalletLayout boxes pallet s2.
Proof. reflexivity. Qed.

(** ** One box more than a layer *)

(** C9, as stated, fails: for nine boxes of 5 x 3 on a deck of 13 x 10 the
    selected layer holds eight; the ninth box lies on the cell at
    [(0, 1/2)], where no grid corner is: the cells with least [x] start at
    [z = 1/2] and the least [z] is 0. *)
Lemma scenarioE_counterexample :
  ~ scenarioEAsStated unevenBoxes unevenPallet (sampleBox 5 3 1 9).
Proof.
  intros Hclaim.
  pose (c := performCalc unevenBoxes (Some unevenPallet)).
  destruct c as [r|e] eqn:Hrun; [|vm_compute in Hrun; discriminate].
  assert (error r = None) as Herr
    by (vm_compute in Hrun; injection Hrun as <-; reflexivity).
  destruct (Hclaim r unevenPattern Hrun Herr unevenPattern_selected
              ltac:(reflexivity) ltac:(vm_compute; discriminate))
    as (p & Hp & _ & _ & top & Htop & Hcorner).
  vm_compute in Hrun. injection Hrun as <-.
  injection Hp as <-.
  vm_compute in Htop. injection Htop as <-.
  vm_compute in Hcorner. discriminate.
Qed.

Lemma foldl_Qmin_least (l : list Q) :
  forall a,
    (foldl Qmin a l <= a)%Q
    /\ (forall x, x ∈ l -> (foldl Qmin a l <= x)%Q)
    /\ ((foldl Qmin a l == a)%Q \/ exists x, x ∈ l /\ (foldl Qmin a l == x)%Q).
Proof.
  induction l as [|y l IH]; intros a; simpl.
  - split; [apply Qle_refl|]. split; [|left; reflexivity].
    intros x Hx. apply elem_of_nil in Hx. contradiction.
  - destruct (IH (Qmin a y)) as (Hle & Hall & Hex).
    pose proof (Q.le_min_l a y) as Hl. pose proof (Q.le_min_r a y) as Hr.
    split; [eapply Qle_trans; eassumption|]. split.
    + intros x Hx. apply elem_of_cons in Hx as [->|Hx]; [|auto].
      eapply Qle_trans; eassumption.
    + destruct Hex as [Heq|(x & Hx & Heq)].
      * destruct (Q.min_spec a y) as [[_ Hm]|[_ Hm]].
        -- left. rewrite Heq. exact Hm.
        -- right. exists y. split; [apply elem_of_cons; left; reflexivity|].
           rewrite Heq. exact Hm.
      * right. exists x. split; [apply elem_of_cons; right; assumption|assumption].
Qed.

Lemma foldl_Qmin_isLeast (f : Cell -> Q) (c0 : Cell) (rest : list Cell) :
  isLeast f (c0 :: rest) (foldl Qmin (f c0) (f <$> rest)).
Proof.
  destruct (foldl_Qmin_least (f <$> rest) (f c0)) as (Hle & Hall & Hex).
  split.
  - intros c Hc. apply elem_of_cons in Hc as [->|Hc]; [assumption|].
    apply Hall, list_elem_of_fmap_2, Hc.
  - destruct Hex as [Heq|(x & Hx & Heq)].
    + exists c0. split; [apply elem_of_cons; left; reflexivity|].
      symmetry. exact Heq.
    + apply list_elem_of_fmap_1 in Hx as (c & -> & Hc).
      exists c. split; [apply elem_of_cons; right; assumption|].
      symmetry. exact Heq.
Qed.

Lemma isLeast_unique (f : Cell -> Q) (cells : list Cell) (v w : Q) :
  isLeast f cells v -> isLeast f cells w -> (v == w)%Q.
Proof.
  intros (Hv & cv & Hcv & Hfv) (Hw & cw & Hcw & Hfw).
  apply Qle_antisym.
  - rewrite <- Hfw. apply Hv, Hcw.
  - rewrite <- Hfv. apply Hw, Hcv.
Qed.

(** The equality test against a least value, as the corner tests make it,
    says that the cell has a least value. *)
Lemma least_test (f : Cell -> Q) (cells : list Cell) (m : Q) (c : Cell) :
  isLeast f cells m -> c ∈ cells ->
  Qeq_bool (f c) m = forallb (fun c' => Qle_bool (f c) (f c')) cells.
Proof.
  intros (Hm & cm & Hcm & Hfm) Hc.
  apply eq_true_iff_eq. rewrite Qeq_bool_iff, forallb_forall. split.
  - intros Heq c' Hc'. apply Qle_bool_iff. rewrite Heq.
    apply Hm, list_elem_of_In, Hc'.
  - intros Hall. apply Qle_antisym; [|apply Hm, Hc].
    rewrite <- Hfm. apply Qle_bool_iff, Hall, list_elem_of_In, Hcm.
Qed.

Lemma dist2_proper (c : Cell) (px pz px' pz' : Q) :
  (px == px')%Q -> (pz == pz')%Q -> (dist2 c px pz == dist2 c px' pz')%Q.
Proof. intros Hx Hz. unfold dist2. rewrite Hx, Hz. reflexivity. Qed.

Lemma edgesLoop_full score (cells : list Cell) (r : Z) (fuel : nat)
    (st : pickState) :
  r <= Z.of_nat (length (snd st)) -> edgesLoop score cells r fuel st = st.
Proof.
  intros Hr. destruct fuel; simpl; [reflexivity|].
  destruct (Z.ltb_spec (Z.of_nat (length (snd st))) r); [lia|reflexivity].
Qed.

Lemma cornersLoop_full (cells : list Cell) (r : Z) (ks : list corner)
    (st : pickState) :
  r <= Z.of_nat (length (snd st)) -> cornersLoop cells r ks st = st.
Proof.
  intros Hr. destruct ks; simpl; [reflexivity|].
  destruct (Z.ltb_spec (Z.of_nat (length (snd st))) r); [lia|reflexivity].
Qed.

(** Asked for one cell, the selector returns the front-left grid corner cell
    if the layer has one, and else a cell nearest to the front-left corner
    of the bounding box. *)
Lemma pickCornerEdgePartialCells_one (cells : list Cell) :
  cells <> [] ->
  exists c,
    pickCornerEdgePartialCells cells 1 = [c]
    /\ c ∈ cells
    /\ (if existsb (isFrontLeft cells) cells
        then isFrontLeft cells c = true
        else nearestFrontLeft cells c).
Proof.
  destruct cells as [|c0 rest]; [contradiction|]. intros _.
  unfold pickCornerEdgePartialCells. simpl (1 <=? 0).
  unfold pickedIndices. cbv zeta.
  rewrite <- !(foldl_fmap Qmin _ rest).
  set (cells := c0 :: rest).
  pose proof (foldl_Qmin_isLeast cell_x c0 rest) as Hmx.
  pose proof (foldl_Qmin_isLeast cell_z c0 rest) as Hmz.
  set (mx := foldl Qmin (cell_x c0) (cell_x <$> rest)) in *.
  set (mz := foldl Qmin (cell_z c0) (cell_z <$> rest)) in *.
  fold cells in Hmx, Hmz.
  assert (forall a, a ∈ cells ->
            Qeq_bool (cell_x a) mx && Qeq_bool (cell_z a) mz = isFrontLeft cells a)
    as Htest.
  { intros a Ha. unfold isFrontLeft.
    rewrite (least_test cell_x cells mx a Hmx Ha),
            (least_test cell_z cells mz a Hmz Ha). reflexivity. }
  assert (forall i, (i < length cells)%nat -> i ∈ seq 0 (length cells)) as Hseq
    by (intros i Hi; apply elem_of_seq; lia).
  match goal with
  | |- context [cornersLoop cells 1 (?k :: ?ks) ?st] =>
      change (cornersLoop cells 1 (k :: ks) st)
        with (cornersLoop cells 1 ks (pickCorner cells k st));
      set (k0 := k); set (st0 := st)
  end.
  assert (exists i c,
            pickCorner cells k0 st0 = pushPicked i st0
            /\ cells !! i = Some c
            /\ (if existsb (isFrontLeft cells) cells
                then isFrontLeft cells c = true
                else nearestFrontLeft cells c)) as (i & c & Hpick & Hc & Hwhich).
  { unfold pickCorner.
    destruct (findIndexFrom _ 0%nat cells) as [idx|] eqn:Hfind.
    - apply findIndexFrom_Some in Hfind as (_ & (a & Ha & Hp) & _).
      rewrite Nat.sub_0_r in Ha.
      apply andb_true_iff in Hp as [_ Hp]. simpl in Hp.
      assert (a ∈ cells) as Hin by (eapply list_elem_of_lookup_2; eassumption).
      rewrite (Htest a Hin) in Hp.
      exists idx, a. split; [reflexivity|]. split; [assumption|].
      assert (existsb (isFrontLeft cells) cells = true) as ->
        by (apply existsb_exists; exists a; split;
            [apply list_elem_of_In; assumption | assumption]).
      assumption.
    - pose proof (findIndexFrom_None _ _ _ Hfind) as Hnone.
      assert (existsb (isFrontLeft cells) cells = false) as ->.
      { apply not_true_iff_false. intros Hex.
        apply existsb_exists in Hex as (a & Ha & Hfl).
        apply list_elem_of_In in Ha.
        pose proof Ha as Hin. apply list_elem_of_lookup_1 in Ha as (j & Hj).
        specialize (Hnone j a Hj). simpl in Hnone.
        rewrite (Htest a Hin), Hfl, andb_true_r in Hnone.
        apply bool_decide_eq_false in Hnone. apply Hnone, Hseq.
        eapply lookup_lt_Some; eassumption. }
      pose proof (leastOver_leastOf
                    (fun c => dist2 c (fst (snd k0)) (snd (snd k0))) cells (fst st0))
        as Hleast.
      destruct (leastOver _ cells (fst st0)) as [[b d]|].
      + destruct Hleast as (Hb & cb & Hcb & -> & Hmin).
        exists b, cb. split; [reflexivity|]. split; [assumption|].
        intros px pz Hpx Hpz c' Hc'.
        pose proof (isLeast_unique _ _ _ _ Hpx Hmx) as Hx.
        pose proof (isLeast_unique _ _ _ _ Hpz Hmz) as Hz.
        rewrite (dist2_proper cb _ _ _ _ Hx Hz), (dist2_proper c' _ _ _ _ Hx Hz).
        apply list_elem_of_lookup_1 in Hc' as (j & Hj).
        apply (Hmin j c'); [|assumption].
        apply Hseq. eapply lookup_lt_Some; eassumption.
      + exfalso. specialize (Hleast 0%nat (Hseq 0%nat ltac:(simpl; lia))).
        discriminate. }
  rewrite Hpick.
  rewrite cornersLoop_full by (simpl; lia).
  rewrite edgesLoop_full by (simpl; lia).
  exists c. simpl. rewrite Hc. simpl.
  split; [reflexivity|]. split; [|assumption].
  eapply list_elem_of_lookup_2; eassumption.
Qed.

Lemma placeCells_one (base : BoxType) (pallet : PalletConfig) (li : Z)
    (c : Cell) (idCounter : nat) :
  placeCells base pallet li [c] idCounter
  = ([placeCell base pallet li c idCounter], S idCounter).
Proof. reflexivity. Qed.

Lemma placeCell_layer (base : BoxType) (pallet : PalletConfig) (li : Z)
    (c : Cell) (idCounter : nat) :
  bp_layer (placeCell base pallet li c idCounter) = li.
Proof.
  unfold placeCell. destruct (clampCenterInsidePallet _ _ _ _ _ _). reflexivity.
Qed.

(** A pallet that receives one box more than a layer holds, under room for
    two layers: a full layer 0 and, as layer 1, the one cell that the
    selector picks. *)
Lemma buildPlacementsForPallet_one_over (L : Z) (pattern : LayerPattern)
    (base : BoxType) (pallet : PalletConfig) (idCounter : nat) (allFull : bool) :
  cellsMatch pattern ->
  0 < perLayer pattern ->
  2 <= L ->
  exists bottom c id,
    (buildPlacementsForPallet (perLayer pattern + 1) L pattern base pallet
                              idCounter allFull).1
    = (bottom ++ [placeCell base pallet 1 c id], 2)
    /\ Z.of_nat (length bottom) = perLayer pattern
    /\ Forall (fun bp => bp_layer bp = 0) bottom
    /\ pickCornerEdgePartialCells
         (materializeLayerCells pattern (p_width pallet) (p_depth pallet)) 1 = [c].
Proof.
  intros Hcells HK HL. unfold buildPlacementsForPallet.
  specialize (Hcells (p_width pallet) (p_depth pallet)).
  set (cells := materializeLayerCells pattern (p_width pallet) (p_depth pallet)) in *.
  set (K := perLayer pattern) in *.
  rewrite (Z.max_r 1 K) by lia.
  assert (cells <> []) as Hne by (intros Heq; rewrite Heq in Hcells; simpl in Hcells; lia).
  destruct (pickCornerEdgePartialCells_one cells Hne) as (c & Hpick & Hc & _).
  destruct (placeCells_facts base pallet 0 cells idCounter) as (Hlen0 & Hall0).
  destruct (decide (K = 1)) as [HK1|HK1].
  - rewrite HK1 in *. change ((1 + 1) / 1) with 2. rewrite (Z.min_l 2 L) by lia.
    change (Z.to_nat 2) with 2%nat. simpl fillFullLayers. fold cells.
    clearbody cells.
    destruct cells as [|c1 [|c2 cells']]; simpl in Hcells; try lia.
    apply list_elem_of_singleton in Hc. subst c1.
    rewrite !placeCells_one. simpl.
    exists [placeCell base pallet 0 c idCounter], c, (S idCounter).
    split; [reflexivity|]. split; [reflexivity|]. split; [|assumption].
    constructor; [apply placeCell_layer | constructor].
  - assert ((K + 1) / K = 1) as ->
      by (symmetry; apply (Z.div_unique_pos (K + 1) K 1 1); lia).
    rewrite (Z.min_l 1 L) by lia.
    change (Z.to_nat 1) with 1%nat. simpl fillFullLayers. fold cells.
    clearbody cells.
    destruct (placeCells base pallet 0 cells idCounter) as [ps idc1].
    simpl in Hlen0, Hall0.
    replace (K + 1 - Z.of_nat 1 * K) with 1 by lia.
    change (0 <? 1) with true. change (Z.of_nat 1) with 1.
    destruct (Z.ltb_spec 1 L); [|lia]. simpl andb. cbv iota.
    rewrite Hpick, placeCells_one. simpl.
    exists (ps ++ []), c, idc1.
    split; [reflexivity|]. rewrite app_nil_r.
    split; [lia|]. split; [assumption | reflexivity].
Qed.

Lemma onLayer_app (k : Z) (ps qs : list BoxPlacement) :
  onLayer k (ps ++ qs) = onLayer k ps ++ onLayer k qs.
Proof. apply List.filter_app. Qed.

Lemma onLayer_all (k : Z) (ps : list BoxPlacement) :
  Forall (fun bp => bp_layer bp = k) ps -> onLayer k ps = ps.
Proof.
  induction 1 as [|bp ps Hbp _ IH]; [reflexivity|].
  unfold onLayer in *. simpl. rewrite Hbp, Z.eqb_refl, IH. reflexivity.
Qed.

Lemma onLayer_none (k k' : Z) (ps : list BoxPlacement) :
  k <> k' -> Forall (fun bp => bp_layer bp = k') ps -> onLayer k ps = [].
Proof.
  intros Hne. induction 1 as [|bp ps Hbp _ IH]; [reflexivity|].
  unfold onLayer in *. simpl. rewrite Hbp.
  destruct (Z.eqb_spec k' k); [congruence|]. exact IH.
Qed.

Lemma ceilDiv_one (a b : Z) : 1 <= a <= b -> ceilDiv a b = 1.
Proof.
  intros Hab. unfold ceilDiv.
  assert (- a / b = -1) as ->; [|reflexivity].
  symmetry. apply (Z.div_unique_pos (- a) b (-1) (b - a)); lia.
Qed.

(** The pallets of a run whose quantity is one more than a layer holds,
    under room for two layers. *)
Lemma palletsFor_one_over (pal : PalletConfig) (v0 : BoxType)
    (pattern : LayerPattern) :
  cellsMatch pattern ->
  0 < perLayer pattern ->
  2 <= layersMaxOf pal (b_height v0) ->
  exists p bottom c id,
    palletsFor pal v0 (perLayer pattern + 1) pattern = [p]
    /\ layers p = 2
    /\ placements p
       = bottom ++ [placeCell (withQuantity v0 (perLayer pattern + 1)) pal 1 c id]
    /\ Z.of_nat (length bottom) = perLayer pattern
    /\ Forall (fun bp => bp_layer bp = 0) bottom
    /\ pickCornerEdgePartialCells
         (materializeLayerCells pattern (p_width pal) (p_depth pal)) 1 = [c].
Proof.
  intros Hcells HK HL. unfold palletsFor.
  change (b_height (withQuantity v0 _)) with (b_height v0).
  set (K := perLayer pattern) in *. set (L := layersMaxOf pal (b_height v0)) in *.
  assert (K + 1 <= K * L) as Hcap by nia.
  rewrite (Z.max_r 1 (K * L)) by lia.
  rewrite ceilDiv_one by lia. change (Z.max 1 1) with 1. cbv zeta.
  destruct (buildTargetsByFullLayers_facts (K + 1) 1 K L ltac:(lia) ltac:(lia)
              ltac:(lia) ltac:(lia) ltac:(lia)) as (Hlen & Hsum & _).
  destruct (buildTargetsByFullLayers (K + 1) 1 K L) as [|t [|t' ts]];
    simpl in Hlen; try discriminate.
  rewrite sumZ_cons in Hsum. change (sumZ []) with 0 in Hsum.
  assert (t = K + 1) as -> by lia.
  set (allFull := forallb _ _). simpl palletLoop.
  rewrite (Z.min_l (K + 1) (K * L)) by lia.
  destruct (buildPlacementsForPallet_one_over L pattern
              (withQuantity v0 (K + 1)) pal 0%nat allFull Hcells HK HL)
    as (bottom & c & id & Hbuild & Hbottom & Hall & Hpick).
  fold K in Hbuild, Hbottom.
  destruct (buildPlacementsForPallet (K + 1) L pattern (withQuantity v0 (K + 1))
              pal 0%nat allFull) as [[ps used] idc].
  simpl in Hbuild. injection Hbuild as -> ->. simpl.
  eexists _, bottom, c, id. split; [reflexivity|]. simpl.
  repeat split; assumption.
Qed.

(** C9, amended.  For every valid input whose aggregate quantity is [K + 1],
    [K] the capacity of the selected pattern, and whose envelope has room
    for at least two layers, the result has exactly one pallet, with 2 layers;
    layer 0 holds [K] placements and layer 1 exactly one, on a cell of the
    layer: the front-left grid corner cell if the layer has one, and
    otherwise a cell nearest to the front-left corner of the layer's
    bounding box. *)
Theorem performCalc_one_over_a_layer (boxes : boxesArg) (pallet : PalletConfig)
    (v0 : BoxType) (r : CalculationResult) (pattern : LayerPattern) :
  performCalc boxes (Some pallet) = Normal r ->
  error r = None ->
  head (validBoxes (entriesOf boxes)) = Some v0 ->
  chooseBestLayerPattern (p_width pallet) (p_depth pallet)
    (footprint0 v0) (footprint90 v0) (totalQuantity boxes) = Some pattern ->
  totalQuantity boxes = perLayer pattern + 1 ->
  2 <= floorQ (p_maxHeight pallet - p_height pallet + EPS) (b_height v0) ->
  let cells := materializeLayerCells pattern (p_width pallet) (p_depth pallet) in
  exists p,
    pallets r = [p]
    /\ layers p = 2
    /\ Z.of_nat (length (onLayer 0 (placements p))) = perLayer pattern
    /\ exists c id,
         onLayer 1 (placements p)
         = [placeCell (withQuantity v0 (totalQuantity boxes)) pallet 1 c id]
         /\ c ∈ cells
         /\ (if existsb (isFrontLeft cells) cells
             then isFrontLeft cells c = true
             else nearestFrontLeft cells c).
Proof.
  intros Hrun Herr Hhead Hpat HQ HL cells.
  destruct (performCalc_success boxes (Some pallet) r Hrun Herr)
    as (pal & v0' & vs & pattern' & Hpal & Hvalid & Hw & Hd & Hpat' & _ & Hprs).
  injection Hpal as <-.
  rewrite Hvalid in Hhead. injection Hhead as ->.
  rewrite Hpat in Hpat'. injection Hpat' as <-.
  destruct (valid_positiveDeck boxes pallet v0 vs Hvalid Hw Hd) as (Hpos & _).
  destruct (chooseBestLayerPattern_cellsMatch _ _ _ _ _ _ Hpos Hpat) as (Hcells & HK).
  rewrite HQ in Hprs |- *.
  destruct (palletsFor_one_over pallet v0 pattern Hcells HK HL)
    as (p & bottom & c & id & Hp & Hlay & Hps & Hbottom & Hall & Hpick).
  exists p. rewrite Hprs. split; [assumption|]. split; [assumption|].
  rewrite Hps, !onLayer_app.
  rewrite (onLayer_all 0 bottom Hall).
  rewrite (onLayer_none 1 0 bottom ltac:(lia) Hall).
  assert (Forall (fun bp => bp_layer bp = 1)
            [placeCell (withQuantity v0 (perLayer pattern + 1)) pallet 1 c id]) as Htop
    by (constructor; [apply placeCell_layer | constructor]).
  rewrite (onLayer_none 0 1 _ ltac:(lia) Htop), (onLayer_all 1 _ Htop).
  rewrite app_nil_r. split; [assumption|].
  exists c, id. split; [reflexivity|].
  assert (cells <> []) as Hne.
  { specialize (Hcells (p_width pallet) (p_depth pallet)). fold cells in Hcells.
    intros Heq. rewrite Heq in Hcells. simpl in Hcells. lia. }
  destruct (pickCornerEdgePartialCells_one cells Hne) as (c' & Hpick' & Hc' & Hwhich).
  fold cells in Hpick. rewrite Hpick in Hpick'. injection Hpick' as <-.
  split; assumption.
Qed.

Lemma performCalc_one_over_a_layer_witness :
  exists r,
    performCalc unevenBoxes (Some unevenPallet) = Normal r
    /\ error r = None
    /\ head (validBoxes (entriesOf unevenBoxes)) = Some (sampleBox 5 3 1 9)
    /\ totalQuantity unevenBoxes = perLayer unevenPattern + 1
    /\ 2 <= floorQ (p_maxHeight unevenPallet - p_height unevenPallet + EPS)
                   (b_height (sampleBox 5 3 1 9))
    /\ exists p, pallets r = [p] /\ layers p = 2.
Proof.
  pose (c := performCalc unevenBoxes (Some unevenPallet)).
  destruct c as [r|e] eqn:Hrun; [|vm_compute in Hrun; discriminate].
  assert (error r = None) as Herr
    by (vm_compute in Hrun; injection Hrun as <-; reflexivity).
  assert (2 <= floorQ (p_maxHeight unevenPallet - p_height unevenPallet + EPS)
                      (b_height (sampleBox 5 3 1 9))) as HL
    by (vm_compute; discriminate).
  exists r. do 3 (split; [assumption || reflexivity|]).
  split; [reflexivity|]. split; [exact HL|].
  destruct (performCalc_one_over_a_layer unevenBoxes unevenPallet
              (sampleBox 5 3 1 9) r unevenPattern Hrun Herr eq_refl
              unevenPattern_selected eq_refl HL) as (p & Hp & Hlay & _).
  exists p. split; assumption.
Defined.

(** * Further properties of the engine *)

(** ** The distribution keeps the total whatever the capacity *)





(** ** The partial selector on every count *)

(** A corner turn keeps the invariant also on an empty index set, where it
    picks nothing. *)
Lemma pickCorner_inv (cells : list Cell) (k : corner) (st : pickState) :
  pickInv (length cells) st ->
  pickInv (length cells) (pickCorner cells k st)
  /\ (length (pickCorner cells k st).2 <= S (length st.2))%nat.
Proof.
  intros Hinv. destruct (decide (st.1 = [])) as [Hemp|Hne].
  - assert (pickCorner cells k st = st) as ->; [|split; [assumption|lia]].
    unfold pickCorner.
    destruct (findIndexFrom _ 0%nat cells) as [idx|] eqn:Hfind.
    + apply findIndexFrom_Some in Hfind as (_ & (a & _ & Hp) & _).
      apply andb_true_iff in Hp as [Hin _]. apply bool_decide_eq_true in Hin.
      rewrite Hemp in Hin. apply elem_of_nil in Hin. contradiction.
    + rewrite Hemp. reflexivity.
  - destruct (pickCorner_picks cells k st Hinv Hne) as (i & Hi & ->).
    destruct (pushPicked_inv _ _ _ Hinv Hi) as (Hinv' & Hlen).
    split; [assumption | lia].
Qed.

Lemma cornersLoop_bound (cells : list Cell) (r : Z) (ks : list corner) :
  forall st,
    pickInv (length cells) st ->
    Z.of_nat (length st.2) <= r ->
    pickInv (length cells) (cornersLoop cells r ks st)
    /\ Z.of_nat (length (cornersLoop cells r ks st).2) <= r.
Proof.
  induction ks as [|k ks IH]; intros st Hinv Hr; simpl; [auto|].
  destruct (Z.ltb_spec (Z.of_nat (length st.2)) r) as [Hlt|Hge]; [|auto].
  destruct (pickCorner_inv cells k st Hinv) as (Hinv' & Hlen).
  apply IH; [assumption | lia].
Qed.

Lemma edgesLoop_bound score (cells : list Cell) (r : Z) (fuel : nat) :
  forall st,
    pickInv (length cells) st ->
    Z.of_nat (length st.2) <= r ->
    pickInv (length cells) (edgesLoop score cells r fuel st)
    /\ Z.of_nat (length (edgesLoop score cells r fuel st).2) <= r.
Proof.
  induction fuel as [|fuel IH]; intros st Hinv Hr; simpl; [auto|].
  destruct ((Z.of_nat (length st.2) <? r) && negb (length st.1 =? 0)%nat)
    eqn:Hcond; [|auto].
  apply andb_true_iff in Hcond as [Hlt Hne].
  apply Z.ltb_lt in Hlt. apply negb_true_iff, Nat.eqb_neq in Hne.
  assert (st.1 <> []) as Hne' by (intros Heq; rewrite Heq in Hne; auto).
  destruct (leastOver_picks score cells st Hinv Hne') as (b & d & -> & Hb).
  destruct (pushPicked_inv _ _ _ Hinv Hb) as (Hinv' & Hlen).
  apply IH; [assumption | lia].
Qed.

(** The indices picked for a count [r >= 0] on [n] cells: distinct, below
    [n], and [min r n] of them. *)
Lemma pickedIndices_count (c0 : Cell) (rest : list Cell) (r : Z) :
  0 <= r ->
  NoDup (pickedIndices c0 rest r)
  /\ Z.of_nat (length (pickedIndices c0 rest r))
     = Z.min r (Z.of_nat (length (c0 :: rest)))
  /\ forall i, i ∈ pickedIndices c0 rest r -> (i < length (c0 :: rest))%nat.
Proof.
  intros Hr. unfold pickedIndices.
  match goal with
  | |- context [cornersLoop ?cells r ?ks ?st0] =>
      destruct (cornersLoop_bound cells r ks st0 (pickInv_init _)) as (Hinv1 & Hle1);
      [simpl; lia|];
      set (st1 := cornersLoop cells r ks st0) in *
  end.
  match goal with
  | |- context [edgesLoop ?sc ?cells r ?fuel st1] =>
      destruct (edgesLoop_bound sc cells r fuel st1 Hinv1 Hle1) as (Hinv2 & Hle2);
      pose proof (edgesLoop_exits sc cells r fuel st1 Hinv1 (Nat.le_refl _)) as Hexit;
      set (st2 := edgesLoop sc cells r fuel st1) in *
  end.
  destruct Hinv2 as (_ & Hnd & _ & Hp & Hlen).
  split; [assumption|]. split; [|intros i Hi; apply Hp, Hi].
  apply andb_false_iff in Hexit as [Hfull|Hnone].
  - apply Z.ltb_ge in Hfull. lia.
  - apply negb_false_iff, Nat.eqb_eq in Hnone. lia.
Qed.

(** X2.  For every cell list and every count [r >= 0],
    [pickCornerEdgePartialCells] returns [min r n] cells of the [n] given, at
    pairwise distinct indices; asked for [n] or more it returns every cell
    exactly once, in the order of picking. *)
Theorem pickCornerEdgePartialCells_count (cells : list Cell) (r : Z) :
  0 <= r ->
  Z.of_nat (length (pickCornerEdgePartialCells cells r))
  = Z.min r (Z.of_nat (length cells))
  /\ (exists idxs : list nat,
        NoDup idxs
        /\ Forall2 (fun i c => cells !! i = Some c) idxs
                   (pickCornerEdgePartialCells cells r))
  /\ (Z.of_nat (length cells) <= r ->
      pickCornerEdgePartialCells cells r ≡ₚ cells).
Proof.
  intros Hr. unfold pickCornerEdgePartialCells.
  destruct (Z.leb_spec r 0) as [Hr0|Hrpos].
  { assert (r = 0) as -> by lia. simpl.
    split; [lia|]. split; [exists []; split; constructor|].
    intros Hn. destruct cells; [reflexivity | simpl in Hn; lia]. }
  destruct cells as [|c0 rest].
  { simpl. split; [lia|]. split; [exists []; split; constructor|]. reflexivity. }
  destruct (pickedIndices_count c0 rest r Hr) as (Hnd & Hlen & Hlt).
  set (idxs := pickedIndices c0 rest r) in *.
  assert (forall i, i ∈ idxs ->
            (c0 :: rest) !! i = Some (default c0 ((c0 :: rest) !! i))) as Hget.
  { intros i Hi.
    destruct (lookup_lt_is_Some_2 (c0 :: rest) i (Hlt i Hi)) as [c ->].
    reflexivity. }
  split; [rewrite length_fmap; exact Hlen|]. split.
  - exists idxs. split; [assumption|].
    apply Forall2_fmap_r, Forall_Forall2_diag, Forall_forall.
    intros i Hi. simpl. apply Hget, Hi.
  - intros Hn.
    assert (idxs ≡ₚ seq 0 (length (c0 :: rest))) as Hperm.
    { apply submseteq_length_Permutation.
      - apply NoDup_submseteq; [assumption|].
        intros i Hi. apply elem_of_seq. specialize (Hlt i Hi). lia.
      - rewrite length_seq. lia. }
    rewrite Hperm.
    assert ((fun i => default c0 ((c0 :: rest) !! i)) <$> seq 0 (length (c0 :: rest))
            = c0 :: rest) as ->; [|reflexivity].
    apply list_eq. intros j. rewrite list_lookup_fmap.
    destruct (decide (j < length (c0 :: rest))%nat) as [Hj|Hj].
    + rewrite lookup_seq_lt by assumption. simpl.
      destruct (lookup_lt_is_Some_2 (c0 :: rest) j Hj) as [c Hc].
      change (0 + j)%nat with j. rewrite Hc. reflexivity.
    + rewrite lookup_seq_ge by lia. simpl. symmetry.
      apply lookup_ge_None. lia.
Qed.

Lemma pickCornerEdgePartialCells_count_witness :
  0 <= 7
  /\ Z.of_nat (length (pickCornerEdgePartialCells sampleCells 7)) = 3.
Proof.
  assert (0 <= 7) as Hr by lia.
  split; [exact Hr|].
  exact (proj1 (pickCornerEdgePartialCells_count sampleCells 7 Hr)).
Defined.

(** ** The decisions of [performCalc] *)

Lemma performCalc_packValid (boxes : boxesArg) (pallet : PalletConfig) :
  palletRejected pallet = false ->
  performCalc boxes (Some pallet)
  = match boxes with
    | BNotArray => Throw "TypeError: (boxes || []).filter is not a function"
    | _ => Normal (packValid pallet (validBoxes (entriesOf boxes)))
    end.
Proof.
  unfold palletRejected, performCalc, packValid. intros ->.
  destruct boxes; [| |reflexivity];
    (destruct (validBoxes _) as [|v0 vs]; [reflexivity|]);
    cbv zeta; rewrite foldl_quantity, Z.add_0_l;
    unfold footprint0, footprint90, runResult, layersMaxOf;
    cbn [b_length b_width b_height withQuantity];
    (destruct (chooseBestLayerPattern _ _ _ _ _); [|reflexivity]);
    (destruct (perLayer _ =? 0); [reflexivity|]);
    (destruct (floorQ _ _ <=? 0); [reflexivity|]);
    cbv zeta;
    destruct (palletLoop _ _ _ _ _ _ _ _ _ _) as [[prs dist] idc]; reflexivity.
Qed.

Lemma performCalc_rejected (boxes : boxesArg) (pallet : PalletConfig) :
  palletRejected pallet = true ->
  performCalc boxes (Some pallet) = Normal (emptyResult "Invalid pallet configuration").
Proof. unfold palletRejected, performCalc. intros ->. reflexivity. Qed.

(** A run without error returns the assembled [runResult]. *)
Lemma performCalc_runResult (boxes : boxesArg) (pallet : option PalletConfig)
    (r : CalculationResult) :
  performCalc boxes pallet = Normal r ->
  error r = None ->
  exists pal v0 vs pattern,
    pallet = Some pal
    /\ palletRejected pal = false
    /\ validBoxes (entriesOf boxes) = v0 :: vs
    /\ chooseBestLayerPattern (p_width pal) (p_depth pal)
         (footprint0 v0) (footprint90 v0) (totalQuantity boxes) = Some pattern
    /\ cellsMatch pattern
    /\ 0 < perLayer pattern
    /\ 0 < layersMaxOf pal (b_height v0)
    /\ 1 <= totalQuantity boxes
    /\ r = runResult pal v0 (totalQuantity boxes) pattern.
Proof.
  intros Hrun Herr.
  destruct (performCalc_success boxes pallet r Hrun Herr)
    as (pal & v0 & vs & pattern & -> & Hvalid & Hw & Hd & Hpat & HL & _).
  destruct (valid_positiveDeck boxes pal v0 vs Hvalid Hw Hd) as (Hpos & _).
  destruct (chooseBestLayerPattern_cellsMatch _ _ _ _ _ _ Hpos Hpat) as (Hcells & HK).
  destruct (palletRejected pal) eqn:Hrej.
  { rewrite (performCalc_rejected boxes pal Hrej) in Hrun.
    injection Hrun as <-. discriminate. }
  exists pal, v0, vs, pattern.
  do 7 (split; [assumption || reflexivity|]).
  split; [eapply totalQuantity_ge_1; eassumption|].
  rewrite (performCalc_packValid boxes pal Hrej) in Hrun.
  destruct boxes as [|entries|]; [discriminate Hvalid| |discriminate Hrun].
  injection Hrun as <-.
  unfold totalQuantity in *. simpl entriesOf in *.
  unfold packValid. rewrite Hvalid in Hpat |- *. cbv zeta. rewrite Hpat.
  destruct (Z.eqb_spec (perLayer pattern) 0); [lia|].
  destruct (Z.leb_spec (layersMaxOf pal (b_height v0)) 0); [lia|].
  reflexivity.
Qed.

(** ** Ids and layers of the placements *)

Lemma placeCells_ids (base : BoxType) (pallet : PalletConfig) (li : Z)
    (cells : list Cell) :
  forall idCounter,
    placementId <$> (placeCells base pallet li cells idCounter).1
    = makeId base <$> seq idCounter (length cells)
    /\ (placeCells base pallet li cells idCounter).2
       = (idCounter + length cells)%nat.
Proof.
  induction cells as [|c cells IH]; intros n.
  - split; [reflexivity | simpl; lia].
  - destruct (IH (S n)) as (Hids & Hcnt). cbn [placeCells].
    destruct (placeCells base pallet li cells (S n)) as [ps n'].
    cbn [fst snd length seq] in *.
    split; [|lia]. rewrite !fmap_cons, Hids. reflexivity.
Qed.

Lemma fillFullLayers_ids (pattern : LayerPattern) (base : BoxType)
    (pallet : PalletConfig) (n : nat) :
  forall li idCounter,
    placementId <$> (fillFullLayers pattern base pallet n li idCounter).1
    = makeId base
        <$> seq idCounter (length (fillFullLayers pattern base pallet n li idCounter).1)
    /\ (fillFullLayers pattern base pallet n li idCounter).2
       = (idCounter + length (fillFullLayers pattern base pallet n li idCounter).1)%nat.
Proof.
  induction n as [|n IH]; intros li idc; simpl.
  - split; [reflexivity | lia].
  - destruct (placeCells_ids base pallet li
                (materializeLayerCells pattern (p_width pallet) (p_depth pallet)) idc)
      as (Hids1 & Hcnt1).
    destruct (placeCells_facts base pallet li
                (materializeLayerCells pattern (p_width pallet) (p_depth pallet)) idc)
      as (Hlen1 & _).
    destruct (placeCells base pallet li _ idc) as [ps idc1]. simpl in *.
    destruct (IH (li + 1) idc1) as (Hids2 & Hcnt2).
    destruct (fillFullLayers pattern base pallet n (li + 1) idc1) as [qs idc2].
    simpl in *. subst idc1.
    rewrite fmap_app, length_app, seq_app, fmap_app, Hids1, Hids2, Hlen1.
    split; [reflexivity | lia].
Qed.

(** The ids that one pallet hands out are consecutive from the counter, and
    its placements lie on the layers below [layersUsed]. *)
Lemma buildPlacementsForPallet_ids (t L : Z) (pattern : LayerPattern)
    (base : BoxType) (pallet : PalletConfig) (idCounter : nat) (allFull : bool) :
  let res := buildPlacementsForPallet t L pattern base pallet idCounter allFull in
  placementId <$> res.1.1 = makeId base <$> seq idCounter (length res.1.1)
  /\ res.2 = (idCounter + length res.1.1)%nat
  /\ Forall (fun bp => 0 <= bp_layer bp < res.1.2) res.1.1.
Proof.
  unfold buildPlacementsForPallet.
  set (K := Z.max 1 (perLayer pattern)).
  set (n := Z.to_nat (Z.min (t / K) L)).
  destruct (fillFullLayers_ids pattern base pallet n 0 idCounter) as (Hids1 & Hcnt1).
  destruct (fillFullLayers_facts pattern base pallet n 0 idCounter) as (_ & Hlay1).
  destruct (fillFullLayers pattern base pallet n 0 idCounter) as [full idc1].
  simpl in Hids1, Hcnt1, Hlay1.
  destruct ((0 <? t - Z.of_nat n * K) && (Z.of_nat n <? L)); simpl.
  - match goal with
    | |- context [placeCells base pallet ?li ?cs idc1] =>
        destruct (placeCells_ids base pallet li cs idc1) as (Hids2 & Hcnt2);
        destruct (placeCells_facts base pallet li cs idc1) as (Hlen2 & Hlay2);
        destruct (placeCells base pallet li cs idc1) as [part idc2]
    end.
    simpl in *. subst idc1.
    rewrite fmap_app, length_app, seq_app, fmap_app, Hids1, Hids2, Hlen2.
    split; [reflexivity|]. split; [lia|].
    apply Forall_app. split.
    + eapply Forall_impl; [exact Hlay1|]. simpl. intros bp Hbp. lia.
    + eapply Forall_impl; [exact Hlay2|]. simpl. intros bp ->. lia.
  - split; [assumption|]. split; [assumption|].
    eapply Forall_impl; [exact Hlay1|]. simpl. intros bp Hbp. lia.
Qed.

(** The fields of the pallets that the loop pushes, the entries it writes
    to the distribution, and the ids it hands out. *)
Lemma palletLoop_shape (K L cap : Z) (pattern : LayerPattern) (base : BoxType)
    (pallet : PalletConfig) (allFull : bool) (targets : list Z) :
  forall p idCounter,
    let res := palletLoop K L cap pattern base pallet allFull targets p idCounter in
    length res.1.1 = length targets
    /\ res.1.2 = (fun pr => (palletNumber pr, pr_totalBoxes pr)) <$> res.1.1
    /\ (forall (i : nat) pr, res.1.1 !! i = Some pr ->
          palletNumber pr = p + 1 + Z.of_nat i)
    /\ Forall (fun pr =>
                 pr_totalBoxes pr = Z.of_nat (length (placements pr))
                 /\ boxesPerLayer pr = K
                 /\ pr_totalWeight pr = (inject_Z (pr_totalBoxes pr) * b_weight base)%Q
                 /\ efficiency pr = efficiencyOf pallet base (pr_totalBoxes pr)
                 /\ totalHeight pr
                    = (p_height pallet + inject_Z (layers pr) * b_height base)%Q
                 /\ Forall (fun bp => 0 <= bp_layer bp < layers pr) (placements pr))
              res.1.1
    /\ placementId <$> concat (placements <$> res.1.1)
       = makeId base <$> seq idCounter (length (concat (placements <$> res.1.1))).
Proof.
  induction targets as [|t targets IH]; intros p idc; cbv zeta.
  - cbn [palletLoop fst snd]. repeat split; try constructor.
    intros i pr Hi. discriminate.
  - cbn [palletLoop].
    pose proof (buildPlacementsForPallet_ids (Z.min t cap) L pattern base pallet
                  idc allFull) as (Hids & Hcnt & Hlay).
    destruct (buildPlacementsForPallet (Z.min t cap) L pattern base pallet idc allFull)
      as [[ps used] idc1]. cbn [fst snd] in Hids, Hcnt, Hlay.
    specialize (IH (p + 1) idc1). cbv zeta in IH.
    destruct (palletLoop K L cap pattern base pallet allFull targets (p + 1) idc1)
      as [[prs dist] idc2]. cbn [fst snd] in *.
    destruct IH as (Hlen & Hdist & Hnum & Hall & Hids').
    split; [cbn [length]; f_equal; assumption|].
    split; [rewrite fmap_cons, Hdist; reflexivity|].
    split.
    { intros [|i] pr Hi; simpl in Hi.
      - injection Hi as <-. simpl. lia.
      - rewrite (Hnum i pr Hi). lia. }
    split.
    { constructor; [|assumption]. cbn. repeat split; assumption. }
    subst idc1. rewrite fmap_cons. cbn [concat placements].
    rewrite fmap_app, length_app, seq_app, fmap_app, Hids, Hids'. reflexivity.
Qed.

Lemma makeId_inj (base : BoxType) (n m : nat) :
  makeId base n = makeId base m -> n = m.
Proof.
  unfold makeId. intros Heq.
  apply (inj (String.app (b_id base))) in Heq.
  apply (inj (String.app "-")) in Heq.
  apply (f_equal NilEmpty.uint_of_string) in Heq.
  rewrite !NilEmpty.usu in Heq. injection Heq as Heq.
  apply DecimalNat.Unsigned.to_uint_inj, Heq.
Qed.

(** X3.  In a result without error no two placements, on one pallet or on
    different pallets, carry the same box id. *)
Theorem performCalc_ids_unique (boxes : boxesArg) (pallet : option PalletConfig)
    (r : CalculationResult) :
  performCalc boxes pallet = Normal r ->
  error r = None ->
  NoDup (placementId <$> allPlacements r).
Proof.
  intros Hrun Herr.
  destruct (performCalc_success boxes pallet r Hrun Herr)
    as (pal & v0 & vs & pattern & _ & _ & _ & _ & _ & _ & Hprs).
  unfold allPlacements. rewrite Hprs. unfold palletsFor. cbv zeta.
  match goal with
  | |- context [palletLoop ?K ?L ?cap ?pat ?base ?pl ?af ?ts ?p ?idc] =>
      destruct (palletLoop_shape K L cap pat base pl af ts p idc)
        as (_ & _ & _ & _ & Hids)
  end.
  rewrite Hids. apply NoDup_fmap_2_strong; [|apply NoDup_seq].
  intros n m _ _ Heq. eapply makeId_inj, Heq.
Qed.

Lemma performCalc_ids_unique_witness :
  exists r,
    performCalc unevenBoxes (Some unevenPallet) = Normal r
    /\ error r = None
    /\ length (allPlacements r) = 9%nat
    /\ NoDup (placementId <$> allPlacements r).
Proof.
  pose (c := performCalc unevenBoxes (Some unevenPallet)).
  destruct c as [r|e] eqn:Hrun; [|vm_compute in Hrun; discriminate].
  assert (error r = None) as Herr
    by (vm_compute in Hrun; injection Hrun as <-; reflexivity).
  assert (length (allPlacements r) = 9%nat) as Hlen
    by (vm_compute in Hrun; injection Hrun as <-; reflexivity).
  exists r. do 3 (split; [assumption|]).
  exact (performCalc_ids_unique unevenBoxes (Some unevenPallet) r Hrun Herr).
Defined.

(** ** Layers of a pallet and fields of a result *)

(** A pallet whose target is within its capacity uses exactly the layers
    that the target needs. *)
Lemma buildPlacementsForPallet_layers (t L : Z) (pattern : LayerPattern)
    (base : BoxType) (pallet : PalletConfig) (idCounter : nat) (allFull : bool) :
  0 < perLayer pattern ->
  0 <= t <= perLayer pattern * L ->
  let used := (buildPlacementsForPallet t L pattern base pallet idCounter allFull).1.2 in
  perLayer pattern * (used - 1) < t <= perLayer pattern * used
  \/ (t = 0 /\ used = 0).
Proof.
  intros HK Ht. cbv zeta. unfold buildPlacementsForPallet.
  set (K := perLayer pattern) in *.
  rewrite (Z.max_r 1 K) by lia.
  pose proof (Z.div_mod t K ltac:(lia)) as Hdm.
  pose proof (Z.mod_pos_bound t K ltac:(lia)) as Hm.
  assert (0 <= t / K) as Hq by (apply Z.div_pos; lia).
  assert (t / K <= L) as HqL by (apply Z.div_le_upper_bound; lia).
  rewrite (Z.min_l (t / K) L) by lia.
  rewrite Z2Nat.id by lia.
  destruct (fillFullLayers pattern base pallet (Z.to_nat (t / K)) 0 idCounter)
    as [full idc1].
  destruct (Z.ltb_spec 0 (t - t / K * K)) as [Hrem|Hrem]; simpl.
  - destruct (Z.ltb_spec (t / K) L) as [Hlt|Hge]; simpl.
    + destruct (placeCells base pallet (t / K) _ idc1) as [part idc2]. simpl.
      left. nia.
    + exfalso. nia.
  - destruct (Z.eq_dec t 0) as [->|Hne].
    + right. split; [reflexivity|]. apply Z.div_0_l. lia.
    + left. nia.
Qed.

Lemma palletLoop_layers (K L : Z) (pattern : LayerPattern) (base : BoxType)
    (pallet : PalletConfig) (allFull : bool) (targets : list Z) :
  K = perLayer pattern ->
  0 < K ->
  Forall (fun t => 0 <= t <= K * L) targets ->
  forall p idCounter,
    Forall2 (fun t pr =>
               K * (layers pr - 1) < t <= K * layers pr
               \/ (t = 0 /\ layers pr = 0))
            targets
            (palletLoop K L (K * L) pattern base pallet allFull targets p idCounter).1.1.
Proof.
  intros -> HK Hall.
  induction Hall as [|t targets Ht Hall IH]; intros p idc; cbn [palletLoop];
    [constructor|].
  rewrite (Z.min_l t) by lia.
  pose proof (buildPlacementsForPallet_layers t L pattern base pallet idc allFull
                HK Ht) as Hused.
  destruct (buildPlacementsForPallet t L pattern base pallet idc allFull)
    as [[ps used] idc1]. cbn [fst snd] in Hused.
  specialize (IH (p + 1) idc1).
  destruct (palletLoop (perLayer pattern) L (perLayer pattern * L) pattern base
              pallet allFull targets (p + 1) idc1) as [[prs dist] idc2].
  cbn [fst snd] in *. constructor; [|exact IH]. exact Hused.
Qed.

(** The fields of the assembled result. *)
Lemma runResult_fields (pal : PalletConfig) (v0 : BoxType) (Q : Z)
    (pattern : LayerPattern) :
  let r := runResult pal v0 Q pattern in
  pallets r = palletsFor pal v0 Q pattern
  /\ totalPallets r = Z.of_nat (length (pallets r))
  /\ totalBoxes r = sumZ (pr_totalBoxes <$> pallets r)
  /\ totalWeight r = foldl (fun s pr => (s + pr_totalWeight pr)%Q) 0%Q (pallets r)
  /\ boxDistribution r
     = [(b_sku v0, (fun pr => (palletNumber pr, pr_totalBoxes pr)) <$> pallets r)]
  /\ error r = None.
Proof.
  cbv zeta. unfold runResult, palletsFor. cbv zeta.
  match goal with
  | |- context [palletLoop ?K ?L ?cap ?pat ?base ?pl ?af ?ts ?p ?idc] =>
      destruct (palletLoop_shape K L cap pat base pl af ts p idc)
        as (_ & Hdist & _);
      destruct (palletLoop K L cap pat base pl af ts p idc) as [[prs dist] idc2]
  end.
  cbn [fst snd] in *. cbn. rewrite foldl_totalBoxes, Hdist.
  repeat split.
Qed.

(** The targets of a run with room for a layer: as many as the least number
    of pallets that hold the quantity, each within the capacity. *)
Lemma targetsFor_facts (pal : PalletConfig) (v0 : BoxType) (Q : Z)
    (pattern : LayerPattern) :
  0 < perLayer pattern ->
  0 < layersMaxOf pal (b_height v0) ->
  1 <= Q ->
  let cap := perLayer pattern * layersMaxOf pal (b_height v0) in
  let P := Z.of_nat (length (targetsFor pal v0 Q pattern)) in
  1 <= P
  /\ (P - 1) * cap < Q <= P * cap
  /\ P = Z.max 1 (ceilDiv Q (Z.max 1 cap))
  /\ sumZ (targetsFor pal v0 Q pattern) = Q
  /\ Forall (fun t => 0 <= t <= cap) (targetsFor pal v0 Q pattern).
Proof.
  intros HK HL HQ. cbv zeta. unfold targetsFor.
  set (K := perLayer pattern) in *. set (L := layersMaxOf pal (b_height v0)) in *.
  set (P := Z.max 1 (ceilDiv Q (Z.max 1 (K * L)))).
  assert (1 <= K * L) as Hcap by nia.
  assert (Q <= P * K * L) as Hfit
    by (rewrite <- Z.mul_assoc; apply minPallets_enough, Hcap).
  destruct (buildTargetsByFullLayers_facts Q P K L HQ ltac:(lia) ltac:(lia)
              ltac:(lia) Hfit) as (Hlen & Hsum & Hall).
  rewrite Hlen, Z2Nat.id by lia.
  split; [lia|]. split; [|auto].
  split; [|lia].
  unfold P, ceilDiv. rewrite (Z.max_r 1 (K * L)) by lia.
  pose proof (Z.div_mod (- Q) (K * L) ltac:(lia)) as Hdm.
  pose proof (Z.mod_pos_bound (- Q) (K * L) ltac:(lia)) as Hm.
  nia.
Qed.

Lemma palletsFor_length (pal : PalletConfig) (v0 : BoxType) (Q : Z)
    (pattern : LayerPattern) :
  length (palletsFor pal v0 Q pattern) = length (targetsFor pal v0 Q pattern).
Proof.
  unfold palletsFor, targetsFor. cbv zeta.
  match goal with
  | |- context [palletLoop ?K ?L ?cap ?pat ?base ?pl ?af ?ts ?p ?idc] =>
      destruct (palletLoop_shape K L cap pat base pl af ts p idc) as (Hlen & _)
  end.
  exact Hlen.
Qed.

(** The targets of a run are balanced: with [base] the floor share of full
    layers, every target lies between [base] and [base + 1] layers, every
    target but the last is a whole number of layers, and none is empty. *)
Lemma targetsFor_spread (pal : PalletConfig) (v0 : BoxType) (Q : Z)
    (pattern : LayerPattern) :
  0 < perLayer pattern ->
  0 < layersMaxOf pal (b_height v0) ->
  1 <= Q ->
  exists base,
    0 <= base
    /\ forall (i : nat) (t : Z),
         targetsFor pal v0 Q pattern !! i = Some t ->
         1 <= t
         /\ base * perLayer pattern <= t <= (base + 1) * perLayer pattern
         /\ ((S i < length (targetsFor pal v0 Q pattern))%nat ->
             exists l, t = l * perLayer pattern).
Proof.
  intros HK HL HQ.
  destruct (targetsFor_facts pal v0 Q pattern HK HL HQ)
    as (HP1 & HPcap & HPeq & _ & _).
  revert HP1 HPcap HPeq. unfold targetsFor.
  set (K := perLayer pattern) in *. set (L := layersMaxOf pal (b_height v0)) in *.
  set (P := Z.max 1 (ceilDiv Q (Z.max 1 (K * L)))).
  assert (1 <= K * L) as Hcap by nia.
  assert (1 <= P) as HP by lia.
  assert (Q <= P * K * L) as Hfit
    by (rewrite <- Z.mul_assoc; apply minPallets_enough, Hcap).
  destruct (buildTargetsByFullLayers_facts Q P K L HQ HP ltac:(lia) ltac:(lia) Hfit)
    as (Hlen & _ & _).
  rewrite buildTargetsByFullLayers_eq in * by (assumption || lia).
  cbv zeta in *. rewrite Hlen. intros _ HPcap HPeq.
  rewrite Z2Nat.id in HPcap, HPeq by lia.
  destruct (fullLayers_fit Q P K L HQ HP ltac:(lia) ltac:(lia) Hfit)
    as (HT0 & HTL & HQeq).
  pose proof (Z.mod_pos_bound Q K ltac:(lia)) as Hm.
  set (T := Q / K) in *.
  pose proof (Z.div_mod T P ltac:(lia)) as Hdm.
  pose proof (Z.mod_pos_bound T P ltac:(lia)) as Hmp.
  assert (0 <= T / P) as Hbase by (apply Z.div_pos; lia).
  assert ((P - 1) * L <= T) as Hmin by nia.
  assert (P - 1 <= T) as Hmin' by nia.
  assert (Q mod K = 0 -> P <= T) as Hfull by (intros Hz; nia).
  assert (forall i : nat, Z.of_nat i < P ->
            (Z.of_nat i < P - 1 \/ Q mod K = 0) ->
            1 <= evenLayers Q P K L i) as Hpos.
  { intros i Hi Hcase.
    rewrite (evenLayers_unclamped Q P K L HQ HP ltac:(lia) ltac:(lia) Hfit).
    fold T. destruct (Z.ltb_spec (Z.of_nat i) (T mod P)); [lia|].
    destruct (Z.eq_dec (T / P) 0) as [Hz|Hnz]; [|lia].
    exfalso. rewrite Hz in Hdm. destruct Hcase as [Hc|Hc]; [lia|].
    specialize (Hfull Hc). lia. }
  assert (forall i : nat,
            T / P <= evenLayers Q P K L i <= T / P + 1) as Hrange.
  { intros i.
    rewrite (evenLayers_unclamped Q P K L HQ HP ltac:(lia) ltac:(lia) Hfit).
    fold T. destruct (Z.of_nat i <? T mod P); lia. }
  exists (T / P). split; [assumption|].
  intros i t Hi.
  assert (Z.of_nat i < P) as HiP.
  { apply lookup_lt_Some in Hi.
    destruct (0 <? Q mod K);
      rewrite ?length_insert, !length_fmap, length_seq in Hi; lia. }
  destruct (Z.ltb_spec 0 (Q mod K)) as [Hrem|Hrem].
  - destruct (decide (i = (Z.to_nat P - 1)%nat)) as [->|Hne].
    + rewrite list_lookup_insert_eq in Hi
        by (rewrite !length_fmap, length_seq; lia).
      injection Hi as <-.
      split; [nia|]. split; [nia|]. lia.
    + rewrite list_lookup_insert_ne in Hi by congruence.
      rewrite !list_lookup_fmap, lookup_seq_lt in Hi by lia.
      simpl in Hi. injection Hi as <-.
      specialize (Hpos i HiP ltac:(lia)). specialize (Hrange i).
      split; [nia|]. split; [nia|]. intros _. eauto.
  - rewrite !list_lookup_fmap, lookup_seq_lt in Hi by lia.
    simpl in Hi. injection Hi as <-.
    specialize (Hpos i HiP ltac:(lia)). specialize (Hrange i).
    split; [nia|]. split; [nia|]. intros _. eauto.
Qed.

(** ** Properties of a result without error *)

Lemma run_facts (boxes : boxesArg) (pal : PalletConfig) (v0 : BoxType)
    (r : CalculationResult) :
  performCalc boxes (Some pal) = Normal r ->
  error r = None ->
  head (validBoxes (entriesOf boxes)) = Some v0 ->
  exists pattern,
    chooseBestLayerPattern (p_width pal) (p_depth pal)
      (footprint0 v0) (footprint90 v0) (totalQuantity boxes) = Some pattern
    /\ cellsMatch pattern
    /\ 0 < perLayer pattern
    /\ 0 < layersMaxOf pal (b_height v0)
    /\ 1 <= totalQuantity boxes
    /\ (0 < b_height v0)%Q
    /\ palletRejected pal = false
    /\ r = runResult pal v0 (totalQuantity boxes) pattern
    /\ pallets r = palletsFor pal v0 (totalQuantity boxes) pattern.
Proof.
  intros Hrun Herr Hhead.
  destruct (performCalc_runResult boxes (Some pal) r Hrun Herr)
    as (pal' & v0' & vs & pattern & Hpal & Hrej & Hvalid & Hpat & Hcells & HK
        & HL & HQ & Hr).
  injection Hpal as <-. rewrite Hvalid in Hhead. injection Hhead as ->.
  assert (v0 ∈ validBoxes (entriesOf boxes)) as Hv0
    by (rewrite Hvalid; apply elem_of_cons; left; reflexivity).
  apply validBoxes_positive in Hv0 as (_ & _ & _ & Hh & _).
  exists pattern. do 8 (split; [assumption|]).
  rewrite Hr. apply runResult_fields.
Qed.

Lemma Forall2_and_both {A B : Type} (P R : A -> B -> Prop) (l : list A)
    (k : list B) :
  Forall2 P l k -> Forall2 R l k -> Forall2 (fun a b => P a b /\ R a b) l k.
Proof.
  intros H1. induction H1 as [|a b l k Hab _ IH]; intros H2; [constructor|].
  apply Forall2_cons_1 in H2 as (Hr & H2). constructor; auto.
Qed.

(** Targets and pallets of a run side by side. *)
Lemma palletsFor_targets (pal : PalletConfig) (v0 : BoxType) (Q : Z)
    (pattern : LayerPattern) :
  cellsMatch pattern ->
  0 < perLayer pattern ->
  0 < layersMaxOf pal (b_height v0) ->
  1 <= Q ->
  Forall2 (fun t pr =>
             pr_totalBoxes pr = t
             /\ boxesPerLayer pr = perLayer pattern
             /\ (perLayer pattern * (layers pr - 1) < t <= perLayer pattern * layers pr
                 \/ (t = 0 /\ layers pr = 0)))
          (targetsFor pal v0 Q pattern) (palletsFor pal v0 Q pattern).
Proof.
  intros Hcells HK HL HQ.
  destruct (targetsFor_facts pal v0 Q pattern HK HL HQ) as (_ & _ & _ & _ & Hall).
  cbv zeta in Hall. revert Hall. unfold palletsFor, targetsFor. cbv zeta.
  change (b_height (withQuantity v0 Q)) with (b_height v0).
  set (K := perLayer pattern) in *. set (L := layersMaxOf pal (b_height v0)) in *.
  set (ts := buildTargetsByFullLayers Q _ K L). intros Hall.
  pose proof (palletLoop_facts K L pattern (withQuantity v0 Q) pal
                (forallb (fun t => Z.rem t K =? 0) ts) ts eq_refl Hcells HK Hall
                0 0%nat) as H1.
  pose proof (palletLoop_layers K L pattern (withQuantity v0 Q) pal
                (forallb (fun t => Z.rem t K =? 0) ts) ts eq_refl HK Hall
                0 0%nat) as H2.
  pose proof (Forall2_and_both _ _ _ _ H1 H2) as H.
  eapply Forall2_impl; [exact H|].
  intros t pr [(Ht & _ & HbK & _) Hlay]. auto.
Qed.

(** X4.  A result without error uses the fewest pallets that hold the
    quantity: with [cap] the capacity of a pallet, [boxesPerLayer] times the
    layers that fit, [totalPallets] pallets hold it and one pallet fewer
    does not.  No pallet is empty. *)
Theorem performCalc_fewest_pallets (boxes : boxesArg) (pal : PalletConfig)
    (v0 : BoxType) (r : CalculationResult) :
  performCalc boxes (Some pal) = Normal r ->
  error r = None ->
  head (validBoxes (entriesOf boxes)) = Some v0 ->
  exists K,
    0 < K
    /\ (forall pr, pr ∈ pallets r -> boxesPerLayer pr = K /\ 1 <= pr_totalBoxes pr)
    /\ 1 <= totalPallets r
    /\ (totalPallets r - 1) * (K * layersMaxOf pal (b_height v0))
       < totalQuantity boxes
       <= totalPallets r * (K * layersMaxOf pal (b_height v0)).
Proof.
  intros Hrun Herr Hhead.
  destruct (run_facts boxes pal v0 r Hrun Herr Hhead)
    as (pattern & _ & Hcells & HK & HL & HQ & _ & _ & Hr & Hprs).
  destruct (targetsFor_facts pal v0 _ pattern HK HL HQ) as (HP1 & HPcap & _).
  cbv zeta in HP1, HPcap.
  pose proof (palletsFor_targets pal v0 _ pattern Hcells HK HL HQ) as Hts.
  destruct (targetsFor_spread pal v0 _ pattern HK HL HQ) as (base & _ & Hspread).
  assert (totalPallets r = Z.of_nat (length (targetsFor pal v0 (totalQuantity boxes) pattern)))
    as HtP.
  { rewrite Hr. destruct (runResult_fields pal v0 (totalQuantity boxes) pattern)
      as (Hp & -> & _). rewrite Hp, palletsFor_length. reflexivity. }
  exists (perLayer pattern). split; [assumption|].
  split; [|rewrite HtP; split; assumption].
  intros pr Hpr. rewrite Hprs in Hpr.
  apply list_elem_of_lookup_1 in Hpr as (i & Hi).
  destruct (Forall2_lookup_r _ _ _ _ _ Hts Hi) as (t & Ht & Hbox & HbK & _).
  split; [assumption|]. rewrite Hbox. apply (Hspread i t Ht).
Qed.

Lemma performCalc_fewest_pallets_witness :
  exists r K,
    performCalc manyBoxes (Some unevenPallet) = Normal r
    /\ totalPallets r = 3
    /\ 0 < K
    /\ (forall pr, pr ∈ pallets r -> boxesPerLayer pr = K /\ 1 <= pr_totalBoxes pr)
    /\ 1 <= totalPallets r
    /\ (totalPallets r - 1) * (K * layersMaxOf unevenPallet 1)
       < totalQuantity manyBoxes
       <= totalPallets r * (K * layersMaxOf unevenPallet 1).
Proof.
  pose (c := performCalc manyBoxes (Some unevenPallet)).
  destruct c as [r|e] eqn:Hrun; [|vm_compute in Hrun; discriminate].
  assert (error r = None) as Herr
    by (vm_compute in Hrun; injection Hrun as <-; reflexivity).
  assert (totalPallets r = 3) as Hn
    by (vm_compute in Hrun; injection Hrun as <-; reflexivity).
  destruct (performCalc_fewest_pallets manyBoxes unevenPallet (sampleBox 5 3 1 100)
              r Hrun Herr eq_refl) as (K & HK).
  exists r, K. split; [assumption|]. split; [assumption|]. exact HK.
Defined.

(** X5.  Full layers first: in a result without error every pallet but the
    last holds whole layers only, and the pallets are balanced: there is a
    number [base] of layers such that every pallet has [base] or [base + 1]
    layers and between [base] and [base + 1] layers' worth of boxes. *)
Theorem performCalc_full_layers_first (boxes : boxesArg) (pal : PalletConfig)
    (v0 : BoxType) (r : CalculationResult) :
  performCalc boxes (Some pal) = Normal r ->
  error r = None ->
  head (validBoxes (entriesOf boxes)) = Some v0 ->
  exists base,
    0 <= base
    /\ forall (i : nat) (pr : PalletResult),
         pallets r !! i = Some pr ->
         base <= layers pr <= base + 1
         /\ base * boxesPerLayer pr <= pr_totalBoxes pr <= (base + 1) * boxesPerLayer pr
         /\ ((S i < length (pallets r))%nat ->
             pr_totalBoxes pr = layers pr * boxesPerLayer pr).
Proof.
  intros Hrun Herr Hhead.
  destruct (run_facts boxes pal v0 r Hrun Herr Hhead)
    as (pattern & _ & Hcells & HK & HL & HQ & _ & _ & _ & Hprs).
  pose proof (palletsFor_targets pal v0 _ pattern Hcells HK HL HQ) as Hts.
  destruct (targetsFor_spread pal v0 _ pattern HK HL HQ) as (base & Hbase & Hspread).
  exists base. split; [assumption|].
  intros i pr Hi. rewrite Hprs in Hi |- *.
  destruct (Forall2_lookup_r _ _ _ _ _ Hts Hi) as (t & Ht & Hbox & HbK & Hlay).
  destruct (Hspread i t Ht) as (Ht1 & Hbt & Hwhole).
  rewrite Hbox, HbK.
  destruct Hlay as [Hlay|[-> _]]; [|lia].
  split; [nia|]. split; [assumption|].
  intros Hlt. rewrite <- (Forall2_length _ _ _ Hts) in Hlt.
  destruct (Hwhole Hlt) as (l & ->).
  assert (layers pr - 1 < l) by nia.
  assert (l <= layers pr) by nia.
  f_equal. lia.
Qed.

Lemma performCalc_full_layers_first_witness :
  exists r base,
    performCalc manyBoxes (Some unevenPallet) = Normal r
    /\ (pr_totalBoxes <$> pallets r) = [32; 32; 36]
    /\ 0 <= base
    /\ forall (i : nat) (pr : PalletResult),
         pallets r !! i = Some pr ->
         base <= layers pr <= base + 1
         /\ base * boxesPerLayer pr <= pr_totalBoxes pr <= (base + 1) * boxesPerLayer pr
         /\ ((S i < length (pallets r))%nat ->
             pr_totalBoxes pr = layers pr * boxesPerLayer pr).
Proof.
  pose (c := performCalc manyBoxes (Some unevenPallet)).
  destruct c as [r|e] eqn:Hrun; [|vm_compute in Hrun; discriminate].
  assert (error r = None) as Herr
    by (vm_compute in Hrun; injection Hrun as <-; reflexivity).
  assert ((pr_totalBoxes <$> pallets r) = [32; 32; 36]) as Hn
    by (vm_compute in Hrun; injection Hrun as <-; reflexivity).
  destruct (performCalc_full_layers_first manyBoxes unevenPallet
              (sampleBox 5 3 1 100) r Hrun Herr eq_refl) as (base & Hbase).
  exists r, base. split; [assumption|]. split; [assumption|]. exact Hbase.
Defined.

(** ** Heights *)

Lemma floorQ_mul_le (x y : Q) :
  (0 < y)%Q -> (inject_Z (floorQ x y) * y <= x)%Q.
Proof.
  intros Hy. unfold floorQ.
  pose proof (Qfloor_le (x / y)) as Hfl.
  apply (Qmult_le_compat_r _ _ y) in Hfl; [|lra].
  assert (x / y * y == x)%Q as Heq by (field; lra).
  rewrite Heq in Hfl. exact Hfl.
Qed.

(** X6.  In a result without error every pallet has at least one layer and
    no more than fit; its height is the deck's height plus its layers, and
    stays within the height limit up to the tolerance [EPS]; every placement
    is on one of its layers. *)
Theorem performCalc_height_within_limit (boxes : boxesArg) (pal : PalletConfig)
    (v0 : BoxType) (r : CalculationResult) :
  performCalc boxes (Some pal) = Normal r ->
  error r = None ->
  head (validBoxes (entriesOf boxes)) = Some v0 ->
  forall pr, pr ∈ pallets r ->
    1 <= layers pr <= layersMaxOf pal (b_height v0)
    /\ totalHeight pr = (p_height pal + inject_Z (layers pr) * b_height v0)%Q
    /\ (p_height pal < totalHeight pr <= p_maxHeight pal + EPS)%Q
    /\ Forall (fun bp => 0 <= bp_layer bp < layers pr) (placements pr).
Proof.
  intros Hrun Herr Hhead pr Hpr.
  destruct (run_facts boxes pal v0 r Hrun Herr Hhead)
    as (pattern & _ & Hcells & HK & HL & HQ & Hh & _ & _ & Hprs).
  rewrite Hprs in Hpr.
  destruct (palletsFor_facts pal v0 _ pattern Hcells HK HL HQ) as (_ & Hall).
  rewrite Forall_forall in Hall.
  destruct (Hall pr Hpr) as (_ & HbK & HlayL & Hcap).
  pose proof (palletsFor_targets pal v0 _ pattern Hcells HK HL HQ) as Hts.
  destruct (targetsFor_spread pal v0 _ pattern HK HL HQ) as (base & _ & Hspread).
  apply list_elem_of_lookup_1 in Hpr as (i & Hi).
  destruct (Forall2_lookup_r _ _ _ _ _ Hts Hi) as (t & Ht & Hbox & _ & _).
  destruct (Hspread i t Ht) as (Ht1 & _).
  assert (1 <= layers pr) as Hlay1 by nia.
  assert (totalHeight pr = (p_height pal + inject_Z (layers pr) * b_height v0)%Q
          /\ Forall (fun bp => 0 <= bp_layer bp < layers pr) (placements pr))
    as (Hth & Hlayers).
  { revert Hi. unfold palletsFor. cbv zeta.
    match goal with
    | |- context [palletLoop ?K ?L ?cap ?pat ?base ?pl ?af ?ts ?p ?idc] =>
        destruct (palletLoop_shape K L cap pat base pl af ts p idc)
          as (_ & _ & _ & Hshape & _)
    end.
    intros Hi. rewrite Forall_lookup in Hshape.
    destruct (Hshape i pr Hi) as (_ & _ & _ & _ & Hth & Hlayers).
    split; assumption. }
  split; [lia|]. split; [assumption|]. split; [|assumption].
  rewrite Hth.
  pose proof (floorQ_mul_le (p_maxHeight pal - p_height pal + EPS) (b_height v0) Hh)
    as Hfl. fold (layersMaxOf pal (b_height v0)) in Hfl.
  assert (inject_Z 1 <= inject_Z (layers pr))%Q as H1 by (rewrite <- Zle_Qle; lia).
  assert (inject_Z (layers pr) <= inject_Z (layersMaxOf pal (b_height v0)))%Q as H2
    by (rewrite <- Zle_Qle; lia).
  apply (Qmult_le_compat_r _ _ (b_height v0)) in H1; [|lra].
  apply (Qmult_le_compat_r _ _ (b_height v0)) in H2; [|lra].
  change (inject_Z 1) with 1%Q in H1. split; lra.
Qed.

Lemma performCalc_height_within_limit_witness :
  exists r,
    performCalc manyBoxes (Some unevenPallet) = Normal r
    /\ forall pr, pr ∈ pallets r ->
         1 <= layers pr <= layersMaxOf unevenPallet 1
         /\ totalHeight pr = (0 + inject_Z (layers pr) * 1)%Q
         /\ (0 < totalHeight pr <= 5 + EPS)%Q
         /\ Forall (fun bp => 0 <= bp_layer bp < layers pr) (placements pr).
Proof.
  pose (c := performCalc manyBoxes (Some unevenPallet)).
  destruct c as [r|e] eqn:Hrun; [|vm_compute in Hrun; discriminate].
  assert (error r = None) as Herr
    by (vm_compute in Hrun; injection Hrun as <-; reflexivity).
  exists r. split; [assumption|].
  exact (performCalc_height_within_limit manyBoxes unevenPallet
           (sampleBox 5 3 1 100) r Hrun Herr eq_refl).
Defined.

(** ** Aggregates of a result *)

Lemma palletRejected_false (pal : PalletConfig) :
  palletRejected pal = false
  <-> (0 < p_width pal)%Q /\ (0 < p_depth pal)%Q
      /\ (p_height pal < p_maxHeight pal)%Q.
Proof.
  unfold palletRejected. rewrite !orb_false_iff.
  assert (forall x y : Q, Qle_bool x y = false <-> (y < x)%Q) as Hle.
  { intros x y. rewrite <- not_true_iff_false, Qle_bool_iff. split; lra. }
  rewrite !Hle. tauto.
Qed.

Lemma run_positive (boxes : boxesArg) (pal : PalletConfig) (v0 : BoxType)
    (r : CalculationResult) :
  performCalc boxes (Some pal) = Normal r ->
  error r = None ->
  head (validBoxes (entriesOf boxes)) = Some v0 ->
  (0 < p_width pal)%Q /\ (0 < p_depth pal)%Q
  /\ (p_height pal < p_maxHeight pal)%Q
  /\ (0 < b_length v0)%Q /\ (0 < b_width v0)%Q /\ (0 < b_height v0)%Q.
Proof.
  intros Hrun Herr Hhead.
  destruct (run_facts boxes pal v0 r Hrun Herr Hhead)
    as (pattern & _ & _ & _ & _ & _ & _ & Hrej & _).
  apply palletRejected_false in Hrej as (Hw & Hd & Hh).
  assert (v0 ∈ validBoxes (entriesOf boxes)) as Hv0.
  { destruct (validBoxes (entriesOf boxes)) as [|v vs]; [discriminate|].
    injection Hhead as ->. apply elem_of_cons. left. reflexivity. }
  apply validBoxes_positive in Hv0 as (_ & Hl & Hwd & Hbh & _).
  auto 10.
Qed.

Lemma foldl_totalWeight (w : Q) (prs : list PalletResult) (s : Q) :
  Forall (fun pr => pr_totalWeight pr = (inject_Z (pr_totalBoxes pr) * w)%Q) prs ->
  (foldl (fun s pr => s + pr_totalWeight pr) s prs
   == s + inject_Z (sumZ (pr_totalBoxes <$> prs)) * w)%Q.
Proof.
  intros Hall. revert s.
  induction Hall as [|pr prs Hpr _ IH]; intros s.
  - cbn [foldl]. change (inject_Z (sumZ (pr_totalBoxes <$> []))) with 0%Q. ring.
  - cbn [foldl]. rewrite IH, fmap_cons, sumZ_cons, Hpr, inject_Z_plus. ring.
Qed.

(** The pallets of a run, as the loop of [performCalc] shapes them. *)
Lemma palletsFor_shape (pal : PalletConfig) (v0 : BoxType) (Q : Z)
    (pattern : LayerPattern) :
  forall (i : nat) (pr : PalletResult),
    palletsFor pal v0 Q pattern !! i = Some pr ->
    palletNumber pr = Z.of_nat i + 1
    /\ pr_totalBoxes pr = Z.of_nat (length (placements pr))
    /\ pr_totalWeight pr = (inject_Z (pr_totalBoxes pr) * b_weight v0)%Q
    /\ efficiency pr = efficiencyOf pal (withQuantity v0 Q) (pr_totalBoxes pr).
Proof.
  unfold palletsFor. cbv zeta.
  match goal with
  | |- context [palletLoop ?K ?L ?cap ?pat ?base ?pl ?af ?ts ?p ?idc] =>
      destruct (palletLoop_shape K L cap pat base pl af ts p idc)
        as (_ & _ & Hnum & Hshape & _)
  end.
  intros i pr Hi. rewrite Forall_lookup in Hshape.
  destruct (Hshape i pr Hi) as (Hcnt & _ & Hw & Heff & _).
  rewrite (Hnum i pr Hi). repeat split; try assumption. lia.
Qed.

(** X7.  The aggregates of a result without error: the pallets are numbered
    from one in order, each weighs its boxes times the weight of the first
    valid box, the distribution lists under that box's SKU every pallet's
    number with its count, and the total weight is the total quantity times
    that weight. *)
Theorem performCalc_aggregates (boxes : boxesArg) (pal : PalletConfig)
    (v0 : BoxType) (r : CalculationResult) :
  performCalc boxes (Some pal) = Normal r ->
  error r = None ->
  head (validBoxes (entriesOf boxes)) = Some v0 ->
  totalPallets r = Z.of_nat (length (pallets r))
  /\ (forall (i : nat) (pr : PalletResult),
        pallets r !! i = Some pr ->
        palletNumber pr = Z.of_nat i + 1
        /\ pr_totalBoxes pr = Z.of_nat (length (placements pr))
        /\ pr_totalWeight pr = (inject_Z (pr_totalBoxes pr) * b_weight v0)%Q)
  /\ boxDistribution r
     = [(b_sku v0, (fun pr => (palletNumber pr, pr_totalBoxes pr)) <$> pallets r)]
  /\ (totalWeight r == inject_Z (totalQuantity boxes) * b_weight v0)%Q.
Proof.
  intros Hrun Herr Hhead.
  destruct (run_facts boxes pal v0 r Hrun Herr Hhead)
    as (pattern & _ & Hcells & HK & HL & HQ & _ & _ & Hr & Hprs).
  destruct (runResult_fields pal v0 (totalQuantity boxes) pattern)
    as (_ & HtP & _ & HtW & Hdist & _). cbv zeta in HtP, HtW, Hdist.
  rewrite <- Hr in HtP, HtW, Hdist.
  split; [assumption|]. split.
  { intros i pr Hi. rewrite Hprs in Hi.
    destruct (palletsFor_shape pal v0 _ pattern i pr Hi) as (Hn & Hc & Hw & _).
    auto. }
  split; [assumption|].
  rewrite HtW, (foldl_totalWeight (b_weight v0)).
  - rewrite Hprs.
    destruct (palletsFor_facts pal v0 _ pattern Hcells HK HL HQ) as (-> & _). ring.
  - rewrite Hprs. apply Forall_lookup. intros i pr Hi.
    apply (palletsFor_shape pal v0 _ pattern i pr Hi).
Qed.

Lemma performCalc_aggregates_witness :
  exists r,
    performCalc manyBoxes (Some unevenPallet) = Normal r
    /\ totalPallets r = Z.of_nat (length (pallets r))
    /\ (forall (i : nat) (pr : PalletResult),
          pallets r !! i = Some pr ->
          palletNumber pr = Z.of_nat i + 1
          /\ pr_totalBoxes pr = Z.of_nat (length (placements pr))
          /\ pr_totalWeight pr = (inject_Z (pr_totalBoxes pr) * 5)%Q)
    /\ boxDistribution r
       = [("SKU-1"%string,
           (fun pr => (palletNumber pr, pr_totalBoxes pr)) <$> pallets r)]
    /\ (totalWeight r == inject_Z (totalQuantity manyBoxes) * 5)%Q.
Proof.
  pose (c := performCalc manyBoxes (Some unevenPallet)).
  destruct c as [r|e] eqn:Hrun; [|vm_compute in Hrun; discriminate].
  assert (error r = None) as Herr
    by (vm_compute in Hrun; injection Hrun as <-; reflexivity).
  exists r. split; [assumption|].
  exact (performCalc_aggregates manyBoxes unevenPallet
           (sampleBox 5 3 1 100) r Hrun Herr eq_refl).
Defined.

(** ** Efficiency *)

Lemma efficiencyOf_bounds (pal : PalletConfig) (base : BoxType) (n : Z) :
  0 <= n ->
  (0 < b_length base)%Q -> (0 < b_width base)%Q -> (0 < b_height base)%Q ->
  (0 <= efficiencyOf pal base n <= 100)%Q.
Proof.
  intros Hn Hl Hw Hh. unfold efficiencyOf. cbv zeta.
  split; [|apply Q.le_min_l].
  apply Q.min_glb; [lra|].
  set (capVol := (p_width pal * p_depth pal * (p_maxHeight pal - p_height pal))%Q).
  assert (0 < Qmax capVol EPS)%Q as Hcap.
  { eapply Qlt_le_trans; [|apply Q.le_max_r]. reflexivity. }
  assert (0 <= inject_Z n)%Q as HnQ by (change 0%Q with (inject_Z 0); rewrite <- Zle_Qle; lia).
  assert (0 <= inject_Z n * b_length base * b_width base * b_height base)%Q as Hused.
  { repeat (apply Qmult_le_0_compat; [|lra]). assumption. }
  apply Qmult_le_0_compat; [|lra].
  apply Qle_shift_div_l; [assumption|]. lra.
Qed.

Lemma foldl_efficiency_bounds (prs : list PalletResult) (s : Q) :
  Forall (fun pr => (0 <= efficiency pr <= 100)%Q) prs ->
  (s <= foldl (fun s pr => s + efficiency pr) s prs
     <= s + inject_Z (Z.of_nat (length prs)) * 100)%Q.
Proof.
  intros Hall. revert s.
  induction Hall as [|pr prs Hpr _ IH]; intros s.
  - cbn [foldl length]. change (inject_Z (Z.of_nat 0)) with 0%Q. lra.
  - cbn [foldl length]. specialize (IH (s + efficiency pr)%Q).
    rewrite Nat2Z.inj_succ. unfold Z.succ. rewrite inject_Z_plus.
    change (inject_Z 1) with 1%Q. lra.
Qed.

Lemma runResult_average (pal : PalletConfig) (v0 : BoxType) (Q : Z)
    (pattern : LayerPattern) :
  let r := runResult pal v0 Q pattern in
  averageEfficiency r
  = if Z.of_nat (length (pallets r)) =? 0 then 0%Q
    else (foldl (fun s pr => s + efficiency pr) 0 (pallets r)
          / inject_Z (Z.of_nat (length (pallets r))))%Q.
Proof.
  cbv zeta. unfold runResult. cbv zeta.
  match goal with
  | |- context [palletLoop ?K ?L ?cap ?pat ?base ?pl ?af ?ts ?p ?idc] =>
      destruct (palletLoop K L cap pat base pl af ts p idc) as [[prs dist] idc2]
  end.
  reflexivity.
Qed.

(** X8.  In a result without error the efficiency of every pallet, and the
    average efficiency, is a percentage: between 0 and 100. *)
Theorem performCalc_efficiency_percent (boxes : boxesArg) (pal : PalletConfig)
    (v0 : BoxType) (r : CalculationResult) :
  performCalc boxes (Some pal) = Normal r ->
  error r = None ->
  head (validBoxes (entriesOf boxes)) = Some v0 ->
  (forall pr, pr ∈ pallets r -> (0 <= efficiency pr <= 100)%Q)
  /\ (0 <= averageEfficiency r <= 100)%Q.
Proof.
  intros Hrun Herr Hhead.
  destruct (run_positive boxes pal v0 r Hrun Herr Hhead)
    as (_ & _ & _ & Hl & Hw & Hh).
  destruct (run_facts boxes pal v0 r Hrun Herr Hhead)
    as (pattern & _ & Hcells & HK & HL & HQ & _ & _ & Hr & Hprs).
  assert (forall pr, pr ∈ pallets r -> (0 <= efficiency pr <= 100)%Q) as Heff.
  { intros pr Hpr. rewrite Hprs in Hpr.
    apply list_elem_of_lookup_1 in Hpr as (i & Hi).
    destruct (palletsFor_shape pal v0 _ pattern i pr Hi) as (_ & Hc & _ & ->).
    apply efficiencyOf_bounds; try assumption. rewrite Hc. lia. }
  split; [assumption|].
  pose proof (runResult_average pal v0 (totalQuantity boxes) pattern) as Havg.
  cbv zeta in Havg. rewrite <- Hr in Havg. rewrite Havg.
  destruct (Z.eqb_spec (Z.of_nat (length (pallets r))) 0) as [|Hne]; [lra|].
  apply Forall_forall in Heff.
  pose proof (foldl_efficiency_bounds (pallets r) 0 Heff) as (Hlo & Hhi).
  assert (0 < inject_Z (Z.of_nat (length (pallets r))))%Q as Hn.
  { change 0%Q with (inject_Z 0). rewrite <- Zlt_Qlt. lia. }
  split.
  - apply Qle_shift_div_l; [assumption|]. lra.
  - apply Qle_shift_div_r; [assumption|]. lra.
Qed.

Lemma performCalc_efficiency_percent_witness :
  exists r,
    performCalc manyBoxes (Some unevenPallet) = Normal r
    /\ (forall pr, pr ∈ pallets r -> (0 <= efficiency pr <= 100)%Q)
    /\ (0 <= averageEfficiency r <= 100)%Q.
Proof.
  pose (c := performCalc manyBoxes (Some unevenPallet)).
  destruct c as [r|e] eqn:Hrun; [|vm_compute in Hrun; discriminate].
  assert (error r = None) as Herr
    by (vm_compute in Hrun; injection Hrun as <-; reflexivity).
  exists r. split; [assumption|].
  exact (performCalc_efficiency_percent manyBoxes unevenPallet
           (sampleBox 5 3 1 100) r Hrun Herr eq_refl).
Defined.

(** ** Geometry of a layer *)

Lemma elem_of_upto (n x : Z) : x ∈ upto n <-> 0 <= x < n.
Proof.
  unfold upto. rewrite list_elem_of_fmap. split.
  - intros (k & -> & Hk). apply elem_of_seq in Hk. lia.
  - intros Hx. exists (Z.to_nat x). split; [lia|]. apply elem_of_seq. lia.
Qed.

Lemma ForallOrdPairs_app {A} (R : A -> A -> Prop) (l1 l2 : list A) :
  ForallOrdPairs R l1 -> ForallOrdPairs R l2 ->
  (forall x y, x ∈ l1 -> y ∈ l2 -> R x y) ->
  ForallOrdPairs R (l1 ++ l2).
Proof.
  intros H1 H2 H12. induction H1 as [|a l1 Ha H1 IH]; [exact H2|].
  cbn [app]. constructor.
  - apply List.Forall_app. split; [assumption|].
    apply List.Forall_forall. intros y Hy. apply H12.
    + apply elem_of_cons. left. reflexivity.
    + apply list_elem_of_In, Hy.
  - apply IH. intros x y Hx Hy. apply H12; [|assumption].
    apply elem_of_cons. right. assumption.
Qed.

Lemma ForallOrdPairs_fmap {A B} (f : A -> B) (R : B -> B -> Prop) (l : list A) :
  ForallOrdPairs (fun x y => R (f x) (f y)) l -> ForallOrdPairs R (f <$> l).
Proof.
  induction 1 as [|a l Ha _ IH]; [constructor|].
  rewrite fmap_cons. constructor; [|assumption].
  apply List.Forall_forall. intros y Hy.
  apply list_elem_of_In, list_elem_of_fmap in Hy as (x & -> & Hx).
  rewrite List.Forall_forall in Ha. apply Ha, list_elem_of_In, Hx.
Qed.

Lemma ForallOrdPairs_flat_map {A B} (f : A -> list B) (R : B -> B -> Prop)
    (l : list A) :
  (forall a, a ∈ l -> ForallOrdPairs R (f a)) ->
  ForallOrdPairs (fun a a' => forall x y, x ∈ f a -> y ∈ f a' -> R x y) l ->
  ForallOrdPairs R (flat_map f l).
Proof.
  intros Hin Hout. induction Hout as [|a l Ha _ IH]; [constructor|].
  cbn [flat_map]. apply ForallOrdPairs_app.
  - apply Hin, elem_of_cons. left. reflexivity.
  - apply IH. intros a' Ha'. apply Hin, elem_of_cons. right. assumption.
  - intros x y Hx Hy.
    apply list_elem_of_In, in_flat_map in Hy as (a' & Ha' & Hy).
    rewrite List.Forall_forall in Ha.
    apply (Ha a' Ha' x y Hx). apply list_elem_of_In, Hy.
Qed.

Lemma ForallOrdPairs_impl_lt {A} (R R' : A -> A -> Prop) (l : list A) :
  ForallOrdPairs R l -> (forall x y, R x y -> R' x y) -> ForallOrdPairs R' l.
Proof.
  intros Hl HR. induction Hl as [|a l Ha _ IH]; [constructor|].
  constructor; [|assumption].
  eapply List.Forall_impl; [|exact Ha]. intros y. apply HR.
Qed.

Lemma ForallOrdPairs_upto (n : Z) : ForallOrdPairs Z.lt (upto n).
Proof.
  unfold upto. apply ForallOrdPairs_fmap.
  generalize (Z.to_nat n) as k. generalize 0%nat as s.
  intros s k. revert s. induction k as [|k IH]; intros s; [constructor|].
  cbn [seq]. constructor; [|apply IH].
  apply List.Forall_forall. intros j Hj. apply in_seq in Hj. lia.
Qed.

Lemma inject_Z_mul_le (n m : Z) (x : Q) :
  n <= m -> (0 <= x)%Q -> (inject_Z n * x <= inject_Z m * x)%Q.
Proof.
  intros Hnm Hx. apply Qmult_le_compat_r; [|assumption].
  rewrite <- Zle_Qle. assumption.
Qed.

Lemma inject_Z_succ_mul (n : Z) (x : Q) :
  (inject_Z (n + 1) * x == inject_Z n * x + x)%Q.
Proof. rewrite inject_Z_plus. change (inject_Z 1) with 1%Q. ring. Qed.

Lemma inject_Z_mul_nonneg (n : Z) (x : Q) :
  0 <= n -> (0 <= x)%Q -> (0 <= inject_Z n * x)%Q.
Proof.
  intros Hn Hx. apply Qmult_le_0_compat; [|assumption].
  change 0%Q with (inject_Z 0). rewrite <- Zle_Qle. assumption.
Qed.

Lemma elem_of_blockCells (b : LayerBlock) (x0 z0 : Q) (c : Cell) :
  c ∈ blockCells b x0 z0
  <-> exists r k,
        0 <= r < rows b /\ 0 <= k < cols b
        /\ c = {| cell_x := x0 + inject_Z k * len (blk_fp b);
                  cell_z := z0 + inject_Z r * wid (blk_fp b);
                  cell_fp := blk_fp b |}.
Proof.
  unfold blockCells. rewrite list_elem_of_In, in_flat_map. split.
  - intros (r & Hr & Hc).
    apply list_elem_of_In, list_elem_of_fmap in Hc as (k & -> & Hk).
    apply list_elem_of_In, elem_of_upto in Hr. apply elem_of_upto in Hk.
    exists r, k. auto.
  - intros (r & k & Hr & Hk & ->). exists r. split.
    + apply list_elem_of_In, elem_of_upto, Hr.
    + apply list_elem_of_In, list_elem_of_fmap. exists k.
      split; [reflexivity|]. apply elem_of_upto, Hk.
Qed.

(** The cells of a block tile the rectangle of the block. *)
Lemma blockCells_within (b : LayerBlock) (x0 z0 : Q) :
  (0 <= len (blk_fp b))%Q -> (0 <= wid (blk_fp b))%Q ->
  Forall (cellWithin x0 z0 (inject_Z (cols b) * len (blk_fp b))
                     (inject_Z (rows b) * wid (blk_fp b)))
         (blockCells b x0 z0).
Proof.
  intros Hl Hw. apply Forall_forall. intros c Hc.
  apply elem_of_blockCells in Hc as (r & k & Hr & Hk & ->).
  unfold cellWithin. cbn [cell_x cell_z cell_fp].
  pose proof (inject_Z_mul_nonneg k _ ltac:(lia) Hl).
  pose proof (inject_Z_mul_nonneg r _ ltac:(lia) Hw).
  pose proof (inject_Z_mul_le (k + 1) (cols b) _ ltac:(lia) Hl) as Hk1.
  pose proof (inject_Z_mul_le (r + 1) (rows b) _ ltac:(lia) Hw) as Hr1.
  rewrite inject_Z_succ_mul in Hk1, Hr1.
  repeat split; lra.
Qed.

Lemma blockCells_apart (b : LayerBlock) (x0 z0 : Q) :
  (0 <= len (blk_fp b))%Q -> (0 <= wid (blk_fp b))%Q ->
  ForallOrdPairs cellsApart (blockCells b x0 z0).
Proof.
  intros Hl Hw. unfold blockCells. apply ForallOrdPairs_flat_map.
  - intros r _. apply ForallOrdPairs_fmap.
    eapply ForallOrdPairs_impl_lt with (l := upto (cols b)).
    + apply ForallOrdPairs_upto.
    + intros k k' Hkk. unfold cellsApart. cbn [cell_x cell_z cell_fp].
      left. pose proof (inject_Z_mul_le (k + 1) k' _ ltac:(lia) Hl) as Hk1.
      rewrite inject_Z_succ_mul in Hk1. lra.
  - eapply ForallOrdPairs_impl_lt with (l := upto (rows b)).
    + apply ForallOrdPairs_upto.
    + intros r r' Hrr x y Hx Hy.
      apply list_elem_of_fmap in Hx as (k & -> & _).
      apply list_elem_of_fmap in Hy as (k' & -> & _).
      unfold cellsApart. cbn [cell_x cell_z cell_fp].
      right. right. left.
      pose proof (inject_Z_mul_le (r + 1) r' _ ltac:(lia) Hw) as Hr1.
      rewrite inject_Z_succ_mul in Hr1. lra.
Qed.

Lemma cellWithin_mono (x z w d X Z Wd Dp : Q) (c : Cell) :
  cellWithin x z w d c ->
  (X <= x)%Q -> (x + w <= X + Wd)%Q -> (Z <= z)%Q -> (z + d <= Z + Dp)%Q ->
  cellWithin X Z Wd Dp c.
Proof. unfold cellWithin. intros (H1 & H2 & H3 & H4) HX HW HZ HD. repeat split; lra. Qed.

Lemma blockCells_fp (b : LayerBlock) (x0 z0 : Q) :
  Forall (fun c => cell_fp c = blk_fp b) (blockCells b x0 z0).
Proof.
  apply Forall_forall. intros c Hc.
  apply elem_of_blockCells in Hc as (r & k & _ & _ & ->). reflexivity.
Qed.

(** The cells of two blocks side by side along [x], or one behind the
    other along [z], do not overlap. *)
Lemma blockCells_apart_x (b1 b2 : LayerBlock) (x1 z1 x2 z2 : Q) :
  (0 <= len (blk_fp b1))%Q -> (0 <= wid (blk_fp b1))%Q ->
  (x1 + inject_Z (cols b1) * len (blk_fp b1) <= x2)%Q ->
  forall c1 c2, c1 ∈ blockCells b1 x1 z1 -> c2 ∈ blockCells b2 x2 z2 ->
    0 <= cols b2 -> (0 <= len (blk_fp b2))%Q -> cellsApart c1 c2.
Proof.
  intros Hl Hw Hx c1 c2 Hc1 Hc2 Hcols Hl2.
  pose proof (blockCells_within b1 x1 z1 Hl Hw) as Hin.
  rewrite Forall_forall in Hin. destruct (Hin c1 Hc1) as (_ & Hx1 & _).
  apply elem_of_blockCells in Hc2 as (r & k & _ & Hk & ->).
  unfold cellsApart. cbn [cell_x cell_z cell_fp]. left.
  pose proof (inject_Z_mul_nonneg k _ ltac:(lia) Hl2). lra.
Qed.

Lemma blockCells_apart_z (b1 b2 : LayerBlock) (x1 z1 x2 z2 : Q) :
  (0 <= len (blk_fp b1))%Q -> (0 <= wid (blk_fp b1))%Q ->
  (z1 + inject_Z (rows b1) * wid (blk_fp b1) <= z2)%Q ->
  forall c1 c2, c1 ∈ blockCells b1 x1 z1 -> c2 ∈ blockCells b2 x2 z2 ->
    0 <= rows b2 -> (0 <= wid (blk_fp b2))%Q -> cellsApart c1 c2.
Proof.
  intros Hl Hw Hz c1 c2 Hc1 Hc2 Hrows Hw2.
  pose proof (blockCells_within b1 x1 z1 Hl Hw) as Hin.
  rewrite Forall_forall in Hin. destruct (Hin c1 Hc1) as (_ & _ & _ & Hz1).
  apply elem_of_blockCells in Hc2 as (r & k & Hr & _ & ->).
  unfold cellsApart. cbn [cell_x cell_z cell_fp]. right. right. left.
  pose proof (inject_Z_mul_nonneg r _ ltac:(lia) Hw2). lra.
Qed.

Lemma buildGridPattern_layerOk (W D : Q) (a b fp : Footprint) :
  (0 < W)%Q -> (0 < D)%Q -> (0 < len fp)%Q -> (0 < wid fp)%Q ->
  fp = a \/ fp = b ->
  layerOk W D a b (buildGridPattern W D fp).
Proof.
  intros HW HD Hl Hw Hfp.
  pose proof (floorQ_nonneg W (len fp) ltac:(lra) Hl) as Hc.
  pose proof (floorQ_nonneg D (wid fp) ltac:(lra) Hw) as Hr.
  pose proof (floorQ_mul_le W (len fp) Hl) as HcW.
  pose proof (floorQ_mul_le D (wid fp) Hw) as HrD.
  pose proof (inject_Z_mul_nonneg _ (len fp) Hc ltac:(lra)) as Hc0.
  pose proof (inject_Z_mul_nonneg _ (wid fp) Hr ltac:(lra)) as Hr0.
  unfold layerOk, materializeLayerCells, buildGridPattern.
  cbn [usedWidth usedDepth kind blocks cols rows blk_fp].
  split; [split; assumption|]. split; [split; assumption|].
  set (blk := {| cols := floorQ W (len fp); rows := floorQ D (wid fp); blk_fp := fp |}).
  split; [|split].
  - eapply Forall_impl; [apply (blockCells_within blk); cbn; lra|].
    intros c Hc'. cbn [blk cols rows blk_fp] in Hc'.
    eapply cellWithin_mono; [exact Hc'| | | |]; qhalves.
  - apply blockCells_apart; cbn; lra.
  - eapply Forall_impl; [apply (blockCells_fp blk)|].
    intros c ->. exact Hfp.
Qed.

Lemma splitX_layerOk (W D : Q) (a b l r : Footprint) (cL cR rL rR pl mc mr : Z) :
  (0 <= len l)%Q -> (0 <= wid l)%Q -> (0 <= len r)%Q -> (0 <= wid r)%Q ->
  0 <= cL -> 0 <= cR -> 0 <= rL -> 0 <= rR ->
  (inject_Z cL * len l + inject_Z cR * len r <= W)%Q ->
  (inject_Z rL * wid l <= D)%Q -> (inject_Z rR * wid r <= D)%Q ->
  l = a \/ l = b -> r = a \/ r = b ->
  layerOk W D a b
    {| kind := split_x;
       blocks := [ {| cols := cL; rows := rL; blk_fp := l |};
                   {| cols := cR; rows := rR; blk_fp := r |} ];
       usedWidth := inject_Z cL * len l + inject_Z cR * len r;
       usedDepth := Qmax (inject_Z rL * wid l) (inject_Z rR * wid r);
       perLayer := pl; maxCols := mc; maxRows := mr |}.
Proof.
  intros Hll Hwl Hlr Hwr HcL HcR HrL HrR HW HDl HDr Hl Hr.
  pose proof (inject_Z_mul_nonneg cL _ HcL Hll) as H1.
  pose proof (inject_Z_mul_nonneg cR _ HcR Hlr) as H2.
  pose proof (inject_Z_mul_nonneg rL _ HrL Hwl) as H3.
  pose proof (inject_Z_mul_nonneg rR _ HrR Hwr) as H4.
  pose proof (Q.le_max_l (inject_Z rL * wid l) (inject_Z rR * wid r)) as Hm1.
  pose proof (Q.le_max_r (inject_Z rL * wid l) (inject_Z rR * wid r)) as Hm2.
  pose proof (Q.max_lub _ _ D HDl HDr) as Hm3.
  unfold layerOk, materializeLayerCells.
  cbn [usedWidth usedDepth kind blocks cols rows blk_fp].
  set (m := Qmax (inject_Z rL * wid l) (inject_Z rR * wid r)) in *.
  set (bl := {| cols := cL; rows := rL; blk_fp := l |}).
  set (br := {| cols := cR; rows := rR; blk_fp := r |}).
  split; [lra|]. split; [lra|]. split; [|split].
  - apply Forall_app. split.
    + eapply Forall_impl; [apply (blockCells_within bl); cbn; lra|].
      intros c Hc. cbn [bl cols rows blk_fp] in Hc.
      eapply cellWithin_mono; [exact Hc| | | |]; qhalves.
    + eapply Forall_impl; [apply (blockCells_within br); cbn; lra|].
      intros c Hc. cbn [br cols rows blk_fp] in Hc.
      eapply cellWithin_mono; [exact Hc| | | |]; qhalves.
  - apply ForallOrdPairs_app; [apply blockCells_apart; cbn; lra..|].
    intros x y Hx Hy.
    eapply (blockCells_apart_x bl br); [| | |exact Hx|exact Hy| |]; cbn; lra || lia.
  - apply Forall_app. split.
    + eapply Forall_impl; [apply (blockCells_fp bl)|]. intros c ->. exact Hl.
    + eapply Forall_impl; [apply (blockCells_fp br)|]. intros c ->. exact Hr.
Qed.

Lemma splitZ_layerOk (W D : Q) (a b f k : Footprint) (cF cB rF rB pl mc mr : Z) :
  (0 <= len f)%Q -> (0 <= wid f)%Q -> (0 <= len k)%Q -> (0 <= wid k)%Q ->
  0 <= cF -> 0 <= cB -> 0 <= rF -> 0 <= rB ->
  (inject_Z rF * wid f + inject_Z rB * wid k <= D)%Q ->
  (inject_Z cF * len f <= W)%Q -> (inject_Z cB * len k <= W)%Q ->
  f = a \/ f = b -> k = a \/ k = b ->
  layerOk W D a b
    {| kind := split_z;
       blocks := [ {| cols := cF; rows := rF; blk_fp := f |};
                   {| cols := cB; rows := rB; blk_fp := k |} ];
       usedWidth := Qmax (inject_Z cF * len f) (inject_Z cB * len k);
       usedDepth := inject_Z rF * wid f + inject_Z rB * wid k;
       perLayer := pl; maxCols := mc; maxRows := mr |}.
Proof.
  intros Hlf Hwf Hlk Hwk HcF HcB HrF HrB HD HWf HWk Hf Hk.
  pose proof (inject_Z_mul_nonneg cF _ HcF Hlf) as H1.
  pose proof (inject_Z_mul_nonneg cB _ HcB Hlk) as H2.
  pose proof (inject_Z_mul_nonneg rF _ HrF Hwf) as H3.
  pose proof (inject_Z_mul_nonneg rB _ HrB Hwk) as H4.
  pose proof (Q.le_max_l (inject_Z cF * len f) (inject_Z cB * len k)) as Hm1.
  pose proof (Q.le_max_r (inject_Z cF * len f) (inject_Z cB * len k)) as Hm2.
  pose proof (Q.max_lub _ _ W HWf HWk) as Hm3.
  unfold layerOk, materializeLayerCells.
  cbn [usedWidth usedDepth kind blocks cols rows blk_fp].
  set (m := Qmax (inject_Z cF * len f) (inject_Z cB * len k)) in *.
  set (bf := {| cols := cF; rows := rF; blk_fp := f |}).
  set (bb := {| cols := cB; rows := rB; blk_fp := k |}).
  split; [lra|]. split; [lra|]. split; [|split].
  - apply Forall_app. split.
    + eapply Forall_impl; [apply (blockCells_within bf); cbn; lra|].
      intros c Hc. cbn [bf cols rows blk_fp] in Hc.
      eapply cellWithin_mono; [exact Hc| | | |]; qhalves.
    + eapply Forall_impl; [apply (blockCells_within bb); cbn; lra|].
      intros c Hc. cbn [bb cols rows blk_fp] in Hc.
      eapply cellWithin_mono; [exact Hc| | | |]; qhalves.
  - apply ForallOrdPairs_app; [apply blockCells_apart; cbn; lra..|].
    intros x y Hx Hy.
    eapply (blockCells_apart_z bf bb); [| | |exact Hx|exact Hy| |]; cbn; lra || lia.
  - apply Forall_app. split.
    + eapply Forall_impl; [apply (blockCells_fp bf)|]. intros c ->. exact Hf.
    + eapply Forall_impl; [apply (blockCells_fp bb)|]. intros c ->. exact Hk.
Qed.

Lemma splitXLoop_layerOk (W D : Q) (a b l r : Footprint) (n : nat) :
  (0 < D)%Q -> (0 < len l)%Q -> (0 < wid l)%Q -> (0 < len r)%Q -> (0 < wid r)%Q ->
  l = a \/ l = b -> r = a \/ r = b ->
  forall cLeft, 1 <= cLeft ->
    Forall (layerOk W D a b) (splitXLoop W D l r n cLeft).
Proof.
  intros HD Hll Hwl Hlr Hwr Hl Hr.
  induction n as [|n IH]; intros cLeft Hc; cbn [splitXLoop]; [constructor|].
  destruct (Qltb _ 0) eqn:Hrem; [constructor|].
  apply Qltb_ge in Hrem.
  constructor; [|apply IH; lia].
  pose proof (floorQ_nonneg _ _ Hrem Hlr).
  pose proof (floorQ_nonneg D (wid l) ltac:(lra) Hwl).
  pose proof (floorQ_nonneg D (wid r) ltac:(lra) Hwr).
  pose proof (floorQ_mul_le (W - inject_Z cLeft * len l) (len r) Hlr).
  pose proof (floorQ_mul_le D (wid l) Hwl).
  pose proof (floorQ_mul_le D (wid r) Hwr).
  apply splitX_layerOk; try assumption; lra || lia.
Qed.

Lemma splitZLoop_layerOk (W D : Q) (a b f k : Footprint) (n : nat) :
  (0 < W)%Q -> (0 < len f)%Q -> (0 < wid f)%Q -> (0 < len k)%Q -> (0 < wid k)%Q ->
  f = a \/ f = b -> k = a \/ k = b ->
  forall rFront, 1 <= rFront ->
    Forall (layerOk W D a b) (splitZLoop W D f k n rFront).
Proof.
  intros HW Hlf Hwf Hlk Hwk Hf Hk.
  induction n as [|n IH]; intros rFront Hr; cbn [splitZLoop]; [constructor|].
  destruct (Qltb _ 0) eqn:Hrem; [constructor|].
  apply Qltb_ge in Hrem.
  constructor; [|apply IH; lia].
  pose proof (floorQ_nonneg _ _ Hrem Hwk).
  pose proof (floorQ_nonneg W (len f) ltac:(lra) Hlf).
  pose proof (floorQ_nonneg W (len k) ltac:(lra) Hlk).
  pose proof (floorQ_mul_le (D - inject_Z rFront * wid f) (wid k) Hwk).
  pose proof (floorQ_mul_le W (len f) Hlf).
  pose proof (floorQ_mul_le W (len k) Hlk).
  apply splitZ_layerOk; try assumption; lra || lia.
Qed.

Lemma candidatePatterns_layerOk (W D : Q) (a b : Footprint) :
  positiveDeck W D a b ->
  Forall (layerOk W D a b) (candidatePatterns W D a b).
Proof.
  intros (Hw & Hd & Hla & Hwa & Hlb & Hwb). unfold candidatePatterns.
  repeat (apply Forall_cons; split; [apply buildGridPattern_layerOk; auto|]).
  repeat (apply Forall_app; split);
    try (apply splitXLoop_layerOk; auto; lia);
    try (apply splitZLoop_layerOk; auto; lia).
Qed.

(** X9.  A layer of the pattern that [chooseBestLayerPattern] selects, as
    [materializeLayerCells] lays it out on the deck it was selected for:
    the used rectangle exceeds the deck by no more than the tolerance [EPS]
    of the filter, every cell lies in the used rectangle centred on the
    deck, so on the deck widened by [EPS / 2] on every side, and every cell
    has one of the two footprints. *)
Theorem chooseBestLayerPattern_cells_near_deck (W D : Q) (a b : Footprint) (q : Z)
    (pattern : LayerPattern) :
  positiveDeck W D a b ->
  chooseBestLayerPattern W D a b q = Some pattern ->
  (0 <= usedWidth pattern <= W + EPS)%Q /\ (0 <= usedDepth pattern <= D + EPS)%Q
  /\ forall c, c ∈ materializeLayerCells pattern W D ->
       cellWithin ((W - usedWidth pattern) / 2) ((D - usedDepth pattern) / 2)
                  (usedWidth pattern) (usedDepth pattern) c
       /\ cellWithin (- (EPS / 2)) (- (EPS / 2)) (W + EPS) (D + EPS) c
       /\ (cell_fp c = a \/ cell_fp c = b).
Proof.
  intros Hpos Hbest.
  destruct (chooseBestLayerPattern_selected _ _ _ _ _ _ Hbest)
    as (i & Hi & Hfit & _).
  apply fitsDeck_viable in Hfit as (_ & HWe & HDe).
  pose proof (candidatePatterns_layerOk W D a b Hpos) as Hall.
  rewrite Forall_lookup in Hall.
  destruct (Hall i pattern Hi) as (HW & HD & Hin & _ & Hfp).
  split; [split; [apply HW | exact HWe]|].
  split; [split; [apply HD | exact HDe]|].
  intros c Hc. rewrite Forall_forall in Hin, Hfp.
  split; [apply Hin, Hc|]. split; [|apply Hfp, Hc].
  eapply cellWithin_mono; [apply Hin, Hc| | | |]; qhalves.
Qed.

Lemma chooseBestLayerPattern_cells_near_deck_witness :
  (0 <= usedWidth unevenPattern <= 13 + EPS)%Q
  /\ (0 <= usedDepth unevenPattern <= 10 + EPS)%Q
  /\ forall c, c ∈ materializeLayerCells unevenPattern 13 10 ->
       cellWithin ((13 - usedWidth unevenPattern) / 2)
                  ((10 - usedDepth unevenPattern) / 2)
                  (usedWidth unevenPattern) (usedDepth unevenPattern) c
       /\ cellWithin (- (EPS / 2)) (- (EPS / 2)) (13 + EPS) (10 + EPS) c
       /\ (cell_fp c = footprint0 (sampleBox 5 3 1 9)
           \/ cell_fp c = footprint90 (sampleBox 5 3 1 9)).
Proof.
  apply (chooseBestLayerPattern_cells_near_deck 13 10
           (footprint0 (sampleBox 5 3 1 9)) (footprint90 (sampleBox 5 3 1 9)) 9).
  - repeat split.
  - vm_compute. reflexivity.
Defined.

(** X10.  No two cells of a layer of the selected pattern overlap: of any
    two cells, in the order of the list, one ends where the other begins,
    along the width or along the depth. *)
Theorem chooseBestLayerPattern_cells_apart (W D : Q) (a b : Footprint) (q : Z)
    (pattern : LayerPattern) :
  positiveDeck W D a b ->
  chooseBestLayerPattern W D a b q = Some pattern ->
  ForallOrdPairs cellsApart (materializeLayerCells pattern W D).
Proof.
  intros Hpos Hbest.
  destruct (chooseBestLayerPattern_selected _ _ _ _ _ _ Hbest) as (i & Hi & _).
  pose proof (candidatePatterns_layerOk W D a b Hpos) as Hall.
  rewrite Forall_lookup in Hall.
  destruct (Hall i pattern Hi) as (_ & _ & _ & Hapart & _). exact Hapart.
Qed.

Lemma chooseBestLayerPattern_cells_apart_witness :
  length (materializeLayerCells unevenPattern 13 10) = 8%nat
  /\ ForallOrdPairs cellsApart (materializeLayerCells unevenPattern 13 10).
Proof.
  split; [reflexivity|].
  apply (chooseBestLayerPattern_cells_apart 13 10
           (footprint0 (sampleBox 5 3 1 9)) (footprint90 (sampleBox 5 3 1 9)) 9).
  - repeat split.
  - vm_compute. reflexivity.
Defined.

(** ** Placements on the deck *)

Lemma pickCornerEdgePartialCells_subset (cells : list Cell) (r : Z) (c : Cell) :
  c ∈ pickCornerEdgePartialCells cells r -> c ∈ cells.
Proof.
  unfold pickCornerEdgePartialCells.
  destruct (Z.leb_spec r 0) as [Hr0|Hrpos]; [intros Hc; inversion Hc|].
  destruct cells as [|c0 rest]; [intros Hc; inversion Hc|].
  destruct (pickedIndices_count c0 rest r ltac:(lia)) as (_ & _ & Hlt).
  intros Hc. apply list_elem_of_fmap in Hc as (i & -> & Hi).
  destruct (lookup_lt_is_Some_2 (c0 :: rest) i (Hlt i Hi)) as [c Hc].
  rewrite Hc. cbn [default]. eapply list_elem_of_lookup_2, Hc.
Qed.

Section PlacementsForall.
Variable P : BoxPlacement -> Prop.
Variable base : BoxType.
Variable pallet : PalletConfig.

Lemma placeCells_Forall (li : Z) (cells : list Cell) :
  (forall c n, c ∈ cells -> P (placeCell base pallet li c n)) ->
  forall idCounter, Forall P (placeCells base pallet li cells idCounter).1.
Proof using All.
  induction cells as [|c cells IH]; intros HP n; cbn [placeCells];
    [constructor|].
  specialize (IH (fun c' n' Hc' => HP c' n' (list_elem_of_further _ _ _ Hc')) (S n)).
  destruct (placeCells base pallet li cells (S n)) as [ps n'].
  cbn [fst] in *. constructor; [|assumption].
  apply HP, list_elem_of_here.
Qed.

Variable pattern : LayerPattern.
Hypothesis HP :
  forall c li n,
    c ∈ materializeLayerCells pattern (p_width pallet) (p_depth pallet) ->
    P (placeCell base pallet li c n).

Lemma fillFullLayers_Forall (n : nat) :
  forall li idCounter,
    Forall P (fillFullLayers pattern base pallet n li idCounter).1.
Proof using All.
  induction n as [|n IH]; intros li idc; cbn [fillFullLayers]; [constructor|].
  pose proof (placeCells_Forall li _ (fun c n' Hc => HP c li n' Hc) idc) as H1.
  destruct (placeCells base pallet li _ idc) as [ps idc1].
  specialize (IH (li + 1) idc1).
  destruct (fillFullLayers pattern base pallet n (li + 1) idc1) as [qs idc2].
  cbn [fst] in *. apply Forall_app. split; assumption.
Qed.

Lemma buildPlacementsForPallet_Forall (t L : Z) (idCounter : nat) (allFull : bool) :
  Forall P (buildPlacementsForPallet t L pattern base pallet idCounter allFull).1.1.
Proof using All.
  unfold buildPlacementsForPallet.
  set (K := Z.max 1 (perLayer pattern)).
  set (n := Z.to_nat (Z.min (t / K) L)).
  pose proof (fillFullLayers_Forall n 0 idCounter) as H1.
  destruct (fillFullLayers pattern base pallet n 0 idCounter) as [full idc1].
  cbn [fst] in H1.
  destruct ((0 <? t - Z.of_nat n * K) && (Z.of_nat n <? L)); [|exact H1].
  match goal with
  | |- context [placeCells base pallet ?li ?cs idc1] =>
      pose proof (placeCells_Forall li cs
                    (fun c n' Hc =>
                       HP c li n' (pickCornerEdgePartialCells_subset _ _ _ Hc))
                    idc1) as H2;
      destruct (placeCells base pallet li cs idc1) as [part idc2]
  end.
  cbn [fst] in *. apply Forall_app. split; assumption.
Qed.

Lemma palletLoop_Forall (K L cap : Z) (allFull : bool) (targets : list Z) :
  forall p idCounter,
    Forall (fun pr => Forall P (placements pr))
           (palletLoop K L cap pattern base pallet allFull targets p idCounter).1.1.
Proof using All.
  induction targets as [|t targets IH]; intros p idc; cbn [palletLoop];
    [constructor|].
  pose proof (buildPlacementsForPallet_Forall (Z.min t cap) L idc allFull) as H1.
  destruct (buildPlacementsForPallet (Z.min t cap) L pattern base pallet idc allFull)
    as [[ps used] idc1].
  specialize (IH (p + 1) idc1).
  destruct (palletLoop K L cap pattern base pallet allFull targets (p + 1) idc1)
    as [[prs dist] idc2].
  cbn [fst] in *. constructor; assumption.
Qed.

End PlacementsForall.

Lemma clamp_edges (c ext deck : Q) :
  (ext <= deck)%Q ->
  (- (deck / 2) + EPS
   <= Qmax (- (deck / 2) + ext / 2 + EPS) (Qmin (deck / 2 - ext / 2 - EPS) c) - ext / 2)%Q
  /\ (Qmax (- (deck / 2) + ext / 2 + EPS) (Qmin (deck / 2 - ext / 2 - EPS) c) + ext / 2
      <= deck / 2 + EPS)%Q.
Proof.
  intros Hext.
  assert (0 < EPS)%Q as Heps by reflexivity.
  set (lo := (- (deck / 2) + ext / 2 + EPS)%Q).
  set (hi := (deck / 2 - ext / 2 - EPS)%Q).
  pose proof (Q.le_max_l lo (Qmin hi c)) as Hlo.
  assert (Qmax lo (Qmin hi c) <= deck / 2 + EPS - ext / 2)%Q as Hhi.
  { apply Q.max_lub.
    - unfold lo. qhalves.
    - eapply Qle_trans; [apply Q.le_min_l|]. unfold hi. qhalves. }
  unfold lo, hi in *. split; qhalves.
Qed.

(** What [buildPlacementsForPallet] pushes for a cell that is no larger than
    the deck. *)
Lemma placeCell_edges (base : BoxType) (pallet : PalletConfig) (li : Z)
    (c : Cell) (n : nat) :
  (len (cell_fp c) <= p_width pallet)%Q ->
  (wid (cell_fp c) <= p_depth pallet)%Q ->
  let bp := placeCell base pallet li c n in
  bp_box bp = withId base (makeId base n)
  /\ bp_rotation bp = rot (cell_fp c)
  /\ (- (p_width pallet / 2) + EPS <= bp_x bp - len (cell_fp c) / 2)%Q
  /\ (bp_x bp + len (cell_fp c) / 2 <= p_width pallet / 2 + EPS)%Q
  /\ (- (p_depth pallet / 2) + EPS <= bp_z bp - wid (cell_fp c) / 2)%Q
  /\ (bp_z bp + wid (cell_fp c) / 2 <= p_depth pallet / 2 + EPS)%Q.
Proof.
  intros Hl Hw. cbv zeta. unfold placeCell, clampCenterInsidePallet.
  cbn [bp_box bp_rotation bp_x bp_z].
  split; [reflexivity|]. split; [reflexivity|].
  destruct (clamp_edges (cell_x c + len (cell_fp c) / 2 - p_width pallet / 2)
              _ _ Hl) as (H1 & H2).
  destruct (clamp_edges (cell_z c + wid (cell_fp c) / 2 - p_depth pallet / 2)
              _ _ Hw) as (H3 & H4).
  auto.
Qed.

(** X11.  Every placement of a result without error carries the first valid
    box with the total quantity and an id of its own, at rotation 0 or 90;
    with the extents that the views read off the rotation, its left and
    front edges are at least [EPS] inside the deck and its right and back
    edges at most [EPS] outside. *)
Theorem performCalc_placements_on_deck (boxes : boxesArg) (pal : PalletConfig)
    (v0 : BoxType) (r : CalculationResult) :
  performCalc boxes (Some pal) = Normal r ->
  error r = None ->
  head (validBoxes (entriesOf boxes)) = Some v0 ->
  forall bp, bp ∈ allPlacements r ->
    bp_box bp = withId (withQuantity v0 (totalQuantity boxes)) (placementId bp)
    /\ (bp_rotation bp = 0 \/ bp_rotation bp = 90)
    /\ (- (p_width pal / 2) + EPS <= bp_x bp - extentX bp / 2)%Q
    /\ (bp_x bp + extentX bp / 2 <= p_width pal / 2 + EPS)%Q
    /\ (- (p_depth pal / 2) + EPS <= bp_z bp - extentZ bp / 2)%Q
    /\ (bp_z bp + extentZ bp / 2 <= p_depth pal / 2 + EPS)%Q.
Proof.
  intros Hrun Herr Hhead.
  destruct (run_positive boxes pal v0 r Hrun Herr Hhead)
    as (HW & HD & _ & Hl & Hw & _).
  destruct (run_facts boxes pal v0 r Hrun Herr Hhead)
    as (pattern & Hbest & _ & _ & _ & _ & _ & _ & _ & Hprs).
  assert (positiveDeck (p_width pal) (p_depth pal) (footprint0 v0) (footprint90 v0))
    as Hpos by (unfold positiveDeck; cbn; auto 10).
  destruct (chooseBestLayerPattern_selected _ _ _ _ _ _ Hbest) as (i & Hi & _).
  pose proof (candidatePatterns_layerOk _ _ _ _ Hpos) as Hall.
  rewrite Forall_lookup in Hall.
  destruct (Hall i pattern Hi) as (HuW & HuD & Hin & _ & Hfp).
  rewrite Forall_forall in Hin, Hfp.
  set (Q := totalQuantity boxes) in *.
  set (P := fun bp : BoxPlacement =>
    bp_box bp = withId (withQuantity v0 Q) (placementId bp)
    /\ (bp_rotation bp = 0 \/ bp_rotation bp = 90)
    /\ (- (p_width pal / 2) + EPS <= bp_x bp - extentX bp / 2)%Q
    /\ (bp_x bp + extentX bp / 2 <= p_width pal / 2 + EPS)%Q
    /\ (- (p_depth pal / 2) + EPS <= bp_z bp - extentZ bp / 2)%Q
    /\ (bp_z bp + extentZ bp / 2 <= p_depth pal / 2 + EPS)%Q).
  assert (forall c li n,
            c ∈ materializeLayerCells pattern (p_width pal) (p_depth pal) ->
            P (placeCell (withQuantity v0 Q) pal li c n)) as HP.
  { intros c li n Hc.
    destruct (Hin c Hc) as (Hx0 & Hx1 & Hz0 & Hz1).
    assert (len (cell_fp c) <= p_width pal)%Q as Hlen by qhalves.
    assert (wid (cell_fp c) <= p_depth pal)%Q as Hwid by qhalves.
    destruct (placeCell_edges (withQuantity v0 Q) pal li c n Hlen Hwid)
      as (Hbox & Hrot & H1 & H2 & H3 & H4).
    unfold P, extentX, extentZ, placementId. rewrite Hbox, Hrot.
    split; [reflexivity|].
    destruct (Hfp c Hc) as [Hc0|Hc90]; rewrite Hc0 in * || rewrite Hc90 in *;
      cbn in *; auto 10. }
  intros bp Hbp. unfold allPlacements in Hbp. rewrite Hprs in Hbp.
  unfold palletsFor in Hbp. cbv zeta in Hbp.
  match type of Hbp with
  | context [palletLoop ?K ?L ?cap ?pat ?base ?pl ?af ?ts ?p ?idc] =>
      pose proof (palletLoop_Forall P base pl pat HP K L cap af ts p idc) as Hloop
  end.
  apply list_elem_of_In, in_concat in Hbp as (ps & Hps & Hbp).
  apply list_elem_of_In, list_elem_of_fmap in Hps as (pr & -> & Hpr).
  apply list_elem_of_In in Hbp.
  rewrite Forall_forall in Hloop. specialize (Hloop pr Hpr).
  rewrite Forall_forall in Hloop. exact (Hloop bp Hbp).
Qed.

Lemma performCalc_placements_on_deck_witness :
  exists r,
    performCalc fullWidthBoxes (Some standardPallet) = Normal r
    /\ forall bp, bp ∈ allPlacements r ->
         bp_box bp
         = withId (withQuantity (sampleBox 48 20 8 1) (totalQuantity fullWidthBoxes))
                  (placementId bp)
         /\ (bp_rotation bp = 0 \/ bp_rotation bp = 90)
         /\ (- (48 / 2) + EPS <= bp_x bp - extentX bp / 2)%Q
         /\ (bp_x bp + extentX bp / 2 <= 48 / 2 + EPS)%Q
         /\ (- (40 / 2) + EPS <= bp_z bp - extentZ bp / 2)%Q
         /\ (bp_z bp + extentZ bp / 2 <= 40 / 2 + EPS)%Q.
Proof.
  pose (c := performCalc fullWidthBoxes (Some standardPallet)).
  destruct c as [r|e] eqn:Hrun; [|vm_compute in Hrun; discriminate].
  assert (error r = None) as Herr
    by (vm_compute in Hrun; injection Hrun as <-; reflexivity).
  exists r. split; [assumption|].
  exact (performCalc_placements_on_deck fullWidthBoxes standardPallet
           (sampleBox 48 20 8 1) r Hrun Herr eq_refl).
Defined.

(** ** The outcome of [performCalc] in closed form *)

Lemma floorQ_ge_1 (x y : Q) : (0 < y)%Q -> 1 <= floorQ x y <-> (y <= x)%Q.
Proof.
  intros Hy. unfold floorQ. split.
  - intros H1. pose proof (Qfloor_le (x / y)) as Hfl.
    assert (1 <= inject_Z (Qfloor (x / y)))%Q as H1Q
      by (change 1%Q with (inject_Z 1); rewrite <- Zle_Qle; assumption).
    assert (1 <= x / y)%Q as Hdiv by lra.
    apply (Qmult_le_compat_r _ _ y) in Hdiv; [|lra].
    assert (x / y * y == x)%Q as Heq by (field; lra).
    rewrite Heq in Hdiv. lra.
  - intros Hyx. change 1 with (Qfloor 1). apply Qfloor_resp_le.
    apply Qle_shift_div_l; [assumption|]. lra.
Qed.

Lemma fitsOn_true (W D : Q) (fp : Footprint) :
  fitsOn W D fp = true <-> (len fp <= W)%Q /\ (wid fp <= D)%Q.
Proof. unfold fitsOn. rewrite andb_true_iff, !Qle_bool_iff. reflexivity. Qed.

(** A grid of a footprint that fits the deck is viable. *)
Lemma buildGridPattern_fits (W D : Q) (fp : Footprint) :
  (0 < len fp)%Q -> (0 < wid fp)%Q ->
  fitsOn W D fp = true ->
  fitsDeck W D (buildGridPattern W D fp) = true.
Proof.
  intros Hl Hw Hfit. apply fitsOn_true in Hfit as (HlW & HwD).
  apply fitsDeck_viable. unfold viable, buildGridPattern.
  cbn [perLayer usedWidth usedDepth].
  apply (floorQ_ge_1 W (len fp) Hl) in HlW.
  apply (floorQ_ge_1 D (wid fp) Hw) in HwD.
  pose proof (floorQ_mul_le W (len fp) Hl).
  pose proof (floorQ_mul_le D (wid fp) Hw).
  assert (0 < EPS)%Q by reflexivity.
  split; [nia|]. split; lra.
Qed.

Lemma buildGridPattern_perLayer (W D : Q) (fp : Footprint) :
  (0 < len fp)%Q -> (0 < wid fp)%Q ->
  0 < perLayer (buildGridPattern W D fp) -> fitsOn W D fp = true.
Proof.
  intros Hl Hw. unfold buildGridPattern. cbn [perLayer]. intros HK.
  apply fitsOn_true. split; apply floorQ_ge_1; try assumption; nia.
Qed.

Lemma splitXLoop_perLayer (W D : Q) (l r : Footprint) (n : nat) :
  (0 < D)%Q -> (0 < len l)%Q -> (0 < wid l)%Q -> (0 < len r)%Q -> (0 < wid r)%Q ->
  forall cLeft, 1 <= cLeft ->
    Forall (fun p => 0 < perLayer p -> fitsOn W D l = true \/ fitsOn W D r = true)
           (splitXLoop W D l r n cLeft).
Proof.
  intros HD Hll Hwl Hlr Hwr.
  induction n as [|n IH]; intros cLeft Hc; cbn [splitXLoop]; [constructor|].
  destruct (Qltb _ 0) eqn:Hrem; [constructor|].
  apply Qltb_ge in Hrem.
  constructor; [|apply IH; lia].
  cbn [perLayer]. intros HK.
  pose proof (floorQ_nonneg _ _ Hrem Hlr) as HcR.
  pose proof (floorQ_nonneg D (wid l) ltac:(lra) Hwl) as HrL.
  pose proof (floorQ_nonneg D (wid r) ltac:(lra) Hwr) as HrR.
  rewrite !fitsOn_true.
  destruct (Z.eq_dec (floorQ D (wid l)) 0) as [H0|Hne].
  - right. rewrite H0 in HK.
    assert (1 <= floorQ (W - inject_Z cLeft * len l) (len r)) as H1 by nia.
    assert (1 <= floorQ D (wid r)) as H2 by nia.
    apply floorQ_ge_1 in H1, H2; try assumption.
    pose proof (inject_Z_mul_nonneg cLeft (len l) ltac:(lia) ltac:(lra)).
    split; lra.
  - left. assert (1 <= floorQ D (wid l)) as H1 by lia.
    apply floorQ_ge_1 in H1; [|assumption].
    pose proof (inject_Z_mul_le 1 cLeft (len l) Hc ltac:(lra)) as Hmul.
    change (inject_Z 1) with 1%Q in Hmul. split; lra.
Qed.

Lemma splitZLoop_perLayer (W D : Q) (f k : Footprint) (n : nat) :
  (0 < W)%Q -> (0 < len f)%Q -> (0 < wid f)%Q -> (0 < len k)%Q -> (0 < wid k)%Q ->
  forall rFront, 1 <= rFront ->
    Forall (fun p => 0 < perLayer p -> fitsOn W D f = true \/ fitsOn W D k = true)
           (splitZLoop W D f k n rFront).
Proof.
  intros HW Hlf Hwf Hlk Hwk.
  induction n as [|n IH]; intros rFront Hr; cbn [splitZLoop]; [constructor|].
  destruct (Qltb _ 0) eqn:Hrem; [constructor|].
  apply Qltb_ge in Hrem.
  constructor; [|apply IH; lia].
  cbn [perLayer]. intros HK.
  pose proof (floorQ_nonneg _ _ Hrem Hwk) as HrB.
  pose proof (floorQ_nonneg W (len f) ltac:(lra) Hlf) as HcF.
  pose proof (floorQ_nonneg W (len k) ltac:(lra) Hlk) as HcB.
  rewrite !fitsOn_true.
  destruct (Z.eq_dec (floorQ W (len f)) 0) as [H0|Hne].
  - right. rewrite H0 in HK.
    assert (1 <= floorQ (D - inject_Z rFront * wid f) (wid k)) as H1 by nia.
    assert (1 <= floorQ W (len k)) as H2 by nia.
    apply floorQ_ge_1 in H1, H2; try assumption.
    pose proof (inject_Z_mul_nonneg rFront (wid f) ltac:(lia) ltac:(lra)).
    split; lra.
  - left. assert (1 <= floorQ W (len f)) as H1 by lia.
    apply floorQ_ge_1 in H1; [|assumption].
    pose proof (inject_Z_mul_le 1 rFront (wid f) Hr ltac:(lra)) as Hmul.
    change (inject_Z 1) with 1%Q in Hmul. split; lra.
Qed.

(** A candidate that holds a box shows that one of the two footprints fits
    the deck. *)
Lemma candidatePatterns_perLayer (W D : Q) (a b : Footprint) :
  positiveDeck W D a b ->
  Forall (fun p => 0 < perLayer p -> fitsOn W D a = true \/ fitsOn W D b = true)
         (candidatePatterns W D a b).
Proof.
  intros (Hw & Hd & Hla & Hwa & Hlb & Hwb). unfold candidatePatterns.
  apply Forall_cons. split.
  { intros HK. left. eapply buildGridPattern_perLayer; eassumption. }
  apply Forall_cons. split.
  { intros HK. right. eapply buildGridPattern_perLayer; eassumption. }
  repeat (apply Forall_app; split).
  - apply splitXLoop_perLayer; auto; lia.
  - eapply Forall_impl; [apply splitXLoop_perLayer; auto; lia|].
    cbn beta. tauto.
  - apply splitZLoop_perLayer; auto; lia.
  - eapply Forall_impl; [apply splitZLoop_perLayer; auto; lia|].
    cbn beta. tauto.
Qed.

(** The search finds a pattern exactly when one of the footprints fits. *)
Lemma chooseBestLayerPattern_fits (W D : Q) (a b : Footprint) (q : Z) :
  positiveDeck W D a b ->
  match chooseBestLayerPattern W D a b q with
  | Some p => 0 < perLayer p /\ fitsOn W D a || fitsOn W D b = true
  | None => fitsOn W D a || fitsOn W D b = false
  end.
Proof.
  intros Hpos.
  destruct (chooseBestLayerPattern W D a b q) as [p|] eqn:Hbest.
  - destruct (chooseBestLayerPattern_selected _ _ _ _ _ _ Hbest)
      as (i & Hi & Hfit & _).
    apply fitsDeck_viable in Hfit as (HK & _). split; [assumption|].
    pose proof (candidatePatterns_perLayer W D a b Hpos) as Hall.
    rewrite Forall_lookup in Hall. apply orb_true_iff, (Hall i p Hi HK).
  - destruct Hpos as (Hw & Hd & Hla & Hwa & Hlb & Hwb).
    unfold chooseBestLayerPattern, candidatePatterns in Hbest.
    cbn [app List.filter] in Hbest.
    apply orb_false_iff. split; apply not_true_iff_false; intros Hfit.
    + rewrite (buildGridPattern_fits W D a Hla Hwa Hfit) in Hbest. discriminate.
    + rewrite (buildGridPattern_fits W D b Hlb Hwb Hfit) in Hbest.
      destruct (fitsDeck W D (buildGridPattern W D a)); discriminate.
Qed.

(** The error of [packValid] by comparisons of the dimensions alone. *)
Lemma packValid_error (pal : PalletConfig) (valid : list BoxType) :
  palletRejected pal = false ->
  Forall (fun b => (0 < b_length b)%Q /\ (0 < b_width b)%Q /\ (0 < b_height b)%Q) valid ->
  error (packValid pal valid) = expectedError pal valid.
Proof.
  intros Hrej Hvalid. unfold expectedError, packValid. rewrite Hrej.
  destruct valid as [|v0 vs]; [reflexivity|].
  apply palletRejected_false in Hrej as (HW & HD & Hh).
  apply Forall_cons in Hvalid as ((Hl & Hw & Hbh) & _).
  assert (positiveDeck (p_width pal) (p_depth pal) (footprint0 v0) (footprint90 v0))
    as Hpos by (unfold positiveDeck; cbn; auto 10).
  cbv zeta.
  pose proof (chooseBestLayerPattern_fits _ _ _ _ (sumZ (b_quantity <$> v0 :: vs)) Hpos)
    as Hfits.
  destruct (chooseBestLayerPattern _ _ _ _ _) as [p|].
  - destruct Hfits as (HK & ->). cbn [negb].
    destruct (Z.eqb_spec (perLayer p) 0) as [|_]; [lia|].
    unfold layersMaxOf.
    destruct (Qle_bool (b_height v0) _) eqn:Hclear.
    + apply Qle_bool_iff, (floorQ_ge_1 _ _ Hbh) in Hclear.
      destruct (Z.leb_spec (floorQ (p_maxHeight pal - p_height pal + EPS) (b_height v0)) 0);
        [lia|].
      apply runResult_fields.
    + destruct (Z.leb_spec (floorQ (p_maxHeight pal - p_height pal + EPS) (b_height v0)) 0)
        as [|Hpos1]; [reflexivity|].
      assert (1 <= floorQ (p_maxHeight pal - p_height pal + EPS) (b_height v0)) as H1
        by lia.
      apply (floorQ_ge_1 _ _ Hbh), Qle_bool_iff in H1. congruence.
  - rewrite Hfits. reflexivity.
Qed.

Lemma validBoxes_all_positive (entries : list (option BoxType)) :
  Forall (fun b => (0 < b_length b)%Q /\ (0 < b_width b)%Q /\ (0 < b_height b)%Q)
         (validBoxes entries).
Proof.
  apply Forall_forall. intros b Hb.
  apply validBoxes_positive in Hb as (_ & Hl & Hw & Hh & _). auto.
Qed.

(** X12.  Whenever [performCalc] returns a result for a pallet and boxes,
    the error of the result is decided by comparisons of the dimensions
    alone, in this order: the pallet check, then whether a first valid box
    exists, then whether that box fits the deck lengthwise or turned by 90
    degrees, then whether its height is within the clearance plus [EPS];
    the result has no error exactly when all four pass.  Whether
    [performCalc] returns is no part of the statement. *)
Theorem performCalc_error_closed_form (boxes : boxesArg) (pal : PalletConfig)
    (r : CalculationResult) :
  performCalc boxes (Some pal) = Normal r ->
  error r = expectedError pal (validBoxes (entriesOf boxes)).
Proof.
  intros Hrun.
  destruct (palletRejected pal) eqn:Hrej.
  { rewrite (performCalc_rejected _ _ Hrej) in Hrun. injection Hrun as <-.
    unfold expectedError. rewrite Hrej. reflexivity. }
  rewrite (performCalc_packValid _ _ Hrej) in Hrun.
  assert (r = packValid pal (validBoxes (entriesOf boxes))) as ->
    by (destruct boxes; [injection Hrun as <-; reflexivity..|discriminate]).
  apply packValid_error; [assumption|]. apply validBoxes_all_positive.
Qed.

Lemma performCalc_error_closed_form_witness :
  exists r,
    performCalc tightBoxes (Some tightPallet) = Normal r
    /\ error r = expectedError tightPallet (validBoxes (entriesOf tightBoxes))
    /\ error r = None.
Proof.
  pose (c := performCalc tightBoxes (Some tightPallet)).
  destruct c as [r|e] eqn:Hrun; [|vm_compute in Hrun; discriminate].
  assert (error r = None) as Herr
    by (vm_compute in Hrun; injection Hrun as <-; reflexivity).
  exists r. split; [assumption|]. split; [|assumption].
  exact (performCalc_error_closed_form tightBoxes tightPallet r Hrun).
Defined.

(** ** Validation of the form *)

Lemma app_required_nonempty (s t : string) :
  t <> EmptyString -> s +:+ t <> EmptyString.
Proof. destruct s; cbn; [auto | discriminate]. Qed.

Lemma validateQuantity_ok (n : jsnum) : fieldResultOk (validateQuantity n).
Proof. destruct n; unfold validateQuantity; field_ok. Qed.

Lemma validateBoxDimension_ok (n : jsnum) (name : string) :
  fieldResultOk (validateBoxDimension n name).
Proof. destruct n; unfold validateBoxDimension; field_ok. Qed.

Lemma validateBoxWeight_ok (n : jsnum) : fieldResultOk (validateBoxWeight n).
Proof. destruct n; unfold validateBoxWeight; field_ok. Qed.

Lemma validatePalletDimension_ok (n : jsnum) (name : string) :
  fieldResultOk (validatePalletDimension n name).
Proof. destruct n; unfold validatePalletDimension; field_ok. Qed.

Lemma validateMaxHeight_ok (n m : jsnum) : fieldResultOk (validateMaxHeight n m).
Proof. destruct n; unfold validateMaxHeight; field_ok. Qed.

Lemma validateCustomPalletWidth_ok (n : jsnum) :
  fieldResultOk (validateCustomPalletWidth n).
Proof. destruct n; unfold validateCustomPalletWidth; field_ok. Qed.

Lemma validateCustomPalletDepth_ok (n : jsnum) :
  fieldResultOk (validateCustomPalletDepth n).
Proof. destruct n; unfold validateCustomPalletDepth; field_ok. Qed.

Lemma validateCustomPalletHeight_ok (n : jsnum) :
  fieldResultOk (validateCustomPalletHeight n).
Proof. destruct n; unfold validateCustomPalletHeight; field_ok. Qed.

Lemma validateCustomPalletWeight_ok (n : jsnum) :
  fieldResultOk (validateCustomPalletWeight n).
Proof. destruct n; unfold validateCustomPalletWeight; field_ok. Qed.

Lemma pushInvalid_Forall (P : ValidationError -> Prop) (field : string)
    (r : FieldValidationResult) (errors : list ValidationError) :
  (isValid r = false ->
   P {| ve_field := field; ve_code := "INVALID"; ve_message := fv_error r;
        ve_severity := sev_error |}) ->
  Forall P errors -> Forall P (pushInvalid field r errors).
Proof.
  intros HP Hall. unfold pushInvalid.
  destruct (isValid r); cbn [negb]; [assumption|].
  apply Forall_app. split; [assumption|]. constructor; [auto|constructor].
Qed.

Lemma pushInvalid_nil (field : string) (r : FieldValidationResult)
    (errors : list ValidationError) :
  pushInvalid field r errors = [] <-> errors = [] /\ isValid r = true.
Proof.
  unfold pushInvalid. destruct (isValid r); cbn [negb].
  - tauto.
  - split; [|intros (_ & H); discriminate].
    intros H. apply app_eq_nil in H as (_ & H). discriminate.
Qed.

Lemma truthyString_Some (s : option string) :
  truthyString s = true <-> exists m, s = Some m /\ m <> EmptyString.
Proof.
  destruct s as [[|c m]|]; cbn; split; try discriminate.
  - intros (m & Hm & Hne). congruence.
  - intros _. eexists. split; [reflexivity | discriminate].
  - reflexivity.
  - intros (m & Hm & _). discriminate.
Qed.

(** X13.  [validateForCalculation] is valid exactly when it lists no error,
    never lists a warning, and every error it lists has the code INVALID,
    the severity error and a message that is not empty: no field result
    that is invalid lacks its [error]. *)
Theorem validateForCalculation_errors (box : BoxDimensions)
    (pallet : ValidationPalletConfig) (palletWeight : jsnum) (isCustomPallet : bool) :
  let res := validateForCalculation box pallet palletWeight isCustomPallet in
  (vr_isValid res = true <-> vr_errors res = [])
  /\ vr_warnings res = []
  /\ Forall (fun e =>
               ve_code e = "INVALID"%string /\ ve_severity e = sev_error
               /\ exists m, ve_message e = Some m /\ m <> EmptyString)
            (vr_errors res).
Proof.
  cbv zeta. unfold validateForCalculation. cbv zeta.
  cbn [vr_isValid vr_errors vr_warnings].
  split; [|split; [reflexivity|]].
  { rewrite Nat.eqb_eq. apply length_zero_iff_nil. }
  set (P := fun e : ValidationError =>
              ve_code e = "INVALID"%string /\ ve_severity e = sev_error
              /\ exists m, ve_message e = Some m /\ m <> EmptyString).
  assert (forall f r, fieldResultOk r -> isValid r = false ->
            P {| ve_field := f; ve_code := "INVALID"; ve_message := fv_error r;
                 ve_severity := sev_error |}) as HP.
  { intros f r Hok Hinv. unfold fieldResultOk in Hok. rewrite Hinv in Hok.
    unfold P. cbn. auto. }
  assert (forall f r errs, fieldResultOk r -> Forall P errs ->
            Forall P (pushInvalid f r errs)) as Hpush.
  { intros f r errs Hok Hall. apply pushInvalid_Forall; auto. }
  match goal with
  | |- Forall P (if truthyString ?e then ?l ++ _ else _) =>
      assert (Forall P l) as Hl
  end.
  { destruct isCustomPallet;
      repeat (apply Hpush;
              [first [apply validateQuantity_ok | apply validateBoxDimension_ok
                     | apply validateBoxWeight_ok | apply validatePalletDimension_ok
                     | apply validateMaxHeight_ok | apply validateCustomPalletWidth_ok
                     | apply validateCustomPalletDepth_ok
                     | apply validateCustomPalletHeight_ok
                     | apply validateCustomPalletWeight_ok]|]);
      constructor. }
  destruct (truthyString _) eqn:Htruthy; [|assumption].
  apply Forall_app. split; [assumption|]. constructor; [|constructor].
  apply truthyString_Some in Htruthy. unfold P. cbn. auto.
Qed.

(** ** From the form to the engine *)

Lemma validateBoxDimension_valid (v : Q) (name : string) :
  isValid (validateBoxDimension (Num v) name) = true <-> (1 # 10 < v <= 120)%Q.
Proof.
  unfold validateBoxDimension, boxMinDimIn, boxMaxDimIn.
  destruct (Qle_bool v (1 # 10)) eqn:Hmin; cbn [isValid createFieldResult].
  - apply Qle_bool_iff in Hmin. split; [discriminate | lra].
  - assert (1 # 10 < v)%Q as Hlt.
    { apply Qnot_le_lt. intros Hle. apply Qle_bool_iff in Hle. congruence. }
    destruct (Qltb 120 v) eqn:Hmax; cbn [isValid createFieldResult].
    + apply Qltb_lt in Hmax. split; [discriminate | lra].
    + apply Qltb_ge in Hmax. split; auto.
Qed.

Lemma validateQuantity_valid (n : Z) :
  isValid (validateQuantity (Num (inject_Z n))) = true <-> 1 <= n <= 100000.
Proof.
  unfold validateQuantity, isInteger, boxMaxQuantity.
  rewrite Qfloor_Z, Qeq_bool_refl. cbn [negb].
  destruct (Qle_bool (inject_Z n) 0) eqn:Hpos; cbn [isValid createFieldResult].
  - apply Qle_bool_iff in Hpos. change 0%Q with (inject_Z 0) in Hpos.
    rewrite <- Zle_Qle in Hpos. split; [discriminate | lia].
  - assert (0 < n) as Hn.
    { apply Z.nle_gt. intros Hle. apply not_true_iff_false in Hpos. apply Hpos.
      apply Qle_bool_iff. change 0%Q with (inject_Z 0). rewrite <- Zle_Qle.
      assumption. }
    destruct (Qltb 100000 (inject_Z n)) eqn:Hmax; cbn [isValid createFieldResult].
    + apply Qltb_lt in Hmax. change 100000%Q with (inject_Z 100000) in Hmax.
      rewrite <- Zlt_Qlt in Hmax. split; [discriminate | lia].
    + apply Qltb_ge in Hmax. change 100000%Q with (inject_Z 100000) in Hmax.
      rewrite <- Zle_Qle in Hmax. split; [lia | reflexivity].
Qed.

Lemma orZero_positive (q : Q) : (0 < q)%Q -> orZero (Num q) = Num q.
Proof.
  intros Hq. unfold orZero.
  destruct (Qeq_bool q 0) eqn:Heq; [|reflexivity].
  apply Qeq_bool_iff in Heq. lra.
Qed.

(** No complaint of the compatibility check on a box of positive length
    and width: the box has the vertical space and fits the deck. *)
Lemma compatibility_silent (b : BoxType) (pal : PalletConfig) :
  (0 < b_length b)%Q -> (0 < b_width b)%Q ->
  truthyString (c_error (validateBoxPalletCompatibility (dimsOf b) (palletDimsOf pal)))
  = false ->
  (b_height b <= p_maxHeight pal - p_height pal)%Q
  /\ fitsOn (p_width pal) (p_depth pal) (footprint0 b)
     || fitsOn (p_width pal) (p_depth pal) (footprint90 b) = true.
Proof.
  intros Hl Hw. unfold validateBoxPalletCompatibility, dimsOf, palletDimsOf.
  cbn [bd_height bd_length bd_width vp_height vp_maxHeight vp_width vp_depth
       c_error].
  rewrite !(orZero_positive _ Hl), !(orZero_positive _ Hw). cbn [jsLe].
  unfold fitsOn, footprint0, footprint90. cbn [len wid].
  destruct (Qle_bool (b_height b) _) eqn:Hvert; cbn [negb]; [|discriminate].
  apply Qle_bool_iff in Hvert.
  destruct (_ || _); cbn [negb truthyString]; [auto | discriminate].
Qed.

(** What the form has to ensure for the engine to accept the first box:
    a result that [performCalc] returns has no error. *)
Lemma engine_accepts (b : BoxType) (pal : PalletConfig)
    (rest : list (option BoxType)) (r : CalculationResult) :
  (1 # 10 < b_length b)%Q -> (1 # 10 < b_width b)%Q -> (1 # 10 < b_height b)%Q ->
  1 <= b_quantity b ->
  truthyString (c_error (validateBoxPalletCompatibility (dimsOf b) (palletDimsOf pal)))
  = false ->
  performCalc (BArray (Some b :: rest)) (Some pal) = Normal r ->
  error r = None.
Proof.
  intros Hl Hw Hh Hq Hcompat Hrun.
  destruct (compatibility_silent b pal ltac:(lra) ltac:(lra) Hcompat)
    as (Hvert & Hfit).
  assert (palletRejected pal = false) as Hrej.
  { apply palletRejected_false.
    apply orb_true_iff in Hfit. rewrite !fitsOn_true in Hfit.
    unfold footprint0, footprint90 in Hfit. cbn [len wid] in Hfit.
    repeat split; [destruct Hfit as [[? ?]|[? ?]]; lra..|lra]. }
  assert (validBoxes (Some b :: rest) = b :: validBoxes rest) as Hvalid.
  { unfold validBoxes. cbn [List.filter isValidBox].
    assert (Qltb 0 (b_length b) = true) as -> by (apply Qltb_lt; lra).
    assert (Qltb 0 (b_width b) = true) as -> by (apply Qltb_lt; lra).
    assert (Qltb 0 (b_height b) = true) as -> by (apply Qltb_lt; lra).
    assert ((0 <? b_quantity b) = true) as -> by (apply Z.ltb_lt; lia).
    reflexivity. }
  rewrite (performCalc_packValid _ _ Hrej) in Hrun. injection Hrun as <-.
  cbn [entriesOf]. rewrite packValid_error;
    [|assumption|apply validBoxes_all_positive].
  rewrite Hvalid. unfold expectedError. rewrite Hrej, Hfit. cbn [negb].
  assert (Qle_bool (b_height b) (p_maxHeight pal - p_height pal + EPS) = true) as ->;
    [|reflexivity].
  apply Qle_bool_iff. assert (0 < EPS)%Q by reflexivity. lra.
Qed.

Lemma isFormValid_true (b : BoxType) (pal : PalletConfig) (palletWeight : jsnum) :
  isFormValid (Some b) pal palletWeight = true
  <-> isValid (validateQuantity (Num (inject_Z (b_quantity b)))) = true
      /\ isValid (validateBoxDimension (Num (b_length b)) "Length") = true
      /\ isValid (validateBoxDimension (Num (b_width b)) "Width") = true
      /\ isValid (validateBoxDimension (Num (b_height b)) "Height") = true
      /\ isValid (validateBoxWeight (Num (b_weight b))) = true
      /\ isValid (validateMaxHeight (Num (p_maxHeight pal)) (Num (b_height b))) = true
      /\ (String.eqb (p_type pal) "custom" = true ->
          isValid (validateCustomPalletWidth (Num (p_width pal))) = true
          /\ isValid (validateCustomPalletDepth (Num (p_depth pal))) = true
          /\ isValid (validateCustomPalletHeight (Num (p_height pal))) = true
          /\ isValid (validateCustomPalletWeight palletWeight) = true)
      /\ truthyString
           (c_error (validateBoxPalletCompatibility (dimsOf b) (palletDimsOf pal)))
         = false.
Proof.
  unfold isFormValid. cbv zeta. cbn [dimsOf bd_quantity bd_length bd_width bd_height bd_weight].
  rewrite !andb_true_iff, orb_true_iff, !andb_true_iff, !negb_true_iff.
  destruct (String.eqb (p_type pal) "custom"); intuition discriminate.
Qed.

(** X14.  A form that the page accepts passes every check of the engine:
    when [isFormValid] holds for the first box, a result that [performCalc]
    returns for the boxes and the pallet has no error and at least one
    pallet, whatever the other entries of the box list.  Whether
    [performCalc] returns is no part of the statement. *)
Theorem isFormValid_engine_accepts (b : BoxType) (rest : list (option BoxType))
    (pal : PalletConfig) (palletWeight : jsnum) (r : CalculationResult) :
  isFormValid (Some b) pal palletWeight = true ->
  performCalc (BArray (Some b :: rest)) (Some pal) = Normal r ->
  error r = None /\ pallets r <> [].
Proof.
  intros Hform Hrun. apply isFormValid_true in Hform
    as (Hq & Hl & Hw & Hh & _ & _ & _ & Hcompat).
  apply validateQuantity_valid in Hq.
  apply validateBoxDimension_valid in Hl, Hw, Hh.
  pose proof (engine_accepts b pal rest r ltac:(lra) ltac:(lra) ltac:(lra)
                ltac:(lia) Hcompat Hrun) as Herr.
  split; [assumption|].
  destruct (performCalc_runResult _ _ r Hrun Herr)
    as (pal' & v0 & vs & pat & Hpal & _ & _ & _ & _ & HK & HL & HQ & Hr).
  injection Hpal as <-.
  destruct (runResult_fields pal v0 (totalQuantity (BArray (Some b :: rest))) pat)
    as (Hprs & _). cbv zeta in Hprs. rewrite <- Hr in Hprs.
  destruct (targetsFor_facts pal v0 _ pat HK HL HQ) as (HP1 & _). cbv zeta in HP1.
  intros Hnil. rewrite Hprs in Hnil.
  apply (f_equal length) in Hnil. rewrite palletsFor_length in Hnil.
  cbn [length] in Hnil. lia.
Qed.

Lemma isFormValid_engine_accepts_witness :
  isFormValid (Some formBox) formPallet (Num 45) = true
  /\ exists r,
       performCalc (BArray [Some formBox]) (Some formPallet) = Normal r
       /\ error r = None
       /\ pallets r <> [].
Proof.
  split; [vm_compute; reflexivity|].
  pose (c := performCalc (BArray [Some formBox]) (Some formPallet)).
  destruct c as [r|e] eqn:Hrun; [|vm_compute in Hrun; discriminate].
  exists r. split; [assumption|].
  apply (isFormValid_engine_accepts formBox [] formPallet (Num 45) r);
    [vm_compute; reflexivity | exact Hrun].
Defined.

Lemma validateForCalculation_valid (box : BoxDimensions)
    (pallet : ValidationPalletConfig) (palletWeight : jsnum) (isCustomPallet : bool) :
  vr_isValid (validateForCalculation box pallet palletWeight isCustomPallet) = true
  <-> isValid (validateQuantity (bd_quantity box)) = true
      /\ isValid (validateBoxDimension (bd_length box) "Length") = true
      /\ isValid (validateBoxDimension (bd_width box) "Width") = true
      /\ isValid (validateBoxDimension (bd_height box) "Height") = true
      /\ isValid (validateBoxWeight (bd_weight box)) = true
      /\ isValid (validatePalletDimension (vp_width pallet) "Width") = true
      /\ isValid (validatePalletDimension (vp_depth pallet) "Depth") = true
      /\ isValid (validatePalletDimension (vp_height pallet) "Height") = true
      /\ isValid (validateMaxHeight (vp_maxHeight pallet)
                    (jsMax (jsMax (orZero (bd_length box)) (orZero (bd_width box)))
                           (orZero (bd_height box)))) = true
      /\ (isCustomPallet = true ->
          isValid (validateCustomPalletWidth (vp_width pallet)) = true
          /\ isValid (validateCustomPalletDepth (vp_depth pallet)) = true
          /\ isValid (validateCustomPalletHeight (vp_height pallet)) = true
          /\ isValid (validateCustomPalletWeight palletWeight) = true)
      /\ truthyString (c_error (validateBoxPalletCompatibility box pallet)) = false.
Proof.
  unfold validateForCalculation. cbv zeta. cbn [vr_isValid].
  rewrite Nat.eqb_eq, length_zero_iff_nil.
  destruct (truthyString (c_error _)) eqn:Hcompat.
  { split; [|intros H; decompose [and] H; discriminate].
    intros H. apply app_eq_nil in H as (_ & H). discriminate. }
  destruct isCustomPallet; rewrite !pushInvalid_nil; intuition discriminate.
Qed.

(** X15.  [validateForCalculation] is at least as strict as the page: for a
    box and a pallet of finite dimensions, with the custom checks switched
    on exactly for a pallet of type custom, a valid result implies that
    [isFormValid] holds, and that a result which [performCalc] returns has
    no error.  Whether [performCalc] returns is no part of the statement. *)
Theorem validateForCalculation_implies_form (b : BoxType)
    (rest : list (option BoxType)) (pal : PalletConfig) (palletWeight : jsnum) :
  vr_isValid (validateForCalculation (dimsOf b) (palletDimsOf pal) palletWeight
                (String.eqb (p_type pal) "custom")) = true ->
  isFormValid (Some b) pal palletWeight = true
  /\ forall r,
       performCalc (BArray (Some b :: rest)) (Some pal) = Normal r ->
       error r = None.
Proof.
  intros Hvalid. apply validateForCalculation_valid in Hvalid
    as (Hq & Hl & Hw & Hh & Hwt & _ & _ & _ & Hmax & Hcustom & Hcompat).
  cbn [dimsOf palletDimsOf bd_quantity bd_length bd_width bd_height bd_weight
       vp_width vp_depth vp_height vp_maxHeight] in Hq, Hl, Hw, Hh, Hwt, Hmax, Hcustom.
  pose proof Hq as Hq'. pose proof Hl as Hl'. pose proof Hw as Hw'.
  pose proof Hh as Hh'.
  apply validateQuantity_valid in Hq'.
  apply validateBoxDimension_valid in Hl', Hw', Hh'.
  split.
  - apply isFormValid_true. do 5 (split; [assumption|]).
    split; [|split; assumption].
    revert Hmax. rewrite !orZero_positive by lra. cbn [jsMax].
    unfold validateMaxHeight.
    destruct (Qltb overallMaxHeightIn (p_maxHeight pal)); [auto|].
    cbn [truthy jsLe].
    destruct (Qle_bool (p_maxHeight pal) (b_height b)) eqn:Hlow;
      [|rewrite andb_false_r; auto].
    apply Qle_bool_iff in Hlow.
    pose proof (Q.le_max_r (Qmax (b_length b) (b_width b)) (b_height b)) as Hge.
    assert (Qeq_bool (Qmax (Qmax (b_length b) (b_width b)) (b_height b)) 0 = false)
      as ->.
    { apply not_true_iff_false. intros Heq. apply Qeq_bool_iff in Heq. lra. }
    assert (Qle_bool (p_maxHeight pal)
              (Qmax (Qmax (b_length b) (b_width b)) (b_height b)) = true) as ->
      by (apply Qle_bool_iff; lra).
    cbn. discriminate.
  - intros r Hrun. eapply engine_accepts; [..|exact Hrun]; try assumption; lra || lia.
Qed.

Lemma validateForCalculation_implies_form_witness :
  vr_isValid (validateForCalculation (dimsOf formBox) (palletDimsOf formPallet)
                (Num 45) false) = true
  /\ isFormValid (Some formBox) formPallet (Num 45) = true
  /\ forall r,
       performCalc (BArray [Some formBox]) (Some formPallet) = Normal r ->
       error r = None.
Proof.
  split; [vm_compute; reflexivity|].
  apply (validateForCalculation_implies_form formBox [] formPallet (Num 45)).
  vm_compute. reflexivity.
Defined.

(** ** Occupancy of the layers *)

Lemma fillFullLayers_onLayer (pattern : LayerPattern) (base : BoxType)
    (pallet : PalletConfig) (j : Z) (n : nat) :
  forall li idCounter,
    length (onLayer j (fillFullLayers pattern base pallet n li idCounter).1)
    = if (li <=? j) && (j <? li + Z.of_nat n)
      then length (materializeLayerCells pattern (p_width pallet) (p_depth pallet))
      else 0%nat.
Proof.
  induction n as [|n IH]; intros li idc; cbn [fillFullLayers].
  - cbn [fst onLayer List.filter length].
    destruct (Z.leb_spec li j), (Z.ltb_spec j (li + Z.of_nat 0)); cbn; lia.
  - destruct (placeCells_facts base pallet li
                (materializeLayerCells pattern (p_width pallet) (p_depth pallet)) idc)
      as (Hlen1 & Hall1).
    destruct (placeCells base pallet li _ idc) as [ps idc1]. cbn [fst] in *.
    specialize (IH (li + 1) idc1).
    destruct (fillFullLayers pattern base pallet n (li + 1) idc1) as [qs idc2].
    cbn [fst] in *. rewrite onLayer_app, length_app, IH.
    destruct (Z.eq_dec j li) as [->|Hne].
    + rewrite (onLayer_all li ps Hall1), Hlen1.
      destruct (Z.leb_spec (li + 1) li); [lia|]. cbn [andb].
      destruct (Z.leb_spec li li); [|lia].
      destruct (Z.ltb_spec li (li + Z.of_nat (S n))); [|lia]. cbn [andb]. lia.
    + rewrite (onLayer_none j li ps Hne Hall1). cbn [length].
      destruct (Z.leb_spec (li + 1) j), (Z.ltb_spec j (li + 1 + Z.of_nat n)),
        (Z.leb_spec li j), (Z.ltb_spec j (li + Z.of_nat (S n)));
        cbn [andb]; lia.
Qed.

(** Layer [j] of a pallet with the target [t] holds [min K (t - j K)]
    boxes: [K] below the top, the rest on top. *)
Lemma buildPlacementsForPallet_onLayer (t L : Z) (pattern : LayerPattern)
    (base : BoxType) (pallet : PalletConfig) (idCounter : nat) (allFull : bool) :
  cellsMatch pattern ->
  0 < perLayer pattern ->
  0 <= t <= perLayer pattern * L ->
  let res := buildPlacementsForPallet t L pattern base pallet idCounter allFull in
  forall j, 0 <= j < res.1.2 ->
    Z.of_nat (length (onLayer j res.1.1))
    = Z.min (perLayer pattern) (t - j * perLayer pattern).
Proof.
  intros Hcells HK Ht res. subst res. unfold buildPlacementsForPallet.
  set (K := perLayer pattern) in *.
  rewrite (Z.max_r 1 K) by lia.
  pose proof (Z.div_mod t K ltac:(lia)) as Hdm.
  pose proof (Z.mod_pos_bound t K ltac:(lia)) as Hm.
  assert (0 <= t / K) as Hq by (apply Z.div_pos; lia).
  assert (t / K <= L) as HqL by (apply Z.div_le_upper_bound; lia).
  rewrite (Z.min_l (t / K) L) by lia.
  rewrite Z2Nat.id by lia.
  specialize (Hcells (p_width pallet) (p_depth pallet)). fold K in Hcells.
  pose proof (fun j => fillFullLayers_onLayer pattern base pallet j
                         (Z.to_nat (t / K)) 0 idCounter) as Hfull.
  destruct (fillFullLayers pattern base pallet (Z.to_nat (t / K)) 0 idCounter)
    as [full idc1]. cbn [fst] in Hfull.
  assert (forall j, 0 <= j ->
            Z.of_nat (length (onLayer j full)) = if j <? t / K then K else 0)
    as Hfull'.
  { intros j Hj. rewrite Hfull, Z2Nat.id by lia.
    destruct (Z.leb_spec 0 j); [|lia]. cbn [andb]. rewrite Z.add_0_l.
    destruct (j <? t / K); [assumption | reflexivity]. }
  destruct (Z.ltb_spec 0 (t - t / K * K)) as [Hrem|Hrem]; cbn [andb].
  - destruct (Z.ltb_spec (t / K) L) as [Hlt|Hge]; [|exfalso; nia].
    destruct (pickCornerEdgePartialCells_indices
                (materializeLayerCells pattern (p_width pallet) (p_depth pallet))
                (t - t / K * K) ltac:(lia)) as (idxs & _ & Hlen & Hall).
    apply Forall2_length in Hall.
    destruct (placeCells_facts base pallet (t / K)
                (pickCornerEdgePartialCells
                   (materializeLayerCells pattern (p_width pallet) (p_depth pallet))
                   (t - t / K * K)) idc1) as (Hlen2 & Hlay2).
    destruct (placeCells base pallet (t / K) _ idc1) as [part idc2].
    cbn [fst snd] in *. intros j Hj.
    rewrite onLayer_app, length_app, Nat2Z.inj_add, (Hfull' j) by lia.
    destruct (Z.ltb_spec j (t / K)) as [Hjq|Hjq].
    + rewrite (onLayer_none j (t / K) part ltac:(lia) Hlay2). cbn [length]. nia.
    + assert (j = t / K) as -> by lia.
      rewrite (onLayer_all (t / K) part Hlay2). nia.
  - cbn [fst snd]. intros j Hj. rewrite (Hfull' j) by lia.
    destruct (Z.ltb_spec j (t / K)); nia.
Qed.

Lemma palletLoop_onLayer (K L : Z) (pattern : LayerPattern) (base : BoxType)
    (pallet : PalletConfig) (allFull : bool) (targets : list Z) :
  K = perLayer pattern ->
  cellsMatch pattern ->
  0 < K ->
  Forall (fun t => 0 <= t <= K * L) targets ->
  forall p idCounter,
    Forall (fun pr =>
              forall j, 0 <= j < layers pr ->
                Z.of_nat (length (onLayer j (placements pr)))
                = Z.min K (pr_totalBoxes pr - j * K))
           (palletLoop K L (K * L) pattern base pallet allFull targets p idCounter).1.1.
Proof.
  intros -> Hcells HK Hall.
  induction Hall as [|t targets Ht Hall IH]; intros p idc; cbn [palletLoop];
    [constructor|].
  rewrite (Z.min_l t) by lia.
  pose proof (buildPlacementsForPallet_onLayer t L pattern base pallet idc allFull
                Hcells HK Ht) as Hon.
  pose proof (buildPlacementsForPallet_count t L pattern base pallet idc allFull
                Hcells HK Ht) as (Hlen & _).
  destruct (buildPlacementsForPallet t L pattern base pallet idc allFull)
    as [[ps used] idc1]. cbn [fst snd] in Hon, Hlen.
  specialize (IH (p + 1) idc1).
  destruct (palletLoop (perLayer pattern) L (perLayer pattern * L) pattern base
              pallet allFull targets (p + 1) idc1) as [[prs dist] idc2].
  cbn [fst snd] in *. constructor; [|exact IH].
  cbn [layers placements pr_totalBoxes]. rewrite Hlen. exact Hon.
Qed.

Lemma palletsFor_onLayer (pal : PalletConfig) (v0 : BoxType) (Q : Z)
    (pattern : LayerPattern) :
  cellsMatch pattern ->
  0 < perLayer pattern ->
  0 < layersMaxOf pal (b_height v0) ->
  1 <= Q ->
  Forall (fun pr =>
            forall j, 0 <= j < layers pr ->
              Z.of_nat (length (onLayer j (placements pr)))
              = Z.min (perLayer pattern) (pr_totalBoxes pr - j * perLayer pattern))
         (palletsFor pal v0 Q pattern).
Proof.
  intros Hcells HK HL HQ.
  destruct (targetsFor_facts pal v0 Q pattern HK HL HQ) as (_ & _ & _ & _ & Hall).
  cbv zeta in Hall. revert Hall. unfold palletsFor, targetsFor. cbv zeta.
  change (b_height (withQuantity v0 Q)) with (b_height v0).
  intros Hall. apply palletLoop_onLayer; auto.
Qed.

Lemma palletsFor_occupancy (pal : PalletConfig) (v0 : BoxType) (Q : Z)
    (pattern : LayerPattern) (pr : PalletResult) (j : Z) :
  cellsMatch pattern ->
  0 < perLayer pattern ->
  0 < layersMaxOf pal (b_height v0) ->
  1 <= Q ->
  pr ∈ palletsFor pal v0 Q pattern ->
  0 <= j < layers pr ->
  Z.of_nat (length (onLayer j (placements pr)))
  = Z.min (boxesPerLayer pr) (pr_totalBoxes pr - j * boxesPerLayer pr)
  /\ 1 <= Z.of_nat (length (onLayer j (placements pr)))
  /\ (j < layers pr - 1 ->
      Z.of_nat (length (onLayer j (placements pr))) = boxesPerLayer pr).
Proof.
  intros Hcells HK HL HQ Hpr Hj.
  pose proof (palletsFor_onLayer pal v0 _ pattern Hcells HK HL HQ) as Hon.
  rewrite Forall_forall in Hon. specialize (Hon pr Hpr j Hj).
  pose proof (palletsFor_targets pal v0 _ pattern Hcells HK HL HQ) as Hts.
  apply list_elem_of_lookup_1 in Hpr as (i & Hi).
  destruct (Forall2_lookup_r _ _ _ _ _ Hts Hi) as (t & Ht & Hbox & HbK & Hlay).
  rewrite HbK, Hon.
  destruct Hlay as [Hlay|[_ Hl0]]; [|lia].
  split; [reflexivity|]. split; nia.
Qed.

(** X16.  The layers of a pallet of a result without error are filled from
    the bottom: layer [j] holds [min K (n - j K)] of the pallet's [n] boxes,
    [K] the boxes per layer; so every layer below the top is full and the
    top layer holds the rest, at least one box. *)
Theorem performCalc_layers_filled (boxes : boxesArg) (pal : PalletConfig)
    (v0 : BoxType) (r : CalculationResult) :
  performCalc boxes (Some pal) = Normal r ->
  error r = None ->
  head (validBoxes (entriesOf boxes)) = Some v0 ->
  forall pr, pr ∈ pallets r ->
    forall j, 0 <= j < layers pr ->
      Z.of_nat (length (onLayer j (placements pr)))
      = Z.min (boxesPerLayer pr) (pr_totalBoxes pr - j * boxesPerLayer pr)
      /\ 1 <= Z.of_nat (length (onLayer j (placements pr)))
      /\ (j < layers pr - 1 ->
          Z.of_nat (length (onLayer j (placements pr))) = boxesPerLayer pr).
Proof.
  intros Hrun Herr Hhead pr Hpr j Hj.
  destruct (run_facts boxes pal v0 r Hrun Herr Hhead)
    as (pattern & _ & Hcells & HK & HL & HQ & _ & _ & _ & Hprs).
  rewrite Hprs in Hpr.
  exact (palletsFor_occupancy pal v0 _ pattern pr j Hcells HK HL HQ Hpr Hj).
Qed.

Lemma performCalc_layers_filled_witness :
  exists r,
    performCalc manyBoxes (Some unevenPallet) = Normal r
    /\ forall pr, pr ∈ pallets r ->
         forall j, 0 <= j < layers pr ->
           Z.of_nat (length (onLayer j (placements pr)))
           = Z.min (boxesPerLayer pr) (pr_totalBoxes pr - j * boxesPerLayer pr)
           /\ 1 <= Z.of_nat (length (onLayer j (placements pr)))
           /\ (j < layers pr - 1 ->
               Z.of_nat (length (onLayer j (placements pr))) = boxesPerLayer pr).
Proof.
  pose (c := performCalc manyBoxes (Some unevenPallet)).
  destruct c as [r|e] eqn:Hrun; [|vm_compute in Hrun; discriminate].
  assert (error r = None) as Herr
    by (vm_compute in Hrun; injection Hrun as <-; reflexivity).
  exists r. split; [assumption|].
  exact (performCalc_layers_filled manyBoxes unevenPallet
           (sampleBox 5 3 1 100) r Hrun Herr eq_refl).
Defined.

(** ** Heights in the 3D view *)

Lemma layerH_uniform (H : Q) (i : Z) (ps : list BoxPlacement) :
  (0 < H)%Q ->
  Forall (fun bp => b_height (bp_box bp) = H) ps ->
  onLayer i ps <> [] ->
  exists x, layerH ps i = Some x /\ (x == H)%Q.
Proof.
  intros HH Hall Hne. unfold layerH.
  assert (forall m,
            (m = None \/ exists x, m = Some x /\ (x == H)%Q) ->
            let res := foldl (fun m p =>
                                if bp_layer p =? i
                                then Some (Qmax (default 0%Q m) (b_height (bp_box p)))
                                else m) m ps in
            (res = m /\ onLayer i ps = []) \/ exists x, res = Some x /\ (x == H)%Q)
    as Hgen.
  { clear Hne. induction Hall as [|bp ps Hbp _ IH]; intros m Hm; cbv zeta.
    - left. split; reflexivity.
    - cbn [foldl]. unfold onLayer. cbn [List.filter]. fold (onLayer i ps).
      destruct (bp_layer bp =? i).
      + right.
        assert (exists x, Some (Qmax (default 0%Q m) (b_height (bp_box bp))) = Some x
                          /\ (x == H)%Q) as Hm'.
        { eexists. split; [reflexivity|]. rewrite Hbp.
          apply Q.max_r. destruct Hm as [->|(x & -> & Hx)]; simpl; lra. }
        destruct (IH _ (or_intror Hm')) as [(-> & _)|Hres]; assumption.
      + destruct (IH m Hm) as [(-> & Hnil)|Hres]; [left|right]; auto. }
  destruct (Hgen None (or_introl eq_refl)) as [(_ & Hnil)|Hres];
    [contradiction | assumption].
Qed.

Lemma foldl_layers_uniform (H y0 : Q) (ps : list BoxPlacement) (n : nat) :
  (forall i, 0 <= i < Z.of_nat n -> exists x, layerH ps i = Some x /\ (x == H)%Q) ->
  (foldl (fun y i => y + default 0 (layerH ps i)) y0 (Z.of_nat <$> seq 0 n)
   == y0 + inject_Z (Z.of_nat n) * H)%Q.
Proof.
  induction n as [|n IH]; intros Hlay.
  - cbn. ring.
  - rewrite seq_S, fmap_app, foldl_app. cbn [fmap list_fmap foldl].
    rewrite Nat.add_0_l.
    destruct (Hlay (Z.of_nat n) ltac:(lia)) as (x & -> & Hx). simpl default.
    rewrite IH by (intros i Hi; apply Hlay; lia).
    rewrite Nat2Z.inj_succ. unfold Z.succ. rewrite inject_Z_plus, Hx.
    change (inject_Z 1) with 1%Q. ring.
Qed.

Lemma palletsFor_box_heights (pal : PalletConfig) (v0 : BoxType) (Q : Z)
    (pattern : LayerPattern) :
  Forall (fun pr => Forall (fun bp => b_height (bp_box bp) = b_height v0)
                           (placements pr))
         (palletsFor pal v0 Q pattern).
Proof.
  unfold palletsFor. cbv zeta. apply palletLoop_Forall.
  intros c li n _. unfold placeCell.
  destruct (clampCenterInsidePallet _ _ _ _ _ _). reflexivity.
Qed.

Lemma palletsFor_layer_range (pal : PalletConfig) (v0 : BoxType) (Q : Z)
    (pattern : LayerPattern) :
  Forall (fun pr =>
            totalHeight pr = (p_height pal + inject_Z (layers pr) * b_height v0)%Q
            /\ Forall (fun bp => 0 <= bp_layer bp < layers pr) (placements pr))
         (palletsFor pal v0 Q pattern).
Proof.
  unfold palletsFor. cbv zeta.
  match goal with
  | |- context [palletLoop ?K ?L ?cap ?pat ?base ?pl ?af ?ts ?p ?idc] =>
      destruct (palletLoop_shape K L cap pat base pl af ts p idc)
        as (_ & _ & _ & Hshape & _)
  end.
  eapply Forall_impl; [exact Hshape|].
  intros pr (_ & _ & _ & _ & Hth & Hlayers). split; assumption.
Qed.

(** X17.  The 3D view stacks the boxes of a pallet of a result without
    error as the engine counts them: the mesh of a placement on layer [l]
    is centred at the deck's height plus [l] box heights plus half a box
    height, and its top is no higher than the pallet's [totalHeight]. *)
Theorem performCalc_view_stacks (boxes : boxesArg) (pal : PalletConfig)
    (v0 : BoxType) (r : CalculationResult) :
  performCalc boxes (Some pal) = Normal r ->
  error r = None ->
  head (validBoxes (entriesOf boxes)) = Some v0 ->
  forall pr, pr ∈ pallets r ->
    forall bp, bp ∈ placements pr ->
      (meshY pal (placements pr) bp
       == p_height pal + inject_Z (bp_layer bp) * b_height v0 + b_height v0 / 2)%Q
      /\ (meshY pal (placements pr) bp + b_height (bp_box bp) / 2
          <= totalHeight pr)%Q.
Proof.
  intros Hrun Herr Hhead pr Hpr bp Hbp.
  destruct (run_positive boxes pal v0 r Hrun Herr Hhead)
    as (_ & _ & _ & _ & _ & HH).
  destruct (run_facts boxes pal v0 r Hrun Herr Hhead)
    as (pattern & _ & Hcells & HK & HL & HQ & _ & _ & _ & Hprs).
  rewrite Hprs in Hpr.
  pose proof (palletsFor_box_heights pal v0 (totalQuantity boxes) pattern) as Hhs.
  pose proof (palletsFor_layer_range pal v0 (totalQuantity boxes) pattern) as Hrange.
  rewrite Forall_forall in Hhs, Hrange.
  specialize (Hhs pr Hpr). destruct (Hrange pr Hpr) as (Hth & Hlayers).
  rewrite Forall_forall in Hlayers. specialize (Hlayers bp Hbp).
  assert (b_height (bp_box bp) = b_height v0) as Hbh
    by (rewrite Forall_forall in Hhs; apply Hhs, Hbp).
  assert (meshY pal (placements pr) bp
          == p_height pal + inject_Z (bp_layer bp) * b_height v0 + b_height v0 / 2)%Q
    as Hy.
  { unfold meshY, upto. cbv zeta.
    rewrite (foldl_layers_uniform (b_height v0)).
    - rewrite Z2Nat.id, Hbh by lia. reflexivity.
    - intros i Hi. rewrite Z2Nat.id in Hi by lia.
      apply layerH_uniform; [assumption..|].
      destruct (palletsFor_occupancy pal v0 _ pattern pr i Hcells HK HL HQ Hpr
                  ltac:(lia)) as (_ & Hone & _).
      intros Hnil. rewrite Hnil in Hone. cbn in Hone. lia. }
  split; [exact Hy|].
  rewrite Hy, Hth, Hbh.
  pose proof (inject_Z_mul_le (bp_layer bp + 1) (layers pr) (b_height v0)
                ltac:(lia) ltac:(lra)) as Hmul.
  rewrite inject_Z_succ_mul in Hmul. qhalves.
Qed.

Lemma performCalc_view_stacks_witness :
  exists r,
    performCalc manyBoxes (Some unevenPallet) = Normal r
    /\ forall pr, pr ∈ pallets r ->
         forall bp, bp ∈ placements pr ->
           (meshY unevenPallet (placements pr) bp
            == 0 + inject_Z (bp_layer bp) * 1 + 1 / 2)%Q
           /\ (meshY unevenPallet (placements pr) bp + b_height (bp_box bp) / 2
               <= totalHeight pr)%Q.
Proof.
  pose (c := performCalc manyBoxes (Some unevenPallet)).
  destruct c as [r|e] eqn:Hrun; [|vm_compute in Hrun; discriminate].
  assert (error r = None) as Herr
    by (vm_compute in Hrun; injection Hrun as <-; reflexivity).
  exists r. split; [assumption|].
  exact (performCalc_view_stacks manyBoxes unevenPallet
           (sampleBox 5 3 1 100) r Hrun Herr eq_refl).
Defined.

(** ** The compatibility check against the engine *)

(** X18.  For a box of positive dimensions on a pallet that passes the
    engine's pallet check, [validateBoxPalletCompatibility] and the engine
    decide alike: [canFit] holds exactly when [chooseBestLayerPattern] finds
    a pattern; [hasVerticalSpace] implies room for a layer, and where the
    engine finds room for a layer without it, the box is taller than the
    clearance by at most [EPS]. *)
Theorem compatibility_matches_engine (b : BoxType) (pal : PalletConfig) (q : Z) :
  (0 < b_length b)%Q -> (0 < b_width b)%Q -> (0 < b_height b)%Q ->
  palletRejected pal = false ->
  let c := validateBoxPalletCompatibility (dimsOf b) (palletDimsOf pal) in
  (canFit c = true
   <-> exists p,
         chooseBestLayerPattern (p_width pal) (p_depth pal)
           (footprint0 b) (footprint90 b) q = Some p)
  /\ (hasVerticalSpace c = true -> 1 <= layersMaxOf pal (b_height b))
  /\ (hasVerticalSpace c = false -> 1 <= layersMaxOf pal (b_height b) ->
      (p_maxHeight pal - p_height pal < b_height b
       <= p_maxHeight pal - p_height pal + EPS)%Q).
Proof.
  intros Hl Hw Hh Hrej. cbv zeta.
  apply palletRejected_false in Hrej as (HW & HD & Hclear).
  unfold validateBoxPalletCompatibility, dimsOf, palletDimsOf.
  cbn [bd_height bd_length bd_width vp_height vp_maxHeight vp_width vp_depth
       canFit hasVerticalSpace].
  rewrite !(orZero_positive _ Hl), !(orZero_positive _ Hw). cbn [jsLe].
  assert (positiveDeck (p_width pal) (p_depth pal) (footprint0 b) (footprint90 b))
    as Hpos by (unfold positiveDeck; cbn; auto 10).
  pose proof (chooseBestLayerPattern_fits _ _ _ _ q Hpos) as Hfits.
  unfold fitsOn, footprint0, footprint90 in Hfits. cbn [len wid] in Hfits.
  assert (0 < EPS)%Q as Heps by reflexivity.
  split; [|split].
  - destruct (chooseBestLayerPattern _ _ _ _ _) as [p|].
    + destruct Hfits as (_ & ->). split; [eauto | reflexivity].
    + rewrite Hfits. split; [discriminate | intros (p & Hp); discriminate].
  - intros Hvert. apply Qle_bool_iff in Hvert.
    apply floorQ_ge_1; [assumption | lra].
  - intros Hvert Hlay. apply floorQ_ge_1 in Hlay; [|assumption].
    split; [|assumption].
    apply Qnot_le_lt. intros Hle. apply Qle_bool_iff in Hle. congruence.
Qed.

Lemma compatibility_matches_engine_witness :
  let c := validateBoxPalletCompatibility (dimsOf formBox) (palletDimsOf formPallet) in
  (canFit c = true
   <-> exists p,
         chooseBestLayerPattern 48 40 (footprint0 formBox) (footprint90 formBox) 40
         = Some p)
  /\ (hasVerticalSpace c = true -> 1 <= layersMaxOf formPallet 8)
  /\ (hasVerticalSpace c = false -> 1 <= layersMaxOf formPallet 8 ->
      (72 - (11 # 2) < 8 <= 72 - (11 # 2) + EPS)%Q).
Proof.
  apply (compatibility_matches_engine formBox formPallet 40); reflexivity.
Defined.

(** ** The clamp *)

Lemma clamp_idempotent (lo hi c : Q) :
  (Qmax lo (Qmin hi (Qmax lo (Qmin hi c))) == Qmax lo (Qmin hi c))%Q.
Proof.
  set (m1 := Qmin hi c). set (r := Qmax lo m1).
  set (m2 := Qmin hi r). set (r2 := Qmax lo m2).
  destruct (Q.min_spec hi c) as [[G1 H1]|[G1 H1]];
    destruct (Q.max_spec lo m1) as [[G2 H2]|[G2 H2]];
    destruct (Q.min_spec hi r) as [[G3 H3]|[G3 H3]];
    destruct (Q.max_spec lo m2) as [[G4 H4]|[G4 H4]];
    fold m1 in H1; fold r in H2; fold m2 in H3; fold r2 in H4; lra.
Qed.

Lemma clamp_identity (lo hi c : Q) :
  (lo <= c <= hi)%Q -> (Qmax lo (Qmin hi c) == c)%Q.
Proof.
  intros Hc. set (m1 := Qmin hi c).
  destruct (Q.min_spec hi c) as [[G1 H1]|[G1 H1]];
    destruct (Q.max_spec lo m1) as [[G2 H2]|[G2 H2]];
    fold m1 in H1; lra.
Qed.

(** X19.  [clampCenterInsidePallet] is idempotent, and it leaves a centre
    where it is when the footprint around it keeps [EPS] from every edge of
    the deck. *)
Theorem clampCenterInsidePallet_idempotent (cx cz l w palletW palletD : Q) :
  let c1 := clampCenterInsidePallet cx cz l w palletW palletD in
  let c2 := clampCenterInsidePallet c1.1 c1.2 l w palletW palletD in
  (c2.1 == c1.1)%Q /\ (c2.2 == c1.2)%Q
  /\ ((Qabs cx + l / 2 + EPS <= palletW / 2)%Q -> (c1.1 == cx)%Q)
  /\ ((Qabs cz + w / 2 + EPS <= palletD / 2)%Q -> (c1.2 == cz)%Q).
Proof.
  cbv zeta. unfold clampCenterInsidePallet. cbn [fst snd].
  split; [apply clamp_idempotent|]. split; [apply clamp_idempotent|].
  split; intros Hin; apply clamp_identity.
  - pose proof (Qle_Qabs cx). pose proof (Qle_Qabs (- cx)).
    rewrite Qabs_opp in *. split; lra.
  - pose proof (Qle_Qabs cz). pose proof (Qle_Qabs (- cz)).
    rewrite Qabs_opp in *. split; lra.
Qed.

(** ** Support of the upper layers *)

Lemma placeCells_elem (base : BoxType) (pallet : PalletConfig) (li : Z)
    (cells : list Cell) :
  forall idCounter bp,
    bp ∈ (placeCells base pallet li cells idCounter).1 ->
    exists c n, c ∈ cells /\ bp = placeCell base pallet li c n.
Proof.
  induction cells as [|c cells IH]; intros idc bp; cbn [placeCells].
  - cbn [fst]. intros Hbp. inversion Hbp.
  - specialize (IH (S idc) bp).
    destruct (placeCells base pallet li cells (S idc)) as [ps idc1].
    cbn [fst] in *. intros Hbp. apply elem_of_cons in Hbp as [->|Hbp].
    + exists c, idc. split; [apply list_elem_of_here | reflexivity].
    + destruct (IH Hbp) as (c' & n & Hc' & ->).
      exists c', n. split; [apply list_elem_of_further, Hc' | reflexivity].
Qed.

Lemma placeCells_covers (base : BoxType) (pallet : PalletConfig) (li : Z)
    (cells : list Cell) (c : Cell) :
  c ∈ cells ->
  forall idCounter,
    exists n, placeCell base pallet li c n ∈ (placeCells base pallet li cells idCounter).1.
Proof.
  induction cells as [|c' cells IH]; intros Hc idc; [inversion Hc|].
  cbn [placeCells]. apply elem_of_cons in Hc as [->|Hc].
  - destruct (placeCells base pallet li cells (S idc)) as [ps idc1].
    exists idc. cbn [fst]. apply list_elem_of_here.
  - destruct (IH Hc (S idc)) as (n & Hn).
    destruct (placeCells base pallet li cells (S idc)) as [ps idc1].
    exists n. cbn [fst] in *. apply list_elem_of_further, Hn.
Qed.

Lemma fillFullLayers_elem (pattern : LayerPattern) (base : BoxType)
    (pallet : PalletConfig) (n : nat) :
  forall li idCounter bp,
    bp ∈ (fillFullLayers pattern base pallet n li idCounter).1 ->
    exists c k id,
      c ∈ materializeLayerCells pattern (p_width pallet) (p_depth pallet)
      /\ li <= k < li + Z.of_nat n
      /\ bp = placeCell base pallet k c id.
Proof.
  induction n as [|n IH]; intros li idc bp; cbn [fillFullLayers].
  - cbn [fst]. intros Hbp. inversion Hbp.
  - pose proof (placeCells_elem base pallet li
                  (materializeLayerCells pattern (p_width pallet) (p_depth pallet))
                  idc bp) as H1.
    destruct (placeCells base pallet li _ idc) as [ps idc1].
    specialize (IH (li + 1) idc1 bp).
    destruct (fillFullLayers pattern base pallet n (li + 1) idc1) as [qs idc2].
    cbn [fst] in *. intros Hbp. apply elem_of_app in Hbp as [Hbp|Hbp].
    + destruct (H1 Hbp) as (c & id & Hc & ->).
      exists c, li, id. split; [assumption|]. split; [lia | reflexivity].
    + destruct (IH Hbp) as (c & k & id & Hc & Hk & ->).
      exists c, k, id. split; [assumption|]. split; [lia | reflexivity].
Qed.

Lemma fillFullLayers_covers (pattern : LayerPattern) (base : BoxType)
    (pallet : PalletConfig) (c : Cell) (k : Z) (n : nat) :
  c ∈ materializeLayerCells pattern (p_width pallet) (p_depth pallet) ->
  forall li idCounter,
    li <= k < li + Z.of_nat n ->
    exists id,
      placeCell base pallet k c id
      ∈ (fillFullLayers pattern base pallet n li idCounter).1.
Proof.
  intros Hc. induction n as [|n IH]; intros li idc Hk; [lia|].
  cbn [fillFullLayers].
  pose proof (placeCells_covers base pallet li _ c Hc idc) as H1.
  destruct (placeCells base pallet li _ idc) as [ps idc1].
  specialize (IH (li + 1) idc1).
  destruct (fillFullLayers pattern base pallet n (li + 1) idc1) as [qs idc2].
  cbn [fst] in *. destruct (Z.eq_dec k li) as [->|Hne].
  - destruct H1 as (id & Hid). exists id. apply elem_of_app. left. assumption.
  - destruct (IH ltac:(lia)) as (id & Hid). exists id.
    apply elem_of_app. right. assumption.
Qed.

(** Whatever the target, a placement above layer 0 has a placement of the
    same cell on the layer below. *)
Lemma buildPlacementsForPallet_supported (t L : Z) (pattern : LayerPattern)
    (base : BoxType) (pallet : PalletConfig) (idCounter : nat) (allFull : bool) :
  let ps := (buildPlacementsForPallet t L pattern base pallet idCounter allFull).1.1 in
  forall bp, bp ∈ ps -> 1 <= bp_layer bp ->
    exists c id id',
      c ∈ materializeLayerCells pattern (p_width pallet) (p_depth pallet)
      /\ bp = placeCell base pallet (bp_layer bp) c id
      /\ placeCell base pallet (bp_layer bp - 1) c id' ∈ ps.
Proof.
  cbv zeta. unfold buildPlacementsForPallet.
  set (K := Z.max 1 (perLayer pattern)).
  set (n := Z.to_nat (Z.min (t / K) L)).
  pose proof (fillFullLayers_elem pattern base pallet n 0 idCounter) as Helem.
  pose proof (fun c k Hc =>
                fillFullLayers_covers pattern base pallet c k n Hc 0 idCounter)
    as Hcov.
  destruct (fillFullLayers pattern base pallet n 0 idCounter) as [full idc1].
  cbn [fst] in Helem, Hcov.
  assert (forall bp, bp ∈ full -> 1 <= bp_layer bp ->
            exists c id id',
              c ∈ materializeLayerCells pattern (p_width pallet) (p_depth pallet)
              /\ bp = placeCell base pallet (bp_layer bp) c id
              /\ placeCell base pallet (bp_layer bp - 1) c id' ∈ full) as Hfull.
  { intros bp Hbp Hl. destruct (Helem bp Hbp) as (c & k & id & Hc & Hk & ->).
    rewrite placeCell_layer in *.
    destruct (Hcov c (k - 1) Hc ltac:(lia)) as (id' & Hid').
    exists c, id, id'. auto. }
  destruct ((0 <? t - Z.of_nat n * K) && (Z.of_nat n <? L)); [|exact Hfull].
  match goal with
  | |- context [placeCells base pallet ?li ?cs idc1] =>
      pose proof (placeCells_elem base pallet li cs idc1) as Hpart;
      destruct (placeCells base pallet li cs idc1) as [part idc2]
  end.
  cbn [fst] in *. intros bp Hbp Hl. apply elem_of_app in Hbp as [Hbp|Hbp].
  - destruct (Hfull bp Hbp Hl) as (c & id & id' & Hc & Heq & Hin).
    exists c, id, id'. split; [assumption|]. split; [assumption|].
    apply elem_of_app. left. assumption.
  - destruct (Hpart bp Hbp) as (c & id & Hc & ->).
    apply pickCornerEdgePartialCells_subset in Hc.
    rewrite placeCell_layer in *.
    destruct (Hcov c (Z.of_nat n - 1) Hc ltac:(lia)) as (id' & Hid').
    exists c, id, id'. split; [assumption|]. split; [reflexivity|].
    apply elem_of_app. left. assumption.
Qed.

Lemma palletLoop_pallets_Forall (P : list BoxPlacement -> Prop) (K L cap : Z)
    (pattern : LayerPattern) (base : BoxType) (pallet : PalletConfig)
    (allFull : bool) (targets : list Z) :
  (forall t idCounter,
     P (buildPlacementsForPallet t L pattern base pallet idCounter allFull).1.1) ->
  forall p idCounter,
    Forall (fun pr => P (placements pr))
           (palletLoop K L cap pattern base pallet allFull targets p idCounter).1.1.
Proof.
  intros HP. induction targets as [|t targets IH]; intros p idc; cbn [palletLoop];
    [constructor|].
  pose proof (HP (Z.min t cap) idc) as H1.
  destruct (buildPlacementsForPallet (Z.min t cap) L pattern base pallet idc allFull)
    as [[ps used] idc1].
  specialize (IH (p + 1) idc1).
  destruct (palletLoop K L cap pattern base pallet allFull targets (p + 1) idc1)
    as [[prs dist] idc2].
  cbn [fst] in *. constructor; assumption.
Qed.

(** X20.  Every box above the first layer rests on a box: in a result
    without error, a placement on layer [l >= 1] of a pallet has on layer
    [l - 1] of the same pallet a placement at the same [x] and [z] with the
    same rotation. *)
Theorem performCalc_boxes_supported (boxes : boxesArg) (pal : PalletConfig)
    (r : CalculationResult) :
  performCalc boxes (Some pal) = Normal r ->
  error r = None ->
  forall pr, pr ∈ pallets r ->
    forall bp, bp ∈ placements pr -> 1 <= bp_layer bp ->
      exists below,
        below ∈ placements pr
        /\ bp_layer below = bp_layer bp - 1
        /\ bp_x below = bp_x bp /\ bp_z below = bp_z bp
        /\ bp_rotation below = bp_rotation bp.
Proof.
  intros Hrun Herr pr Hpr bp Hbp Hl.
  destruct (performCalc_runResult boxes (Some pal) r Hrun Herr)
    as (pal' & v0 & vs & pattern & Hpal & _ & _ & _ & _ & _ & _ & _ & Hr).
  injection Hpal as <-.
  destruct (runResult_fields pal v0 (totalQuantity boxes) pattern) as (Hprs & _).
  cbv zeta in Hprs. rewrite <- Hr in Hprs. rewrite Hprs in Hpr.
  unfold palletsFor in Hpr. cbv zeta in Hpr.
  match type of Hpr with
  | context [palletLoop ?K ?L ?cap ?pat ?base ?pl ?af ?ts ?p ?idc] =>
      pose proof (palletLoop_pallets_Forall
                    (fun ps =>
                       forall bp, bp ∈ ps -> 1 <= bp_layer bp ->
                         exists c id id',
                           c ∈ materializeLayerCells pat (p_width pl) (p_depth pl)
                           /\ bp = placeCell base pl (bp_layer bp) c id
                           /\ placeCell base pl (bp_layer bp - 1) c id' ∈ ps)
                    K L cap pat base pl af ts
                    (fun t idc' =>
                       buildPlacementsForPallet_supported t L pat base pl idc' af)
                    p idc) as Hloop
  end.
  rewrite Forall_forall in Hloop.
  destruct (Hloop pr Hpr bp Hbp Hl) as (c & id & id' & _ & Heq & Hin).
  eexists. split; [exact Hin|].
  remember (bp_layer bp) as l eqn:Hlayer. clear Hlayer. subst bp.
  unfold placeCell. destruct (clampCenterInsidePallet _ _ _ _ _ _).
  cbn. auto.
Qed.

Lemma performCalc_boxes_supported_witness :
  exists r,
    performCalc manyBoxes (Some unevenPallet) = Normal r
    /\ forall pr, pr ∈ pallets r ->
         forall bp, bp ∈ placements pr -> 1 <= bp_layer bp ->
           exists below,
             below ∈ placements pr
             /\ bp_layer below = bp_layer bp - 1
             /\ bp_x below = bp_x bp /\ bp_z below = bp_z bp
             /\ bp_rotation below = bp_rotation bp.
Proof.
  pose (c := performCalc manyBoxes (Some unevenPallet)).
  destruct c as [r|e] eqn:Hrun; [|vm_compute in Hrun; discriminate].
  assert (error r = None) as Herr
    by (vm_compute in Hrun; injection Hrun as <-; reflexivity).
  exists r. split; [assumption|].
  exact (performCalc_boxes_supported manyBoxes unevenPallet r Hrun Herr).
Defined.

(** ** Boxes of a layer side by side *)

Lemma ForallOrdPairs_lookup {A} (R : A -> A -> Prop) (l : list A) :
  ForallOrdPairs R l ->
  forall (i j : nat) (a b : A),
    (i < j)%nat -> l !! i = Some a -> l !! j = Some b -> R a b.
Proof.
  induction 1 as [|x l Hx _ IH]; intros i j a b Hij Hi Hj; [discriminate|].
  destruct j as [|j]; [lia|]. cbn in Hj. destruct i as [|i].
  - injection Hi as <-. rewrite List.Forall_forall in Hx.
    apply Hx, list_elem_of_In. eapply list_elem_of_lookup_2, Hj.
  - cbn in Hi. apply (IH i j); [lia | assumption..].
Qed.

(** Entries of a list at distinct indices inherit a symmetric relation that
    holds between the entries of the list. *)
Lemma ForallOrdPairs_select {A} (R : A -> A -> Prop) (l sel : list A)
    (idxs : list nat) :
  (forall a b, R a b -> R b a) ->
  ForallOrdPairs R l ->
  NoDup idxs ->
  Forall2 (fun i c => l !! i = Some c) idxs sel ->
  ForallOrdPairs R sel.
Proof.
  intros Hsym Hl Hnd Hsel. revert Hnd.
  induction Hsel as [|i c idxs sel Hi Hsel IH]; intros Hnd; [constructor|].
  apply NoDup_cons in Hnd as (Hni & Hnd). constructor; [|apply IH, Hnd].
  apply List.Forall_forall. intros d Hd.
  apply list_elem_of_In, list_elem_of_lookup_1 in Hd as (k & Hk).
  destruct (Forall2_lookup_r _ _ _ _ _ Hsel Hk) as (j & Hj & Hjd).
  assert (i <> j) as Hne.
  { intros ->. apply Hni. eapply list_elem_of_lookup_2, Hj. }
  destruct (Nat.lt_total i j) as [Hlt|[Heq|Hgt]]; [|contradiction|].
  - exact (ForallOrdPairs_lookup R l Hl i j c d Hlt Hi Hjd).
  - apply Hsym. exact (ForallOrdPairs_lookup R l Hl j i d c Hgt Hjd Hi).
Qed.

Lemma ForallOrdPairs_Forall2 {A B} (T : A -> B -> Prop) (R : A -> A -> Prop)
    (R' : B -> B -> Prop) (l : list A) (k : list B) :
  Forall2 T l k ->
  ForallOrdPairs R l ->
  (forall a b x y, a ∈ l -> b ∈ l -> T a x -> T b y -> R a b -> R' x y) ->
  ForallOrdPairs R' k.
Proof.
  intros HT. induction HT as [|a x l k Hax HT IH]; intros HR Himp; [constructor|].
  inversion HR as [|a' l' Ha HR']; subst. constructor.
  - apply List.Forall_forall. intros y Hy.
    apply list_elem_of_In, list_elem_of_lookup_1 in Hy as (j & Hj).
    destruct (Forall2_lookup_r _ _ _ _ _ HT Hj) as (b & Hb & Hby).
    apply (Himp a b x y); try assumption.
    + apply list_elem_of_here.
    + apply list_elem_of_further. eapply list_elem_of_lookup_2, Hb.
    + rewrite List.Forall_forall in Ha. apply Ha, list_elem_of_In.
      eapply list_elem_of_lookup_2, Hb.
  - apply IH; [assumption|]. intros a1 b1 x1 y1 Ha1 Hb1.
    apply Himp; apply list_elem_of_further; assumption.
Qed.

Lemma cellsApart_sym (c1 c2 : Cell) : cellsApart c1 c2 -> cellsApart c2 c1.
Proof. unfold cellsApart. tauto. Qed.

(** The cells picked for a partial layer lie at distinct indices. *)
Lemma pickCornerEdgePartialCells_distinct (cells : list Cell) (r : Z) :
  exists idxs : list nat,
    NoDup idxs
    /\ Forall2 (fun i c => cells !! i = Some c) idxs
               (pickCornerEdgePartialCells cells r).
Proof.
  unfold pickCornerEdgePartialCells.
  destruct (Z.leb_spec r 0) as [Hr0|Hrpos]; [exists []; split; constructor|].
  destruct cells as [|c0 rest]; [exists []; split; constructor|].
  destruct (pickedIndices_count c0 rest r ltac:(lia)) as (Hnd & _ & Hlt).
  exists (pickedIndices c0 rest r). split; [assumption|].
  apply Forall2_fmap_r, Forall_Forall2_diag, Forall_forall.
  intros i Hi. simpl.
  destruct (lookup_lt_is_Some_2 (c0 :: rest) i (Hlt i Hi)) as [c ->].
  reflexivity.
Qed.

(** The clamp moves the centre of a footprint that lies on the deck by no
    more than [EPS]. *)
Lemma clamp_shift (c ext deck : Q) :
  (- (deck / 2) <= c - ext / 2)%Q -> (c + ext / 2 <= deck / 2)%Q ->
  (c - EPS
   <= Qmax (- (deck / 2) + ext / 2 + EPS) (Qmin (deck / 2 - ext / 2 - EPS) c)
   <= c + EPS)%Q.
Proof.
  intros Hlo Hhi.
  assert (0 < EPS)%Q as Heps by reflexivity.
  set (lo := (- (deck / 2) + ext / 2 + EPS)%Q).
  set (hi := (deck / 2 - ext / 2 - EPS)%Q).
  set (m := Qmin hi c).
  destruct (Q.min_spec hi c) as [[G1 H1]|[G1 H1]];
    destruct (Q.max_spec lo m) as [[G2 H2]|[G2 H2]];
    fold m in H1; unfold lo, hi in *; split; qhalves.
Qed.

Section LayerImages.
Variable base : BoxType.
Variable pallet : PalletConfig.
Variable pattern : LayerPattern.

Hypothesis Hcells :
  ForallOrdPairs cellsApart
    (materializeLayerCells pattern (p_width pallet) (p_depth pallet)).

Lemma layerImage_nil (li : Z) : layerImage base pallet pattern li [].
Proof using All.
  exists []. split; [constructor|]. split; [|constructor].
  intros c Hc. inversion Hc.
Qed.

Lemma placeCells_Forall2 (li : Z) (cells : list Cell) :
  forall idCounter,
    Forall2 (fun c bp => exists n, bp = placeCell base pallet li c n) cells
            (placeCells base pallet li cells idCounter).1.
Proof using All.
  induction cells as [|c cells IH]; intros idc; cbn [placeCells]; [constructor|].
  specialize (IH (S idc)).
  destruct (placeCells base pallet li cells (S idc)) as [ps idc1].
  cbn [fst] in *. constructor; [eauto | assumption].
Qed.

Lemma onLayer_outside (j lo hi : Z) (ps : list BoxPlacement) :
  Forall (fun bp => lo <= bp_layer bp < hi) ps ->
  ~ (lo <= j < hi) ->
  onLayer j ps = [].
Proof using All.
  intros Hall Hj. induction Hall as [|bp ps Hbp _ IH]; [reflexivity|].
  unfold onLayer in *. cbn [List.filter].
  destruct (Z.eqb_spec (bp_layer bp) j); [lia | exact IH].
Qed.

Lemma fillFullLayers_layerImage (j : Z) (n : nat) :
  forall li idCounter,
    layerImage base pallet pattern j
      (onLayer j (fillFullLayers pattern base pallet n li idCounter).1).
Proof using All.
  induction n as [|n IH]; intros li idc; cbn [fillFullLayers].
  - apply layerImage_nil.
  - pose proof (placeCells_Forall2 li
                  (materializeLayerCells pattern (p_width pallet) (p_depth pallet))
                  idc) as H2.
    destruct (placeCells_facts base pallet li
                (materializeLayerCells pattern (p_width pallet) (p_depth pallet)) idc)
      as (_ & Hall1).
    destruct (placeCells base pallet li _ idc) as [ps idc1]. cbn [fst] in *.
    specialize (IH (li + 1) idc1).
    destruct (fillFullLayers_facts pattern base pallet n (li + 1) idc1) as (_ & Hall2).
    destruct (fillFullLayers pattern base pallet n (li + 1) idc1) as [qs idc2].
    cbn [fst] in *. rewrite onLayer_app.
    destruct (Z.eq_dec j li) as [->|Hne].
    + rewrite (onLayer_all li ps Hall1).
      rewrite (onLayer_outside li _ _ qs Hall2) by lia. rewrite app_nil_r.
      eexists. split; [exact Hcells|]. split; [auto | exact H2].
    + rewrite (onLayer_none j li ps Hne Hall1). exact IH.
Qed.

Lemma buildPlacementsForPallet_layerImage (j t L : Z) (idCounter : nat)
    (allFull : bool) :
  layerImage base pallet pattern j
    (onLayer j (buildPlacementsForPallet t L pattern base pallet idCounter allFull).1.1).
Proof using All.
  unfold buildPlacementsForPallet.
  set (K := Z.max 1 (perLayer pattern)).
  set (n := Z.to_nat (Z.min (t / K) L)).
  pose proof (fillFullLayers_layerImage j n 0 idCounter) as Hfull.
  destruct (fillFullLayers_facts pattern base pallet n 0 idCounter) as (_ & Hrange).
  destruct (fillFullLayers pattern base pallet n 0 idCounter) as [full idc1].
  cbn [fst] in *.
  destruct ((0 <? t - Z.of_nat n * K) && (Z.of_nat n <? L)); [|exact Hfull].
  match goal with
  | |- context [placeCells base pallet ?li ?cs idc1] =>
      pose proof (placeCells_Forall2 li cs idc1) as H2;
      destruct (placeCells_facts base pallet li cs idc1) as (_ & Hall2);
      destruct (pickCornerEdgePartialCells_distinct
                  (materializeLayerCells pattern (p_width pallet) (p_depth pallet))
                  (t - Z.of_nat n * K)) as (idxs & Hnd & Hsel);
      destruct (placeCells base pallet li cs idc1) as [part idc2]
  end.
  cbn [fst] in *. rewrite onLayer_app.
  destruct (Z.eq_dec j (Z.of_nat n)) as [->|Hne].
  - rewrite (onLayer_outside (Z.of_nat n) _ _ full Hrange) by lia.
    rewrite (onLayer_all (Z.of_nat n) part Hall2). cbn [app].
    eexists. split; [|split; [|exact H2]].
    + exact (ForallOrdPairs_select cellsApart _ _ idxs cellsApart_sym Hcells Hnd Hsel).
    + intros c Hc. eapply pickCornerEdgePartialCells_subset, Hc.
  - rewrite (onLayer_none j (Z.of_nat n) part Hne Hall2), app_nil_r. exact Hfull.
Qed.

End LayerImages.

(** The placements of two cells of a layer that do not overlap, for cells
    on the deck with a footprint of the box. *)
Lemma placeCell_apart (base : BoxType) (pal : PalletConfig) (li : Z)
    (c1 c2 : Cell) (n1 n2 : nat) :
  cellWithin 0 0 (p_width pal) (p_depth pal) c1 ->
  cellWithin 0 0 (p_width pal) (p_depth pal) c2 ->
  cell_fp c1 = footprint0 base \/ cell_fp c1 = footprint90 base ->
  cell_fp c2 = footprint0 base \/ cell_fp c2 = footprint90 base ->
  cellsApart c1 c2 ->
  placementsApart (2 * EPS) (placeCell base pal li c1 n1) (placeCell base pal li c2 n2).
Proof.
  intros (Hx1 & Hx1' & Hz1 & Hz1') (Hx2 & Hx2' & Hz2 & Hz2') Hf1 Hf2 Hapart.
  assert (forall c n,
            cell_fp c = footprint0 base \/ cell_fp c = footprint90 base ->
            extentX (placeCell base pal li c n) = len (cell_fp c)
            /\ extentZ (placeCell base pal li c n) = wid (cell_fp c)) as Hext.
  { intros c n [Hf|Hf]; unfold extentX, extentZ, placeCell, clampCenterInsidePallet;
      cbn [bp_rotation bp_box]; rewrite Hf; cbn; auto. }
  destruct (Hext c1 n1 Hf1) as (E1 & E2). destruct (Hext c2 n2 Hf2) as (E3 & E4).
  unfold placementsApart. rewrite E1, E2, E3, E4.
  unfold placeCell, clampCenterInsidePallet. cbn [bp_x bp_z].
  pose proof (clamp_shift (cell_x c1 + len (cell_fp c1) / 2 - p_width pal / 2)
                (len (cell_fp c1)) (p_width pal) ltac:(qhalves) ltac:(qhalves)) as S1.
  pose proof (clamp_shift (cell_x c2 + len (cell_fp c2) / 2 - p_width pal / 2)
                (len (cell_fp c2)) (p_width pal) ltac:(qhalves) ltac:(qhalves)) as S2.
  pose proof (clamp_shift (cell_z c1 + wid (cell_fp c1) / 2 - p_depth pal / 2)
                (wid (cell_fp c1)) (p_depth pal) ltac:(qhalves) ltac:(qhalves)) as S3.
  pose proof (clamp_shift (cell_z c2 + wid (cell_fp c2) / 2 - p_depth pal / 2)
                (wid (cell_fp c2)) (p_depth pal) ltac:(qhalves) ltac:(qhalves)) as S4.
  destruct Hapart as [H|[H|[H|H]]];
    [left | right; left | right; right; left | right; right; right]; qhalves.
Qed.

(** X21.  The boxes of a layer stand side by side: on every pallet of a
    result without error, of any two placements on the same layer, with the
    extents that the views read off the rotation, one ends where the other
    begins along [x] or along [z], up to an overlap of [2 * EPS] that the
    clamp can cause. *)
Theorem performCalc_layer_side_by_side (boxes : boxesArg) (pal : PalletConfig)
    (v0 : BoxType) (r : CalculationResult) :
  performCalc boxes (Some pal) = Normal r ->
  error r = None ->
  head (validBoxes (entriesOf boxes)) = Some v0 ->
  forall pr, pr ∈ pallets r ->
    forall j, ForallOrdPairs (placementsApart (2 * EPS)) (onLayer j (placements pr)).
Proof.
  intros Hrun Herr Hhead pr Hpr j.
  destruct (run_positive boxes pal v0 r Hrun Herr Hhead)
    as (HW & HD & _ & Hl & Hw & _).
  destruct (run_facts boxes pal v0 r Hrun Herr Hhead)
    as (pattern & Hbest & _ & _ & _ & _ & _ & _ & _ & Hprs).
  assert (positiveDeck (p_width pal) (p_depth pal) (footprint0 v0) (footprint90 v0))
    as Hpos by (unfold positiveDeck; cbn; auto 10).
  destruct (chooseBestLayerPattern_selected _ _ _ _ _ _ Hbest) as (i & Hi & _).
  pose proof (candidatePatterns_layerOk _ _ _ _ Hpos) as Hall.
  rewrite Forall_lookup in Hall.
  destruct (Hall i pattern Hi) as (HuW & HuD & Hin & Hapart & Hfp).
  rewrite Forall_forall in Hin, Hfp.
  rewrite Hprs in Hpr. unfold palletsFor in Hpr. cbv zeta in Hpr.
  set (base := withQuantity v0 (totalQuantity boxes)) in *.
  match type of Hpr with
  | context [palletLoop ?K ?L ?cap ?pat ?b ?pl ?af ?ts ?p ?idc] =>
      pose proof (palletLoop_pallets_Forall
                    (fun ps => layerImage base pal pattern j (onLayer j ps))
                    K L cap pat b pl af ts
                    (fun t idc' =>
                       buildPlacementsForPallet_layerImage base pal pattern Hapart
                         j t L idc' af)
                    p idc) as Hloop
  end.
  rewrite Forall_forall in Hloop.
  destruct (Hloop pr Hpr) as (cs & Hcs & Hsub & Himg).
  apply (ForallOrdPairs_Forall2 _ cellsApart _ cs _ Himg Hcs).
  intros a b x y Ha Hb (n1 & ->) (n2 & ->) Hab.
  apply Hsub in Ha, Hb.
  apply placeCell_apart; try assumption.
  - eapply cellWithin_mono; [apply Hin, Ha| | | |]; qhalves.
  - eapply cellWithin_mono; [apply Hin, Hb| | | |]; qhalves.
  - apply (Hfp a Ha).
  - apply (Hfp b Hb).
Qed.

Lemma performCalc_layer_side_by_side_witness :
  exists r,
    performCalc manyBoxes (Some unevenPallet) = Normal r
    /\ forall pr, pr ∈ pallets r ->
         forall j,
           ForallOrdPairs (placementsApart (2 * EPS)) (onLayer j (placements pr)).
Proof.
  pose (c := performCalc manyBoxes (Some unevenPallet)).
  destruct c as [r|e] eqn:Hrun; [|vm_compute in Hrun; discriminate].
  assert (error r = None) as Herr
    by (vm_compute in Hrun; injection Hrun as <-; reflexivity).
  exists r. split; [assumption|].
  exact (performCalc_layer_side_by_side manyBoxes unevenPallet
           (sampleBox 5 3 1 100) r Hrun Herr eq_refl).
Defined.

(** ** The sweeps on a deck that need not be finite *)

(** On an infinite width the sweep along [x] never leaves its loop. *)
Lemma splitXSweep_infinite (fuel : nat) (depth : jsnum) (left right : Footprint) :
  forall cLeft res,
    splitXSweep fuel PosInf depth left right PosInf cLeft res = None.
Proof.
  induction fuel as [|fuel IH]; intros cLeft res; [reflexivity|].
  cbn [splitXSweep jsLe jsMul jsSub jsNeg jsAdd jsLt]. apply IH.
Qed.

Lemma buildSplitXPatternsJs_infinite (fuel : nat) (depth : jsnum)
    (left right : Footprint) :
  (0 < len left)%Q ->
  buildSplitXPatternsJs fuel PosInf depth left right = None.
Proof.
  intros Hl. unfold buildSplitXPatternsJs. cbn [jsDiv].
  assert (Qle_bool 0 (len left) = true) as -> by (apply Qle_bool_iff; lra).
  cbn [jsFloor]. apply splitXSweep_infinite.
Qed.

Lemma splitZSweep_infinite (fuel : nat) (width : jsnum) (front back : Footprint) :
  forall rFront res,
    splitZSweep fuel width PosInf front back PosInf rFront res = None.
Proof.
  induction fuel as [|fuel IH]; intros rFront res; [reflexivity|].
  cbn [splitZSweep jsLe jsMul jsSub jsNeg jsAdd jsLt]. apply IH.
Qed.

Lemma buildSplitZPatternsJs_infinite (fuel : nat) (width : jsnum)
    (front back : Footprint) :
  (0 < wid front)%Q ->
  buildSplitZPatternsJs fuel width PosInf front back = None.
Proof.
  intros Hw. unfold buildSplitZPatternsJs. cbn [jsDiv].
  assert (Qle_bool 0 (wid front) = true) as -> by (apply Qle_bool_iff; lra).
  cbn [jsFloor]. apply splitZSweep_infinite.
Qed.

(** On a finite deck, in the exact arithmetic of the model, the sweep along
    [x] returns within [floor (W / len)] turns, with as many patterns as
    [buildSplitXPatterns] gives on the rationals. *)
Lemma splitXSweep_finite (W D : Q) (left right : Footprint) (M : Z) (n : nat) :
  forall cLeft res fuel,
    n = Z.to_nat (M - cLeft + 1) ->
    (n < fuel)%nat ->
    exists res',
      splitXSweep fuel (Num W) (Num D) left right (Num (inject_Z M)) cLeft res
      = Some res'
      /\ length res' = (length res + length (splitXLoop W D left right n cLeft))%nat.
Proof.
  induction n as [|n IH]; intros cLeft res fuel Hn Hfuel.
  - destruct fuel as [|fuel]; [lia|]. cbn [splitXSweep jsLe splitXLoop length].
    assert (Qle_bool (inject_Z cLeft) (inject_Z M) = false) as ->.
    { apply not_true_iff_false. intros Hle. apply Qle_bool_iff in Hle.
      rewrite <- Zle_Qle in Hle. lia. }
    exists res. split; [reflexivity | lia].
  - destruct fuel as [|fuel]; [lia|]. cbn [splitXSweep jsLe splitXLoop].
    assert (Qle_bool (inject_Z cLeft) (inject_Z M) = true) as ->.
    { apply Qle_bool_iff. rewrite <- Zle_Qle. lia. }
    cbn [jsMul jsSub jsNeg jsAdd jsLt].
    change (W + - (inject_Z cLeft * len left))%Q
      with (W - inject_Z cLeft * len left)%Q.
    destruct (Qltb (W - inject_Z cLeft * len left) 0).
    + exists res. split; [reflexivity | cbn [length]; lia].
    + match goal with
      | |- context [splitXSweep fuel _ _ _ _ _ _ (res ++ [?p])] =>
          destruct (IH (cLeft + 1) (res ++ [p]) fuel ltac:(lia) ltac:(lia))
            as (res' & Hres & Hlen)
      end.
      exists res'. split; [exact Hres|].
      rewrite Hlen, length_app. cbn [length]. lia.
Qed.

Lemma buildSplitXPatternsJs_finite (W D : Q) (left right : Footprint) :
  (0 < len left)%Q ->
  forall fuel,
    (Z.to_nat (floorQ W (len left)) < fuel)%nat ->
    exists res,
      buildSplitXPatternsJs fuel (Num W) (Num D) left right = Some res
      /\ length res = length (buildSplitXPatterns W D left right).
Proof.
  intros Hl fuel Hfuel. unfold buildSplitXPatternsJs, buildSplitXPatterns.
  cbn [jsDiv].
  assert (Qeq_bool (len left) 0 = false) as ->.
  { apply not_true_iff_false. intros Heq. apply Qeq_bool_iff in Heq. lra. }
  cbn [jsFloor]. fold (floorQ W (len left)).
  destruct (splitXSweep_finite W D left right (floorQ W (len left))
              (Z.to_nat (floorQ W (len left))) 1 [] fuel
              ltac:(f_equal; lia) Hfuel) as (res & Hres & Hlen).
  exists res. split; [exact Hres | exact Hlen].
Qed.

(** C2 fails on the code.  A pallet of infinite width passes the guard of
    [performCalc], and for its one valid box [chooseBestLayerPattern] calls
    [buildSplitXPatterns], whose loop never exits: whatever the fuel, the
    sweep has not returned and the candidate list is not complete.  So
    [performCalc] does not return and the promise of
    [calculateMultiPalletLayout] is never settled, where the claim has it
    resolve on every input. *)
Theorem calculateMultiPalletLayout_hangs_at_infinite_width :
  palletRejectedJs (Some infinitePallet) = false
  /\ validBoxes [Some (sampleBox 12 10 8 1)] = [sampleBox 12 10 8 1]
  /\ forall fuel,
       buildSplitXPatternsJs fuel (pj_width infinitePallet) (pj_depth infinitePallet)
         (footprint0 (sampleBox 12 10 8 1)) (footprint90 (sampleBox 12 10 8 1))
       = None
       /\ candidatePatternsJs fuel (pj_width infinitePallet) (pj_depth infinitePallet)
            (footprint0 (sampleBox 12 10 8 1)) (footprint90 (sampleBox 12 10 8 1))
          = None.
Proof.
  split; [reflexivity|]. split; [reflexivity|].
  intros fuel.
  assert (buildSplitXPatternsJs fuel PosInf (Num 40)
            (footprint0 (sampleBox 12 10 8 1)) (footprint90 (sampleBox 12 10 8 1))
          = None) as Hsweep
    by (apply buildSplitXPatternsJs_infinite; reflexivity).
  split; [exact Hsweep|].
  unfold candidatePatternsJs. cbn [pj_width pj_depth infinitePallet].
  rewrite Hsweep. reflexivity.
Qed.

(** ** Results that carry an error *)

(** X22.  A result with which the promise of [calculateMultiPalletLayout]
    resolves and whose [error] is set has no pallets and zero totals,
    whether the error comes from a check of [performCalc] or from the
    [catch] around it. *)
Theorem calculateMultiPalletLayout_error_result_empty (boxes : boxesArg)
    (pallet : option PalletConfig) (_pattern : string) (r : CalculationResult) :
  calculateMultiPalletLayout boxes pallet _pattern = Resolved r ->
  error r <> None ->
  pallets r = []
  /\ totalPallets r = 0
  /\ totalBoxes r = 0
  /\ totalWeight r = 0%Q
  /\ averageEfficiency r = 0%Q
  /\ boxDistribution r = [].
Proof.
  unfold calculateMultiPalletLayout. intros Hres Herr.
  destruct (performCalc boxes pallet) as [r'|e] eqn:Hrun;
    injection Hres as <-.
  - destruct (performCalc_error_empty boxes pallet r' Hrun Herr) as (msg & ->).
    repeat split.
  - repeat split.
Qed.

Lemma calculateMultiPalletLayout_error_result_empty_witness :
  calculateMultiPalletLayout BNotArray (Some standardPallet) "auto"
  = Resolved (emptyResult "Calculation failed")
  /\ pallets (emptyResult "Calculation failed") = []
  /\ totalPallets (emptyResult "Calculation failed") = 0
  /\ totalBoxes (emptyResult "Calculation failed") = 0
  /\ totalWeight (emptyResult "Calculation failed") = 0%Q
  /\ averageEfficiency (emptyResult "Calculation failed") = 0%Q
  /\ boxDistribution (emptyResult "Calculation failed") = [].
Proof.
  split; [reflexivity|].
  apply (calculateMultiPalletLayout_error_result_empty BNotArray
           (Some standardPallet) "auto" (emptyResult "Calculation failed"));
    [reflexivity | discriminate].
Defined.
